(** * A shallow embedding of the batch analyser

    The Python program sends text files to one of three remote providers,
    paces the calls with a rate limiter and retries failures.  This file
    embeds the pacing, retry and orchestration code
    ([rate_limiter.py], [gemini_api.py], [kimi_api.py], [deepseek_api.py],
    [api_factory.py]) as functions in a state-and-exception monad over an
    explicit world, and proves the properties of the specification on it.

    Modelling conventions:
    - wall-clock time and [float] durations are rationals ([Q]);
    - everything outside the program (remote services, the file system,
      dialogs, the user's Ctrl-C, the scheduler's oversleeping) is an
      oracle of the environment [Env], indexed by how many times it has
      been consulted;
    - every effect is appended to a chronological [trace];
    - [tqdm] progress bars and [set_description] texts are display only
      and are not traced. *)

From Stdlib Require Import QArith ZArith List String Ascii Bool Arith Lia Lqa Qround.
Import ListNotations.

Set Implicit Arguments.

(** ** Exceptions *)

(** The exception classes the [except] clauses of the program tell apart.
    [KeyboardInterrupt] derives from [BaseException], so an
    [except Exception] clause does not catch it. *)
Inductive ExnClass :=
| ServiceUnavailable   (* google.api_core.exceptions.ServiceUnavailable *)
| RequestException     (* requests.exceptions.RequestException *)
| KeyboardInterrupt
| OtherException.      (* any other subclass of Exception *)

Record exn := MkExn { exn_class : ExnClass; exn_text : string (* str(e) *) }.

Definition is_Exception (e : exn) : bool :=
  match exn_class e with KeyboardInterrupt => false | _ => true end.

Inductive Result (A : Type) :=
| Ok (a : A)
| Raise (e : exn).
Arguments Raise {A} e.

(** ** Data of the program *)

(** [rate_limiter.RateLimitConfig] *)
Record RateLimitConfig := MkConfig {
  wait_minutes : Q;
  show_progress : bool
}.

(** [rate_limiter.RateLimiter] *)
Record RateLimiter := MkRateLimiter {
  config : RateLimitConfig;
  last_call_time : Q
}.

(** The three provider clients; only the Gemini client carries a model
    name that the orchestrator reads back. *)
Inductive Api :=
| GeminiAPI (model_name : string)
| KimiAPI
| DeepSeekAPI.

(** Remote operations, one constructor per call site. *)
Inductive Endpoint :=
| GenerateContent      (* GeminiAPI: self.model.generate_content *)
| ChatCreate           (* DeepSeekAPI: self.client.chat.completions.create *)
| PostSystem           (* KimiAPI: first requests.post, system message only *)
| PostUser.            (* KimiAPI: second requests.post, system + user *)

(** What a remote operation gives back: it raises, or it returns a
    response object whose text accessor ([response.text],
    [response.choices[0].message.content],
    [result["choices"][0]["message"]["content"]]) yields a string or
    raises in its turn. *)
Inductive Reply :=
| Raises (e : exn)
| Responds (content : Result string).

(** Console messages of [call_api]. *)
Inductive Msg :=
| MsgThinking                          (* 正在进行深度思考分析... *)
| MsgSystemPrompt                      (* 正在处理系统提示... *)
| MsgCollecting                        (* 正在整理分析结果... *)
| MsgRetrying (attempt max_retries : nat) (e : exn)
                                       (* 尝试 a+1/max：... 等待并重试... *)
| MsgOtherError (e : exn)              (* 调用 ... API 时发生其他错误 *)
| MsgAllFailed.                        (* 所有尝试均失败 *)

(** The [custom_message] handed to [RateLimiter.wait]. *)
Inductive WaitMsg :=
| WaitProcess (current_file : string)  (* 等待处理: {current_file} *)
| WaitRetry (file_name : string).      (* 等待重试: {file_name} *)

Inductive DialogTitle :=
| TitleSettings                        (* API调用间隔设置 *)
| TitleUpdate.                         (* 更新API调用间隔设置 *)

Inductive Event :=
| ESleep (seconds : Q)                 (* time.sleep returned *)
| EInterrupt                           (* Ctrl-C during time.sleep *)
| ERemote (ep : Endpoint)
| EPrint (m : Msg)
| EWait (custom_message : option WaitMsg)   (* RateLimiter.wait entered *)
| EDialog (title : DialogTitle) (default_minutes : Q)
| EAskYesNo                            (* messagebox.askyesno *)
| EAskYesNoCancel                      (* messagebox.askyesnocancel *)
| EOpenRead (path : string)            (* open(file_path, 'r') *)
| EMakedirs (dir : string)
| EWrite (path content : string).      (* result written to save_path *)

(** ** The environment *)

Record Env := MkEnv {
  (* time *)
  sleep_lag : nat -> Q;                (* how far the n-th sleep oversleeps *)
  interrupt : nat -> bool;             (* Ctrl-C arrives during the n-th sleep *)
  (* remote services *)
  transport : nat -> Reply;            (* outcome of the n-th remote call *)
  (* file system and os.path *)
  read_text : string -> Result string;
  makedirs : string -> Result unit;
  write_text : string -> string -> Result unit;
  basename : string -> string;
  splitext_root : string -> string;    (* os.path.splitext(p)[0] *)
  path_join : string -> string -> string;
  (* prompts.analysis_prompts.NovelAnalysisPrompts, not part of the core *)
  get_prompt : string -> string -> string -> Result (option string);
  format_to_markdown : string -> Result string;
  (* the user *)
  askyesno : nat -> bool;
  askyesnocancel : nat -> option bool;
  config_dialog : nat -> Q -> Result RateLimitConfig
}.

(** ** The state: world and analyser object *)

Record State := MkState {
  clock : Q;                           (* what time.time() returns *)
  sleeps : nat;                        (* cursors into the oracles *)
  remotes : nat;
  asked : nat;
  asked3 : nat;
  dialogs : nat;
  trace : list Event;
  self_api : option Api;               (* ArticleAnalyzer.api *)
  self_rate_limiter : option RateLimiter   (* ArticleAnalyzer.rate_limiter *)
}.

Definition log (e : Event) (s : State) : State :=
  MkState (clock s) (sleeps s) (remotes s) (asked s) (asked3 s) (dialogs s)
          (trace s ++ [e]) (self_api s) (self_rate_limiter s).

(** ** The monad *)

Definition M (A : Type) : Type := State -> Result A * State.

Definition ret {A} (a : A) : M A := fun s => (Ok a, s).

Definition bind {A B} (m : M A) (k : A -> M B) : M B :=
  fun s => match m s with
           | (Ok a, s') => k a s'
           | (Raise e, s') => (Raise e, s')
           end.

Definition raise {A} (e : exn) : M A := fun s => (Raise e, s).

(** [try: body / except ...:] — [handler e] is [None] when no clause
    matches [e], and the exception propagates. *)
Definition try_except {A} (body : M A) (handler : exn -> option (M A)) : M A :=
  fun s => match body s with
           | (Ok a, s') => (Ok a, s')
           | (Raise e, s') =>
               match handler e with
               | Some h => h s'
               | None => (Raise e, s')
               end
           end.

Definition lift_result {A} (r : Result A) : M A := fun s => (r, s).

Declare Scope monad_scope.
Delimit Scope monad_scope with monad.
Notation "x <- m ;; k" := (bind m (fun x => k))
  (at level 61, m at next level, right associativity) : monad_scope.
Notation "m ;; k" := (bind m (fun _ => k))
  (at level 61, right associativity) : monad_scope.
Open Scope monad_scope.

Definition emit (e : Event) : M unit := fun s => (Ok tt, log e s).
Definition print (m : Msg) : M unit := emit (EPrint m).

(** Python truthiness of a string and of an optional string. *)
Definition truthy (s : string) : bool :=
  match s with EmptyString => false | _ => true end.
Definition truthy_opt (o : option string) : bool :=
  match o with Some s => truthy s | None => false end.

Definition Qlt_bool (x y : Q) : bool := negb (Qle_bool y x).

(** ** Strings *)

(** [str.lower] on ASCII letters. *)
Definition lower_ascii (c : ascii) : ascii :=
  let n := nat_of_ascii c in
  if (65 <=? n)%nat && (n <=? 90)%nat then ascii_of_nat (n + 32) else c.

Fixpoint lower (s : string) : string :=
  match s with
  | EmptyString => EmptyString
  | String c s' => String (lower_ascii c) (lower s')
  end.

(** [needle in hay] *)
Fixpoint contains (needle hay : string) : bool :=
  if prefix needle hay then true
  else match hay with
       | EmptyString => false
       | String _ hay' => contains needle hay'
       end.

(** [s.split(sep)] for a one-character separator. *)
Fixpoint split_on (sep : ascii) (s : string) : list string :=
  match s with
  | EmptyString => [EmptyString]
  | String c s' =>
      if Ascii.eqb c sep then EmptyString :: split_on sep s'
      else match split_on sep s' with
           | [] => [String c EmptyString]
           | h :: t => String c h :: t
           end
  end.

(** What one iteration of a retry loop decides. *)
Inductive Ctl (A : Type) :=
| Continue
| Return (a : A).
Arguments Continue {A}.

Definition AttributeError (attr : string) : exn :=
  MkExn OtherException
        (String.append "'NoneType' object has no attribute '"
                       (String.append attr "'")).

Definition IndexError : exn := MkExn OtherException "list index out of range".

Section Program.

Variable E : Env.

(** ** Primitives *)

Definition time_time : M Q := fun s => (Ok (clock s), s).

(** [time.sleep(seconds)]: returns after at least [seconds], or raises
    [KeyboardInterrupt] when the user presses Ctrl-C meanwhile.  Every
    duration the program passes is positive. *)
Definition sleep (seconds : Q) : M unit := fun s =>
  let n := sleeps s in
  if interrupt E n then
    (Raise (MkExn KeyboardInterrupt EmptyString),
     MkState (clock s) (S n) (remotes s) (asked s) (asked3 s) (dialogs s)
             (trace s ++ [EInterrupt]) (self_api s) (self_rate_limiter s))
  else
    (Ok tt,
     MkState (clock s + (seconds + sleep_lag E n)) (S n) (remotes s) (asked s)
             (asked3 s) (dialogs s) (trace s ++ [ESleep seconds])
             (self_api s) (self_rate_limiter s)).

(** One remote operation: consumes the next reply of the transport.  A
    request takes no time here -- the clock moves in [sleep] alone -- so
    what is proved of the clock bounds the program's time from below. *)
Definition remote (ep : Endpoint) : M (Result string) := fun s =>
  let s' := MkState (clock s) (sleeps s) (S (remotes s)) (asked s) (asked3 s)
                    (dialogs s) (trace s ++ [ERemote ep])
                    (self_api s) (self_rate_limiter s) in
  match transport E (remotes s) with
  | Raises e => (Raise e, s')
  | Responds content => (Ok content, s')
  end.

Definition messagebox_askyesno : M bool := fun s =>
  (Ok (askyesno E (asked s)),
   MkState (clock s) (sleeps s) (remotes s) (S (asked s)) (asked3 s) (dialogs s)
           (trace s ++ [EAskYesNo]) (self_api s) (self_rate_limiter s)).

Definition messagebox_askyesnocancel : M (option bool) := fun s =>
  (Ok (askyesnocancel E (asked3 s)),
   MkState (clock s) (sleeps s) (remotes s) (asked s) (S (asked3 s)) (dialogs s)
           (trace s ++ [EAskYesNoCancel]) (self_api s) (self_rate_limiter s)).

Definition get_api : M (option Api) := fun s => (Ok (self_api s), s).
Definition set_api (a : Api) : M unit := fun s =>
  (Ok tt, MkState (clock s) (sleeps s) (remotes s) (asked s) (asked3 s)
                  (dialogs s) (trace s) (Some a) (self_rate_limiter s)).
Definition get_rate_limiter : M (option RateLimiter) :=
  fun s => (Ok (self_rate_limiter s), s).
Definition set_rate_limiter (rl : RateLimiter) : M unit := fun s =>
  (Ok tt, MkState (clock s) (sleeps s) (remotes s) (asked s) (asked3 s)
                  (dialogs s) (trace s) (self_api s) (Some rl)).

(** ** rate_limiter.py *)

(** [RateLimiter._show_config_dialog]: the dialog shows [default_minutes]
    in its entry; what comes back is what the user left there
    ([float(wait_minutes.get())] raises on text that is no number). *)
Definition _show_config_dialog (title : DialogTitle) (default_minutes : Q)
  : M RateLimitConfig := fun s =>
  (config_dialog E (dialogs s) default_minutes,
   MkState (clock s) (sleeps s) (remotes s) (asked s) (asked3 s) (S (dialogs s))
           (trace s ++ [EDialog title default_minutes])
           (self_api s) (self_rate_limiter s)).

(** [RateLimiter.__init__(config=None)] *)
Definition RateLimiter_init (cfg : option RateLimitConfig) : M RateLimiter :=
  c <- match cfg with
       | Some c => ret c
       | None => _show_config_dialog TitleSettings 1.0
       end ;;
  ret (MkRateLimiter c 0).

(** [default_minutes or self.config.wait_minutes] *)
Definition or_default (default_minutes : option Q) (fallback : Q) : Q :=
  match default_minutes with
  | Some d => if Qeq_bool d 0 then fallback else d
  | None => fallback
  end.

(** [RateLimiter.update_config] *)
Definition update_config (self : RateLimiter) (cfg : option RateLimitConfig)
    (show_dialog : bool) (default_minutes : option Q) : M RateLimiter :=
  match cfg with
  | Some c => ret (MkRateLimiter c (last_call_time self))
  | None =>
      if show_dialog then
        c <- _show_config_dialog TitleUpdate
               (or_default default_minutes (wait_minutes (config self))) ;;
        ret (MkRateLimiter c (last_call_time self))
      else ret self
  end.

(** The progress loop of [wait]:
    [while remaining > 0: time.sleep(0.1); pbar.update(0.1); remaining -= 0.1].
    [remaining] is an exact rational here; the program's binary floats
    can make the loop run one step longer.
    [fuel] bounds the number of iterations; [ticks remaining] is always
    enough ([progress_loop_fuel]). *)
Fixpoint progress_loop (fuel : nat) (remaining : Q) : M unit :=
  match fuel with
  | O => ret tt
  | S fuel' =>
      if Qlt_bool 0 remaining then
        sleep 0.1 ;;
        progress_loop fuel' (remaining - 0.1)
      else ret tt
  end.

Definition ticks (remaining : Q) : nat := Z.to_nat (Qceiling (remaining * 10)).

(** [RateLimiter.wait] *)
Definition wait (self : RateLimiter) (custom_message : option WaitMsg)
  : M RateLimiter :=
  emit (EWait custom_message) ;;
  current_time <- time_time ;;
  let elapsed := current_time - last_call_time self in
  let wait_seconds := wait_minutes (config self) * 60 in
  (if Qlt_bool elapsed wait_seconds then
     let remaining := wait_seconds - elapsed in
     if show_progress (config self) then
       progress_loop (ticks remaining) remaining
     else
       sleep remaining
   else ret tt) ;;
  now <- time_time ;;
  ret (MkRateLimiter (config self) now).

(** [RateLimiter.reset_timer] *)
Definition reset_timer (self : RateLimiter) : RateLimiter :=
  MkRateLimiter (config self) 0.

(** ** The provider clients *)

(** [10 + 5 ** attempt] *)
Definition backoff (attempt : nat) : Q :=
  inject_Z (10 + 5 ^ Z.of_nat attempt).

(** [for attempt in range(max_retries)] *)
Definition range (n : nat) : list nat := seq 0 n.

(** *** gemini_api.py *)

Definition gemini_attempt (max_retries attempt : nat) : M (Ctl (option string)) :=
  try_except
    (response <- remote GenerateContent ;;
     print MsgCollecting ;;
     sleep 10 ;;
     text <- lift_result response ;;          (* return response.text *)
     ret (Return (Some text)))
    (fun e =>
       match exn_class e with
       | ServiceUnavailable =>
           Some (print (MsgRetrying attempt max_retries e) ;;
                 sleep (backoff attempt) ;;
                 ret Continue)
       | KeyboardInterrupt => None
       | _ =>
           Some (print (MsgOtherError e) ;;
                 ret (Return None))
       end).

Fixpoint gemini_attempts (max_retries : nat) (attempts : list nat)
  : M (option string) :=
  match attempts with
  | [] => print MsgAllFailed ;; ret None
  | attempt :: rest =>
      c <- gemini_attempt max_retries attempt ;;
      match c with
      | Return r => ret r
      | Continue => gemini_attempts max_retries rest
      end
  end.

(** [GeminiAPI.call_api] *)
Definition gemini_call_api (text prompt : string) (max_retries : nat)
  : M (option string) :=
  print MsgThinking ;;
  sleep 15 ;;
  gemini_attempts max_retries (range max_retries).

(** *** deepseek_api.py *)

Definition deepseek_attempt (max_retries attempt : nat) : M (Ctl (option string)) :=
  try_except
    (response <- remote ChatCreate ;;
     print MsgCollecting ;;
     sleep 10 ;;
     text <- lift_result response ;;   (* response.choices[0].message.content *)
     ret (Return (Some text)))
    (fun e =>
       if is_Exception e then
         Some (print (MsgRetrying attempt max_retries e) ;;
               sleep (backoff attempt) ;;
               ret Continue)
       else None).

Fixpoint deepseek_attempts (max_retries : nat) (attempts : list nat)
  : M (option string) :=
  match attempts with
  | [] => print MsgAllFailed ;; ret None
  | attempt :: rest =>
      c <- deepseek_attempt max_retries attempt ;;
      match c with
      | Return r => ret r
      | Continue => deepseek_attempts max_retries rest
      end
  end.

(** [DeepSeekAPI.call_api] *)
Definition deepseek_call_api (text prompt : string) (max_retries : nat)
  : M (option string) :=
  print MsgThinking ;;
  sleep 15 ;;
  deepseek_attempts max_retries (range max_retries).

(** *** kimi_api.py *)

Definition kimi_attempt (max_retries attempt : nat) : M (Ctl (option string)) :=
  try_except
    (_ <- remote PostSystem ;;          (* post; response.raise_for_status() *)
     print MsgSystemPrompt ;;
     sleep 10 ;;
     result <- remote PostUser ;;       (* post; raise_for_status(); json() *)
     print MsgCollecting ;;
     sleep 10 ;;
     text <- lift_result result ;;      (* result["choices"][0]["message"]["content"] *)
     ret (Return (Some text)))
    (fun e =>
       match exn_class e with
       | RequestException =>
           Some (print (MsgRetrying attempt max_retries e) ;;
                 sleep (backoff attempt) ;;
                 ret Continue)
       | KeyboardInterrupt => None
       | _ =>
           Some (print (MsgOtherError e) ;;
                 ret (Return None))
       end).

Fixpoint kimi_attempts (max_retries : nat) (attempts : list nat)
  : M (option string) :=
  match attempts with
  | [] => print MsgAllFailed ;; ret None
  | attempt :: rest =>
      c <- kimi_attempt max_retries attempt ;;
      match c with
      | Return r => ret r
      | Continue => kimi_attempts max_retries rest
      end
  end.

(** [KimiAPI.call_api] *)
Definition kimi_call_api (text prompt : string) (max_retries : nat)
  : M (option string) :=
  print MsgThinking ;;
  sleep 15 ;;
  kimi_attempts max_retries (range max_retries).

(** *** The [BaseAPI] interface, dispatched on the active client *)

Definition call_api (api : Api) (text prompt : string) (max_retries : nat)
  : M (option string) :=
  match api with
  | GeminiAPI _ => gemini_call_api text prompt max_retries
  | KimiAPI => kimi_call_api text prompt max_retries
  | DeepSeekAPI => deepseek_call_api text prompt max_retries
  end.

(** [format_article]: the same one-line delegation in the three clients. *)
Definition format_article (api : Api) (text title prompt_file : string)
  : M (option string) :=
  lift_result (get_prompt E title text prompt_file).

(** [format_to_md] *)
Definition format_to_md (api : Api) (analysis_result : string) : M string :=
  lift_result (format_to_markdown E analysis_result).

(** ** api_factory.py *)

(** [GeminiAPI.DEFAULT_MODEL] *)
Definition DEFAULT_MODEL : string := "gemini-2.0-flash-exp".

(** [ArticleAnalyzer.create_api]; of the keyword arguments only
    [model_name] is kept. *)
Definition create_api (model_type : string) (model_name : option string)
  : M (option Api) :=
  (if String.eqb model_type "gemini" then
     set_api (GeminiAPI (match model_name with
                         | Some n => if truthy n then n else DEFAULT_MODEL
                         | None => DEFAULT_MODEL
                         end))
   else if String.eqb model_type "kimi" then set_api KimiAPI
   else if String.eqb model_type "deepseek" then set_api DeepSeekAPI
   else ret tt) ;;
  get_api.

(** [self.api.<attr>] *)
Definition the_api (attr : string) : M Api :=
  a <- get_api ;;
  match a with
  | Some api => ret api
  | None => raise (AttributeError attr)
  end.

(** One turn of [while retry_count < max_retries] in
    [process_single_file]. *)
Definition single_file_turn (file_path prompt_file text title : string)
    (max_retries retry_count : nat) : M (Ctl (option string * option string)) :=
  try_except
    (api <- the_api "format_article" ;;
     formatted_text <- format_article api text title prompt_file ;;
     match formatted_text with
     | None => ret (Return (None, None))
     | Some formatted =>
         if negb (truthy formatted) then ret (Return (None, None))
         else
           api <- the_api "call_api" ;;
           result <- call_api api text formatted 3 ;;
           if truthy_opt result then ret (Return (Some title, result))
           else ret Continue
     end)
    (fun api_error =>
       if is_Exception api_error then
         Some (let error_msg := lower (exn_text api_error) in
               if contains "blocked prompt" error_msg then
                 ret (Return (None, None))
               else
                 (if (retry_count <? max_retries - 1)%nat then
                    let wait_time := ((retry_count + 1) * 60)%nat in
                    sleep (inject_Z (Z.of_nat wait_time))
                  else ret tt) ;;
                 ret Continue)
       else None).

Fixpoint single_file_turns (file_path prompt_file text title : string)
    (max_retries : nat) (retry_counts : list nat)
  : M (option string * option string) :=
  match retry_counts with
  | [] => ret (None, None)
  | retry_count :: rest =>
      c <- single_file_turn file_path prompt_file text title
                            max_retries retry_count ;;
      match c with
      | Return r => ret r
      | Continue =>
          single_file_turns file_path prompt_file text title max_retries rest
      end
  end.

(** [ArticleAnalyzer.process_single_file]; [retry_count] runs through
    [0, 1, 2]. *)
Definition process_single_file (file_path prompt_file : string)
  : M (option string * option string) :=
  try_except
    (emit (EOpenRead file_path) ;;
     text <- lift_result (read_text E file_path) ;;
     let title := splitext_root E (basename E file_path) in
     let max_retries := 3%nat in
     single_file_turns file_path prompt_file text title
                       max_retries (range max_retries))
    (fun e => if is_Exception e then Some (ret (None, None)) else None).

(** [ArticleAnalyzer.process_file].  Opening [save_path] for writing and
    writing to it are one step, [write_text]: [EWrite] records a write
    that went through, and a write that fails leaves no event although
    the program may have created or emptied the file by then. *)
Definition process_file (file_path prompt_file : string)
  : M (bool * option string) :=
  try_except
    (tr <- process_single_file file_path prompt_file ;;
     match tr with
     | (Some title, Some result) =>
         if negb (truthy title) || negb (truthy result) then ret (false, None)
         else
           api <- the_api "format_to_md" ;;
           md_result <- format_to_md api result ;;
           let base_name := splitext_root E (basename E file_path) in
           names <-
             match api with
             | GeminiAPI model_name =>
                 match nth_error (split_on "-" model_name) 1 with
                 | Some model_version =>
                     ret (String.append base_name
                            (String.append "_gemini"
                               (String.append model_version ".md")),
                          path_join E "book_2" "Gemini")
                 | None => raise IndexError
                 end
             | KimiAPI =>
                 ret (String.append base_name
                        (String.append "_" (String.append (lower "Kimi") ".md")),
                      path_join E "book_2" "Kimi")
             | DeepSeekAPI =>
                 ret (String.append base_name
                        (String.append "_"
                           (String.append (lower "DeepSeek") ".md")),
                      path_join E "book_2" "DeepSeek")
             end ;;
           let save_name := fst names in
           let model_dir := snd names in
           lift_result (makedirs E model_dir) ;;
           emit (EMakedirs model_dir) ;;
           let save_path := path_join E model_dir save_name in
           lift_result (write_text E save_path md_result) ;;
           emit (EWrite save_path md_result) ;;
           ret (true, Some save_path)
     | _ => ret (false, None)
     end)
    (fun e => if is_Exception e then Some (ret (false, None)) else None).

(** [self.rate_limiter.wait(message)] *)
Definition rate_limiter_wait (message : WaitMsg) : M unit :=
  r <- get_rate_limiter ;;
  match r with
  | Some rl => rl' <- wait rl (Some message) ;; set_rate_limiter rl'
  | None => raise (AttributeError "wait")
  end.

(** [self.rate_limiter.last_call_time = time.time()] *)
Definition stamp_last_call_time : M unit :=
  now <- time_time ;;
  r <- get_rate_limiter ;;
  match r with
  | Some rl => set_rate_limiter (MkRateLimiter (config rl) now)
  | None => raise (AttributeError "last_call_time")
  end.

(** The locals the main loop updates. *)
Record Pass := MkPass {
  failed_tasks : list string;
  consecutive_failures : nat
}.

Inductive Step :=
| Next (p : Pass)      (* fall through to the next file *)
| Break (p : Pass).    (* break *)

(** Lines 219-226 of the loop body: wait unless this is the first file.
    [false] stands for the [break] of the [except KeyboardInterrupt]
    clause. *)
Definition pace (i : nat) (current_file : string) : M bool :=
  if (0 <? i)%nat then
    try_except
      (rate_limiter_wait (WaitProcess current_file) ;; ret true)
      (fun e => match exn_class e with
                | KeyboardInterrupt => Some (ret false)
                | _ => None
                end)
  else ret true.

(** Lines 230-248: process the file and keep the books. *)
Definition handle_job (prompt_file file_path : string) (p : Pass) : M Step :=
  r <- process_file file_path prompt_file ;;
  let success := fst r in
  if negb success then
    let failed := failed_tasks p ++ [file_path] in
    let failures := (consecutive_failures p + 1)%nat in
    if (3 <=? failures)%nat then
      yes <- messagebox_askyesno ;;
      if negb yes then ret (Break (MkPass failed failures))
      else ret (Next (MkPass failed 0))
    else ret (Next (MkPass failed failures))
  else
    stamp_last_call_time ;;
    ret (Next (MkPass (failed_tasks p) 0)).

(** Body of [for i, file_path in enumerate(file_paths)] in
    [process_files]. *)
Definition process_files_body (prompt_file : string) (i : nat)
    (file_path : string) (p : Pass) : M Step :=
  let current_file := basename E file_path in
  go_on <- pace i current_file ;;
  if negb go_on then ret (Break p)
  else handle_job prompt_file file_path p.

Fixpoint process_files_loop (prompt_file : string) (i : nat)
    (file_paths : list string) (p : Pass) : M Pass :=
  match file_paths with
  | [] => ret p
  | file_path :: rest =>
      st <- process_files_body prompt_file i file_path p ;;
      match st with
      | Next p' => process_files_loop prompt_file (S i) rest p'
      | Break p' => ret p'
      end
  end.

(** Body and loop of [retry_failed_tasks]. *)
Definition retry_body (prompt_file : string) (i : nat) (file_path : string)
  : M unit :=
  let file_name := basename E file_path in
  (if (0 <? i)%nat then rate_limiter_wait (WaitRetry file_name) else ret tt) ;;
  _ <- process_file file_path prompt_file ;;
  ret tt.

Fixpoint retry_loop (prompt_file : string) (i : nat) (todo : list string)
  : M unit :=
  match todo with
  | [] => ret tt
  | file_path :: rest =>
      retry_body prompt_file i file_path ;;
      retry_loop prompt_file (S i) rest
  end.

(** [ArticleAnalyzer.retry_failed_tasks].  The method iterates over the
    list it is given and has no statement that changes it; the result is
    the content of that list object when the method returns. *)
Definition retry_failed_tasks (failed : list string) (prompt_file : string)
  : M (list string) :=
  retry_loop prompt_file 0 failed ;;
  ret failed.

(** [self.rate_limiter.update_config(default_minutes=
      self.rate_limiter.config.wait_minutes * 2)] *)
Definition lengthen_wait : M unit :=
  r <- get_rate_limiter ;;
  match r with
  | Some rl =>
      rl' <- update_config rl None true
               (Some (wait_minutes (config rl) * 2)) ;;
      set_rate_limiter rl'
  | None => raise (AttributeError "update_config")
  end.

(** The block [if failed_tasks: ...] that ends [process_files]. *)
Definition offer_retry (failed : list string) (prompt_file : string) : M unit :=
  match failed with
  | [] => ret tt
  | _ :: _ =>
      choice <- messagebox_askyesnocancel ;;
      match choice with
      | None => ret tt
      | Some yes =>
          (if negb yes then lengthen_wait else ret tt) ;;
          _ <- retry_failed_tasks failed prompt_file ;;
          ret tt
      end
  end.

(** [ArticleAnalyzer.process_files] *)
Definition process_files (file_paths : list string) (prompt_file : string)
  : M unit :=
  a <- get_api ;;
  match a with
  | None => ret tt
  | Some _ =>
      r <- get_rate_limiter ;;
      (match r with
       | None => rl <- RateLimiter_init None ;; set_rate_limiter rl
       | Some _ => ret tt
       end) ;;
      r <- get_rate_limiter ;;
      (match r with
       | Some rl => set_rate_limiter (reset_timer rl)
       | None => raise (AttributeError "reset_timer")
       end) ;;
      p <- process_files_loop prompt_file 0 file_paths (MkPass [] 0) ;;
      offer_retry (failed_tasks p) prompt_file
  end.

End Program.

(** ** Observations on traces *)

(** Events of the lower layers: sleeping, remote calls, console output,
    writing a result. *)
Definition is_internal (ev : Event) : bool :=
  match ev with
  | ESleep _ | EInterrupt | ERemote _ | EPrint _ | EMakedirs _ | EWrite _ _ => true
  | _ => false
  end.

(** The pacing of a pass: waits and the opening of job files. *)
Definition is_sched (ev : Event) : bool :=
  match ev with
  | EWait _ | EOpenRead _ => true
  | _ => false
  end.

Definition is_prompt (ev : Event) : bool :=
  match ev with
  | EAskYesNo | EAskYesNoCancel | EDialog _ _ => true
  | _ => false
  end.

Definition is_sleep (ev : Event) : bool :=
  match ev with ESleep _ => true | _ => false end.

(** Every iteration of a [call_api] loop starts with one remote call;
    the Kimi client makes a second one ([PostUser]) inside the attempt. *)
Definition is_attempt (ev : Event) : bool :=
  match ev with
  | ERemote PostUser => false
  | ERemote _ => true
  | _ => false
  end.

Definition remote_attempts (tr : list Event) : nat :=
  List.length (filter is_attempt tr).

Definition is_prefix {A} (l1 l2 : list A) : Prop := exists l3, l2 = l1 ++ l3.

(** The endpoint an attempt of each client starts with. *)
Definition first_endpoint (api : Api) : Endpoint :=
  match api with
  | GeminiAPI _ => GenerateContent
  | KimiAPI => PostSystem
  | DeepSeekAPI => ChatCreate
  end.

(** The exceptions each client's [except] clauses answer with a backoff
    and another attempt ... *)
Definition retried_by (api : Api) (e : exn) : bool :=
  match api, exn_class e with
  | GeminiAPI _, ServiceUnavailable => true
  | KimiAPI, RequestException => true
  | DeepSeekAPI, (ServiceUnavailable | RequestException | OtherException) => true
  | _, _ => false
  end.

(** ... and those they answer by giving up at once. *)
Definition aborted_by (api : Api) (e : exn) : bool :=
  match api, exn_class e with
  | GeminiAPI _, (RequestException | OtherException) => true
  | KimiAPI, (ServiceUnavailable | OtherException) => true
  | _, _ => false
  end.

(** What a failed, retried attempt leaves in the trace. *)
Definition failed_attempt (api : Api) (max_retries attempt : nat) (e : exn)
  : list Event :=
  [ERemote (first_endpoint api);
   EPrint (MsgRetrying attempt max_retries e);
   ESleep (backoff attempt)].

(** What a successful attempt leaves in the trace. *)
Definition successful_attempt (api : Api) : list Event :=
  match api with
  | KimiAPI =>
      [ERemote PostSystem; EPrint MsgSystemPrompt; ESleep 10;
       ERemote PostUser; EPrint MsgCollecting; ESleep 10]
  | _ => [ERemote (first_endpoint api); EPrint MsgCollecting; ESleep 10]
  end.

(** The trace of a [call_api] that runs out of attempts, the [n]-th remote
    call of the run having raised [err n]. *)
Definition exhausted_run (api : Api) (max_retries : nat) (err : nat -> exn)
  : list Event :=
  [EPrint MsgThinking; ESleep 15]
  ++ flat_map (fun i => failed_attempt api max_retries i (err i))
              (range max_retries)
  ++ [EPrint MsgAllFailed].

(** Everything above the lower layers: waits, file openings, prompts. *)
Definition job_events (tr : list Event) : list Event :=
  filter (fun ev => negb (is_internal ev)) tr.

(** A wait and then the file, for each job. *)
Definition waits_then_opens (msg : string -> WaitMsg) (jobs : list string)
  : list Event :=
  flat_map (fun j => [EWait (Some (msg j)); EOpenRead j]) jobs.

(** The waits and file openings of a pass that runs to its end. *)
Definition schedule (msg : string -> WaitMsg) (jobs : list string)
  : list Event :=
  match jobs with
  | [] => []
  | first :: others => EOpenRead first :: waits_then_opens msg others
  end.

(** A sequence of waits and openings is paced when it does not start
    with a wait and every opening but the first comes right after the
    wait for that very job. *)
Definition paced (msg : string -> WaitMsg) (l : list Event) : Prop :=
  (forall m rest, l <> EWait m :: rest) /\
  (forall pre j post, l = pre ++ EOpenRead j :: post ->
     pre = [] \/ exists pre', pre = pre' ++ [EWait (Some (msg j))]).

(** One iteration, and the loop, of the active client's [call_api]. *)
Definition attempt_of (E : Env) (api : Api) :=
  match api with
  | GeminiAPI _ => gemini_attempt E
  | KimiAPI => kimi_attempt E
  | DeepSeekAPI => deepseek_attempt E
  end.

Definition attempts_of (E : Env) (api : Api) :=
  match api with
  | GeminiAPI _ => gemini_attempts E
  | KimiAPI => kimi_attempts E
  | DeepSeekAPI => deepseek_attempts E
  end.

(** Remote calls a successful attempt consumes. *)
Definition calls_of_success (api : Api) : nat :=
  match api with KimiAPI => 2 | _ => 1 end.

(** [s'] is [s] after the events [new] and [calls] remote calls; the
    analyser object and the dialog cursors are untouched. *)
Definition advances (s s' : State) (new : list Event) (calls : nat) : Prop :=
  trace s' = trace s ++ new /\
  remotes s' = (remotes s + calls)%nat /\
  self_api s' = self_api s /\
  self_rate_limiter s' = self_rate_limiter s /\
  asked s' = asked s /\ asked3 s' = asked3 s /\ dialogs s' = dialogs s.

(** [m] appends the events [pre] and then only events of the lower
    layers, whatever the state it starts in and however it ends. *)
Definition emits {A} (pre : list Event) (m : M A) : Prop :=
  forall s, exists new,
    trace (snd (m s)) = trace s ++ pre ++ new /\
    forallb is_internal new = true.

Definition silent {A} (m : M A) : Prop := emits [] m.

(** ** A scripted environment for concrete runs

    Files sit in the working directory and carry no extension, every
    file can be read and written, the prompt template is prepended to the
    title, and sleeps are exact. *)
Definition mock_env (replies : nat -> Reply) (ctrl_c : nat -> bool)
    (yes : nat -> bool) (choice : nat -> option bool)
    (dialog : nat -> Q -> Result RateLimitConfig) : Env :=
  MkEnv (fun _ => 0) ctrl_c replies
        (fun p => Ok (String.append "text of " p))
        (fun _ => Ok tt) (fun _ _ => Ok tt)
        (fun p => p) (fun p => p)
        (fun a b => String.append a (String.append "/" b))
        (fun title text prompt_file => Ok (Some (String.append prompt_file title)))
        (fun r => Ok r)
        yes choice dialog.

(** A user who confirms every dialog as it is offered. *)
Definition accept_default (n : nat) (default_minutes : Q) : Result RateLimitConfig :=
  Ok (MkConfig default_minutes true).

Definition start (now : Q) (api : option Api) (rl : option RateLimiter) : State :=
  MkState now 0 0 0 0 0 [] api rl.

Definition content_policy : exn := MkExn OtherException "blocked by content policy".
Definition unavailable : exn := MkExn ServiceUnavailable "503 service unavailable".
Definition timed_out : exn := MkExn RequestException "read timed out".

(** What the rest of a pass is due to show, seen from its [i]-th turn. *)
Definition due (msg : string -> WaitMsg) (i : nat) (jobs : list string)
  : list Event :=
  if (0 <? i)%nat then waits_then_opens msg jobs else schedule msg jobs.

(** The wait a turn of the main pass shows. *)
Definition shown_wait (msg : WaitMsg) (i : nat) : list Event :=
  if (0 <? i)%nat then [EWait (Some msg)] else [].

(** ** Scenarios *)

Definition gemini : Api := GeminiAPI "gemini-1.5-pro".

Definition always (r : Reply) : nat -> Reply := fun _ => r.
Definition never : nat -> bool := fun _ => false.
Definition at_sleep (n : nat) : nat -> bool := fun k => Nat.eqb k n.

(** Nobody presses Ctrl-C; the user continues after three failures and
    declines the retry pass. *)
Definition quiet_env (replies : nat -> Reply) : Env :=
  mock_env replies never (fun _ => true) (fun _ => None) accept_default.

(** Two refusals for lack of capacity, then an answer. *)
Definition recovering (n : nat) : Reply :=
  if (n <? 2)%nat then Raises unavailable else Responds (Ok "analysis"%string).

(** The batch of the specification: job 1 and job 5 succeed at once,
    jobs 2 and 4 after one transient failure, job 3 is rejected every
    time. *)
Definition five_jobs (n : nat) : Reply :=
  match n with
  | 0 => Responds (Ok "one"%string)
  | 1 => Raises unavailable
  | 2 => Responds (Ok "two"%string)
  | 6 => Raises unavailable
  | 7 => Responds (Ok "four"%string)
  | 8 => Responds (Ok "five"%string)
  | _ => Raises content_policy
  end%nat.

(** The user stops after three failures in a row. *)
Definition halting_env : Env :=
  mock_env (always (Raises content_policy)) never (fun _ => false)
           (fun _ => None) accept_default.

(** Ctrl-C during the [n]-th sleep; the user retries at once. *)
Definition interrupted_env (n : nat) : Env :=
  mock_env (always (Raises content_policy)) (at_sleep n) (fun _ => true)
           (fun _ => Some true) accept_default.

(** The user asks for a longer wait and then types half a minute into
    the dialog. *)
Definition half_minute_env : Env :=
  mock_env (always (Raises content_policy)) never (fun _ => true)
           (fun _ => Some false) (fun _ _ => Ok (MkConfig 0.5 true)).

(** As above, but the user confirms what the dialog offers. *)
Definition longer_wait_env : Env :=
  mock_env (always (Raises content_policy)) never (fun _ => true)
           (fun _ => Some false) accept_default.

Definition limiter (minutes : Q) (progress : bool) : RateLimiter :=
  MkRateLimiter (MkConfig minutes progress) 0.

Definition third_failure : State :=
  start 1000 (Some gemini) (Some (limiter 1 false)).

(** Transient failures that are no [ServiceUnavailable]: a rate-limit
    signal and a timeout, as the SDK of the Gemini client raises them
    ([ResourceExhausted], [DeadlineExceeded]). *)
Definition rate_limited : exn :=
  MkExn OtherException "429 resource exhausted: rate limit exceeded".
Definition deadline_exceeded : exn :=
  MkExn OtherException "504 deadline exceeded".

(** One failure, then a service that answers. *)
Definition failing_once (e : exn) (n : nat) : Reply :=
  match n with
  | O => Raises e
  | S _ => Responds (Ok "analysis"%string)
  end.

(** ** Invariants of the lower layers *)

(** [m] extends the trace, and the state it leaves is related by [R] to
    the state it starts in and the events it added, however it ends. *)
Definition steps (R : State -> list Event -> State -> Prop) {A} (m : M A)
  : Prop :=
  forall s, exists new,
    trace (snd (m s)) = trace s ++ new /\ R s new (snd (m s)).

(** The analyser object and the prompt cursors are left alone. *)
Definition untouched (s : State) (new : list Event) (s' : State) : Prop :=
  self_rate_limiter s' = self_rate_limiter s /\
  self_api s' = self_api s /\
  asked s' = asked s /\ asked3 s' = asked3 s /\ dialogs s' = dialogs s.

(** Seconds asked of [time.sleep] in a stretch of trace. *)
Fixpoint slept (tr : list Event) : Q :=
  match tr with
  | [] => 0
  | ESleep d :: tr' => d + slept tr'
  | _ :: tr' => slept tr'
  end.

(** The clock has moved by what was slept, or more. *)
Definition no_sooner (s : State) (new : list Event) (s' : State) : Prop :=
  clock s + slept new <= clock s'.

Definition is_remote (ev : Event) : bool :=
  match ev with ERemote _ => true | _ => false end.

(** Nothing is written and no directory made. *)
Definition is_disk (ev : Event) : bool :=
  match ev with EWrite _ _ | EMakedirs _ => true | _ => false end.

Definition off_disk (s : State) (new : list Event) (s' : State) : Prop :=
  filter is_disk new = [].

(** The files opened for reading, in order. *)
Fixpoint opened (tr : list Event) : list string :=
  match tr with
  | [] => []
  | EOpenRead p :: tr' => p :: opened tr'
  | _ :: tr' => opened tr'
  end.

(** [m] lets no [Exception] out: what it raises is a [BaseException]
    such as [KeyboardInterrupt]. *)
Definition contains_errors {A} (m : M A) : Prop :=
  forall s e, fst (m s) = Raise e -> is_Exception e = false.

(** [l1] is [l2] with some elements left out. *)
Inductive subseq {A : Type} : list A -> list A -> Prop :=
| subseq_nil : subseq [] []
| subseq_skip x l1 l2 : subseq l1 l2 -> subseq l1 (x :: l2)
| subseq_take x l1 l2 : subseq l1 l2 -> subseq (x :: l1) (x :: l2).

Definition asks (tr : list Event) : nat :=
  List.length (filter (fun ev => match ev with EAskYesNo => true | _ => false end) tr).

Definition retry_offers (tr : list Event) : nat :=
  List.length (filter (fun ev => match ev with EAskYesNoCancel => true | _ => false end) tr).

(** ** Where a result is saved *)

(** Directory and file name [process_file] builds for a client, [None]
    where [model_name.split('-')[1]] does not exist. *)
Definition save_place (E : Env) (api : Api) (file_path : string)
  : option (string * string) :=
  let base_name := splitext_root E (basename E file_path) in
  match api with
  | GeminiAPI model_name =>
      match nth_error (split_on "-" model_name) 1 with
      | Some model_version =>
          Some (path_join E "book_2" "Gemini",
                String.append base_name
                  (String.append "_gemini" (String.append model_version ".md")))
      | None => None
      end
  | KimiAPI =>
      Some (path_join E "book_2" "Kimi", String.append base_name "_kimi.md")
  | DeepSeekAPI =>
      Some (path_join E "book_2" "DeepSeek",
            String.append base_name "_deepseek.md")
  end.

Definition save_path (E : Env) (api : Api) (file_path : string) : option string :=
  match save_place E api file_path with
  | Some (dir, name) => Some (path_join E dir name)
  | None => None
  end.

(** ** Counting in traces *)

(** [m] adds at most [n] events that satisfy [f]. *)
Definition costs (f : Event -> bool) (n : nat) {A} (m : M A) : Prop :=
  forall s, exists new,
    trace (snd (m s)) = trace s ++ new /\ (List.length (filter f new) <= n)%nat.

Definition weight (f : Event -> bool) (ev : Event) : nat :=
  if f ev then 1 else 0.

(** What one attempt of a client can add. *)
Definition attempt_cost (f : Event -> bool) (api : Api) : nat :=
  match api with
  | GeminiAPI _ => weight f (ERemote GenerateContent)
  | KimiAPI => weight f (ERemote PostSystem) + weight f (ERemote PostUser)
  | DeepSeekAPI => weight f (ERemote ChatCreate)
  end.

(** A Kimi attempt whose second request fails. *)
Definition kimi_second_fails (max_retries attempt : nat) (e : exn) : list Event :=
  [ERemote PostSystem; EPrint MsgSystemPrompt; ESleep 10;
   ERemote PostUser; EPrint (MsgRetrying attempt max_retries e);
   ESleep (backoff attempt)].

(** [sum(10 + 5 ** attempt for attempt in range(n))] *)
Definition total_backoff (n : nat) : Q :=
  fold_right Qplus 0 (map backoff (range n)).

(** [except Exception: return False, None] *)
Definition on_exception (e : exn) (s : State) : Result (bool * option string) * State :=
  if is_Exception e then (Ok (false, None), s) else (Raise e, s).

(** What [process_file] does once [process_single_file] has handed it a
    title and a result, both non-empty, in state [s]. *)
Definition save_result (E : Env) (file_path result : string) (s : State)
  : Result (bool * option string) * State :=
  match self_api s with
  | None => (Ok (false, None), s)
  | Some api =>
      match format_to_markdown E result with
      | Raise e => on_exception e s
      | Ok md =>
          match save_place E api file_path with
          | None => (Ok (false, None), s)
          | Some (dir, name) =>
              match makedirs E dir with
              | Raise e => on_exception e s
              | Ok _ =>
                  let s1 := log (EMakedirs dir) s in
                  match write_text E (path_join E dir name) md with
                  | Raise e => on_exception e s1
                  | Ok _ =>
                      (Ok (true, Some (path_join E dir name)),
                       log (EWrite (path_join E dir name) md) s1)
                  end
              end
          end
      end
  end.

(** The shapes [process_file] returns. *)
Definition well_formed (r : bool * option string) : Prop :=
  r = (false, None) \/ exists path, r = (true, Some path).

(** The lines of [process_files] between the check of [self.api] and the
    loop: make the limiter if there is none, set its timer back. *)
Definition prepare_limiter (E : Env) : M unit :=
  r <- get_rate_limiter ;;
  (match r with
   | None => rl <- RateLimiter_init E None ;; set_rate_limiter rl
   | Some _ => ret tt
   end) ;;
  r <- get_rate_limiter ;;
  (match r with
   | Some rl => set_rate_limiter (reset_timer rl)
   | None => raise (AttributeError "reset_timer")
   end).

(** ** More scenarios *)

(** As [mock_env], with a file system and a prompt builder of one's own;
    nobody presses Ctrl-C and every dialog is confirmed. *)
Definition scripted_env (replies : nat -> Reply)
    (read : string -> Result string)
    (prompt : string -> string -> string -> Result (option string)) : Env :=
  MkEnv (fun _ => 0) never replies read
        (fun _ => Ok tt) (fun _ _ => Ok tt)
        (fun p => p) (fun p => p)
        (fun a b => String.append a (String.append "/" b))
        prompt (fun r => Ok r)
        (fun _ => true) (fun _ => None) accept_default.

Definition readable (p : string) : Result string :=
  Ok (String.append "text of " p).

Definition plain_prompt (title text prompt_file : string)
  : Result (option string) :=
  Ok (Some (String.append prompt_file title)).

Definition missing_file : exn :=
  MkExn OtherException "[Errno 2] No such file or directory".
Definition prompt_refused : exn :=
  MkExn OtherException "Blocked Prompt: the template is not allowed".
Definition template_missing : exn :=
  MkExn OtherException "prompt template not found".
Definition blocked_answer : exn :=
  MkExn OtherException "the response has no valid part".
Definition not_a_number : exn :=
  MkExn OtherException "could not convert string to float".

(** The first request of a Kimi attempt is accepted, the second times
    out. *)
Definition second_times_out (n : nat) : Reply :=
  if Nat.even n then Responds (Ok "accepted"%string) else Raises timed_out.

(** The user asks for a longer wait and leaves no number in the dialog. *)
Definition mistyped_env : Env :=
  mock_env (always (Raises content_policy)) never (fun _ => true)
           (fun _ => Some false) (fun _ _ => Raise not_a_number).

Definition answering : Env := quiet_env (always (Responds (Ok "analysis"%string))).
Definition refusing : Env := quiet_env (always (Raises content_policy)).

(** ** The models on offer *)

(** [ArticleAnalyzer.list_available_models] *)
Definition list_available_models : list string :=
  ["gemini"; "kimi"; "deepseek"]%string.

(** [GEMINI_MODELS] of [ModelSelector.select_gemini_model], the values of
    its radio buttons. *)
Definition GEMINI_MODELS : list string :=
  ["gemini-2.0-flash-exp"; "gemini-exp-1206";
   "gemini-2.0-flash-thinking-exp-1219"; "gemini-1.5-pro";
   "gemini-1.5-flash"; "gemini-1.5-flash-8b"]%string.

(** ** A run that nobody cuts short *)

(** Nobody presses Ctrl-C: no sleep is interrupted, and what the
    services, the file system and the prompt module raise are
    [Exception]s. *)
Definition undisturbed (E : Env) : Prop :=
  (forall n, interrupt E n = false) /\
  (forall n e, transport E n = Raises e -> is_Exception e = true) /\
  (forall n e, transport E n = Responds (Raise e) -> is_Exception e = true) /\
  (forall p e, read_text E p = Raise e -> is_Exception e = true) /\
  (forall d e, makedirs E d = Raise e -> is_Exception e = true) /\
  (forall p c e, write_text E p c = Raise e -> is_Exception e = true) /\
  (forall t x f e, get_prompt E t x f = Raise e -> is_Exception e = true) /\
  (forall r e, format_to_markdown E r = Raise e -> is_Exception e = true).

(** What [m] raises is an [Exception], and what it returns satisfies
    [P]. *)
Definition polite {A} (P : A -> Prop) (m : M A) : Prop :=
  forall s, match fst (m s) with
            | Ok a => P a
            | Raise e => is_Exception e = true
            end.

Definition any {A} (a : A) : Prop := True.

(** A response whose text, if it cannot be read, fails with an
    [Exception]. *)
Definition well_behaved {A} (r : Result A) : Prop :=
  forall e, r = Raise e -> is_Exception e = true.

(** The analyser has its rate limiter. *)
Definition has_limiter (s : State) : Prop := self_rate_limiter s <> None.

(** * Proofs *)

Unset Implicit Arguments.

Lemma Qlt_bool_true x y : Qlt_bool x y = true <-> x < y.
Proof.
  unfold Qlt_bool. rewrite negb_true_iff. split; intro H.
  - apply Qnot_le_lt. intro L. apply Qle_bool_iff in L. congruence.
  - destruct (Qle_bool y x) eqn:B; [|reflexivity].
    apply Qle_bool_iff in B. lra.
Qed.

Lemma Qlt_bool_false x y : Qlt_bool x y = false <-> y <= x.
Proof.
  unfold Qlt_bool. rewrite negb_false_iff. apply Qle_bool_iff.
Qed.

Lemma bind_ok {A B} (m : M A) (k : A -> M B) s a s1 :
  m s = (Ok a, s1) -> bind m k s = k a s1.
Proof. unfold bind. intros ->. reflexivity. Qed.

Lemma bind_raise {A B} (m : M A) (k : A -> M B) s e s1 :
  m s = (Raise e, s1) -> bind m k s = (Raise e, s1).
Proof. unfold bind. intros ->. reflexivity. Qed.

Section RateLimiterFacts.

Variable E : Env.
Hypothesis lag_nonneg : forall n, 0 <= sleep_lag E n.

Lemma sleep_clock seconds s :
  clock (snd (sleep E seconds s)) == clock s \/
  (fst (sleep E seconds s) = Ok tt /\ clock s + seconds <= clock (snd (sleep E seconds s))).
Proof.
  unfold sleep. destruct (interrupt E (sleeps s)); simpl.
  - left. reflexivity.
  - right. split; [reflexivity|]. specialize (lag_nonneg (sleeps s)). lra.
Qed.

Lemma sleep_ok_clock seconds s s1 :
  sleep E seconds s = (Ok tt, s1) -> clock s + seconds <= clock s1.
Proof.
  unfold sleep. destruct (interrupt E (sleeps s)); intro H; inversion H; subst; simpl.
  specialize (lag_nonneg (sleeps s)). lra.
Qed.

Lemma progress_loop_clock fuel : forall remaining s s1,
  progress_loop E fuel remaining s = (Ok tt, s1) ->
  remaining * 10 <= inject_Z (Z.of_nat fuel) ->
  clock s + remaining <= clock s1 /\ clock s <= clock s1.
Proof.
  induction fuel as [|fuel IH]; intros remaining s s1 H Hf.
  - simpl in H. inversion H; subst. change (inject_Z (Z.of_nat 0)) with 0 in Hf.
    lra.
  - simpl in H. destruct (Qlt_bool 0 remaining) eqn:G.
    + unfold bind in H.
      destruct (sleep E 0.1 s) as [[[]|e] s0] eqn:Hs; [|discriminate].
      apply sleep_ok_clock in Hs.
      apply IH in H.
      * lra.
      * rewrite Nat2Z.inj_succ in Hf. unfold Z.succ in Hf.
        rewrite inject_Z_plus in Hf. change (inject_Z 1) with 1 in Hf. lra.
    + inversion H; subst. apply Qlt_bool_false in G. lra.
Qed.

Lemma ticks_enough remaining : remaining * 10 <= inject_Z (Z.of_nat (ticks remaining)).
Proof.
  unfold ticks.
  pose proof (Qle_ceiling (remaining * 10)) as H.
  destruct (Z_le_gt_dec 0 (Qceiling (remaining * 10))) as [P|N].
  - rewrite Z2Nat.id by exact P. exact H.
  - replace (Z.to_nat (Qceiling (remaining * 10))) with 0%nat by lia. simpl.
    assert (inject_Z (Qceiling (remaining * 10)) <= 0).
    { change 0 with (inject_Z 0). rewrite <- Zle_Qle. lia. }
    change (inject_Z 0) with 0. lra.
Qed.

End RateLimiterFacts.

(** More fuel than [ticks] never changes what the progress loop does. *)
Lemma progress_loop_fuel E fuel : forall remaining s,
  remaining * 10 <= inject_Z (Z.of_nat fuel) ->
  progress_loop E (S fuel) remaining s = progress_loop E fuel remaining s.
Proof.
  induction fuel as [|fuel IH]; intros remaining s Hf.
  - change (inject_Z (Z.of_nat 0)) with 0 in Hf. simpl.
    destruct (Qlt_bool 0 remaining) eqn:G; [|reflexivity].
    apply Qlt_bool_true in G. lra.
  - change (progress_loop E (S (S fuel)) remaining s)
      with ((if Qlt_bool 0 remaining
             then sleep E 0.1 ;; progress_loop E (S fuel) (remaining - 0.1)
             else ret tt) s).
    change (progress_loop E (S fuel) remaining s)
      with ((if Qlt_bool 0 remaining
             then sleep E 0.1 ;; progress_loop E fuel (remaining - 0.1)
             else ret tt) s).
    destruct (Qlt_bool 0 remaining) eqn:G; [|reflexivity].
    unfold bind. destruct (sleep E 0.1 s) as [[[]|e] s0]; [|reflexivity].
    apply IH. rewrite Nat2Z.inj_succ in Hf. unfold Z.succ in Hf.
    rewrite inject_Z_plus in Hf. change (inject_Z 1) with 1 in Hf. lra.
Qed.

(** The fuel [wait] hands to the loop is therefore enough: any more of it
    leaves the loop as it is. *)
Lemma progress_loop_stable E remaining n s :
  progress_loop E (ticks remaining + n) remaining s
  = progress_loop E (ticks remaining) remaining s.
Proof.
  induction n as [|n IH]; [rewrite Nat.add_0_r; reflexivity|].
  rewrite Nat.add_succ_r, progress_loop_fuel; [exact IH|].
  eapply Qle_trans; [apply ticks_enough|].
  rewrite <- Zle_Qle. lia.
Qed.

Section Pacing.

Variable E : Env.

Lemma wait_unfold rl msg s :
  wait E rl msg s =
  let s0 := log (EWait msg) s in
  let elapsed := clock s - last_call_time rl in
  let wait_seconds := wait_minutes (config rl) * 60 in
  match (if Qlt_bool elapsed wait_seconds then
           if show_progress (config rl)
           then progress_loop E (ticks (wait_seconds - elapsed)) (wait_seconds - elapsed)
           else sleep E (wait_seconds - elapsed)
         else ret tt) s0 with
  | (Ok _, s1) => (Ok (MkRateLimiter (config rl) (clock s1)), s1)
  | (Raise e, s1) => (Raise e, s1)
  end.
Proof. reflexivity. Qed.

Lemma wait_immediate rl msg s :
  wait_minutes (config rl) * 60 <= clock s - last_call_time rl ->
  wait E rl msg s = (Ok (MkRateLimiter (config rl) (clock s)), log (EWait msg) s).
Proof.
  intro H. rewrite wait_unfold. cbv zeta.
  apply Qlt_bool_false in H. rewrite H. reflexivity.
Qed.

Lemma progress_loop_returns fuel : forall remaining s,
  (forall n, interrupt E n = false) ->
  exists s1, progress_loop E fuel remaining s = (Ok tt, s1).
Proof.
  induction fuel as [|fuel IH]; intros remaining s Hq; simpl.
  - eexists; reflexivity.
  - destruct (Qlt_bool 0 remaining); [|eexists; reflexivity].
    unfold bind, sleep. rewrite Hq. apply IH, Hq.
Qed.

Lemma wait_returns rl msg s :
  (forall n, interrupt E n = false) ->
  exists rl1 s1, wait E rl msg s = (Ok rl1, s1).
Proof.
  intro Hq. rewrite wait_unfold. cbv zeta.
  destruct (Qlt_bool _ _).
  - destruct (show_progress (config rl)).
    + destruct (progress_loop_returns (ticks (wait_minutes (config rl) * 60 - (clock s - last_call_time rl)))
                  (wait_minutes (config rl) * 60 - (clock s - last_call_time rl))
                  (log (EWait msg) s) Hq) as [s1 ->].
      eauto.
    + unfold sleep. rewrite Hq. eauto.
  - simpl. eauto.
Qed.

Hypothesis lag_nonneg : forall n, 0 <= sleep_lag E n.

Lemma wait_inv rl msg s rl1 s1 :
  wait E rl msg s = (Ok rl1, s1) ->
  rl1 = MkRateLimiter (config rl) (clock s1) /\
  last_call_time rl + wait_minutes (config rl) * 60 <= clock s1 /\
  clock s <= clock s1.
Proof.
  rewrite wait_unfold. cbv zeta.
  destruct (Qlt_bool _ _) eqn:G.
  - apply Qlt_bool_true in G.
    destruct (show_progress (config rl)).
    + destruct (progress_loop E _ _ _) as [[[]|e] s2] eqn:L; [|discriminate].
      intro H; inversion H; subst. split; [reflexivity|].
      apply (progress_loop_clock E lag_nonneg) in L; [|apply ticks_enough].
      simpl in L. lra.
    + destruct (sleep E _ _) as [[[]|e] s2] eqn:L; [|discriminate].
      intro H; inversion H; subst. split; [reflexivity|].
      apply (sleep_ok_clock E lag_nonneg) in L. simpl in L. lra.
  - apply Qlt_bool_false in G. simpl.
    intro H; inversion H; subst. split; [reflexivity|]. simpl. lra.
Qed.

(** C1.  [wait] returns -- and it does return whenever no Ctrl-C arrives --
    only once at least [wait_minutes * 60] seconds have passed since
    [last_call_time]; when that much time has passed already it returns at
    once, having slept not at all; on return [last_call_time] is the
    current time and the configuration is as before.  Hence a second
    [wait] under the same configuration, before which the timer was not
    set back, returns no earlier than [wait_minutes * 60] seconds after the
    first one returned.  Sleeps may last longer than asked, never
    shorter. *)
Theorem wait_enforces_interval (rl : RateLimiter) (msg : option WaitMsg) (s : State) :
  let m := wait_minutes (config rl) in
  ((forall n, interrupt E n = false) ->
   exists rl1 s1, wait E rl msg s = (Ok rl1, s1)) /\
  (m * 60 <= clock s - last_call_time rl ->
   wait E rl msg s = (Ok (MkRateLimiter (config rl) (clock s)), log (EWait msg) s)) /\
  forall rl1 s1, wait E rl msg s = (Ok rl1, s1) ->
    last_call_time rl + m * 60 <= clock s1 /\
    last_call_time rl1 = clock s1 /\
    config rl1 = config rl /\
    forall rl2 msg2 s2 rl3 s3,
      config rl2 = config rl1 ->
      last_call_time rl1 <= last_call_time rl2 ->
      wait E rl2 msg2 s2 = (Ok rl3, s3) ->
      clock s1 + m * 60 <= clock s3.
Proof.
  intro m. split; [apply wait_returns|]. split; [apply wait_immediate|].
  intros rl1 s1 H. apply wait_inv in H. destruct H as (-> & H1 & H2).
  split; [exact H1|]. split; [reflexivity|]. split; [reflexivity|].
  intros rl2 msg2 s2 rl3 s3 Hc Hl H'. apply wait_inv in H'.
  destruct H' as (_ & H3 & _). rewrite Hc in H3. simpl in *. subst m. lra.
Qed.

(** C8, amended.  [reset_timer] sets [last_call_time] to 0, and a [wait]
    right after it returns at once -- no sleep, the clock where it was --
    provided the configured interval [wait_minutes * 60] is not longer
    than the current time since the epoch. *)
Theorem reset_then_wait_immediate (rl : RateLimiter) (msg : option WaitMsg) (s : State) :
  wait_minutes (config rl) * 60 <= clock s ->
  last_call_time (reset_timer rl) = 0 /\
  wait E (reset_timer rl) msg s =
    (Ok (MkRateLimiter (config rl) (clock s)), log (EWait msg) s) /\
  clock (log (EWait msg) s) = clock s /\
  filter is_sleep (trace (log (EWait msg) s)) = filter is_sleep (trace s).
Proof.
  intro H. split; [reflexivity|]. split.
  - apply (wait_immediate (reset_timer rl)). simpl. lra.
  - split; [reflexivity|]. simpl. rewrite filter_app. simpl. apply app_nil_r.
Qed.

End Pacing.

Lemma advances_refl s : advances s s [] 0.
Proof. unfold advances. rewrite app_nil_r, Nat.add_0_r. tauto. Qed.

Lemma advances_trans s s1 s2 n1 n2 c1 c2 :
  advances s s1 n1 c1 -> advances s1 s2 n2 c2 ->
  advances s s2 (n1 ++ n2) (c1 + c2).
Proof.
  unfold advances. intros (A1 & A2 & A3 & A4 & A5 & A6 & A7) (B1 & B2 & B3 & B4 & B5 & B6 & B7).
  rewrite B1, A1, B2, A2, B3, B4, B5, B6, B7, <- app_assoc.
  repeat split; auto; lia.
Qed.

Lemma attempts_of_cons E api max attempt rest :
  attempts_of E api max (attempt :: rest) =
  (c <- attempt_of E api max attempt ;;
   match c with
   | Return r => ret r
   | Continue => attempts_of E api max rest
   end).
Proof. destruct api; reflexivity. Qed.

Lemma attempts_of_nil E api max :
  attempts_of E api max [] = (print MsgAllFailed ;; ret None).
Proof. destruct api; reflexivity. Qed.

Lemma call_api_unfold E api text prompt max :
  call_api E api text prompt max =
  (print MsgThinking ;; sleep E 15 ;; attempts_of E api max (range max)).
Proof. destruct api; reflexivity. Qed.

Ltac run_step :=
  unfold try_except, bind, remote, print, emit, sleep, lift_result, ret, log; simpl.

Ltac close_advances :=
  unfold advances; simpl; rewrite <- ?app_assoc; simpl;
  repeat split; first [reflexivity | lia].

Section Clients.

Variable E : Env.
Hypothesis calm : forall n, interrupt E n = false.

Lemma attempt_retried api max attempt s e :
  transport E (remotes s) = Raises e ->
  retried_by api e = true ->
  exists s', attempt_of E api max attempt s = (Ok Continue, s') /\
             advances s s' (failed_attempt api max attempt e) 1.
Proof.
  intros Ht Hr. destruct e as [c t].
  destruct api; destruct c; try discriminate Hr;
    unfold attempt_of, gemini_attempt, kimi_attempt, deepseek_attempt;
    run_step; rewrite Ht; simpl; rewrite calm;
    (eexists; split; [reflexivity | close_advances]).
Qed.


Lemma attempt_succeeds api max attempt s v :
  (forall j, transport E (remotes s + j) = Responds (Ok v)) ->
  exists s', attempt_of E api max attempt s = (Ok (Return (Some v)), s') /\
             advances s s' (successful_attempt api) (calls_of_success api).
Proof.
  intros Ht. pose proof (Ht 0%nat) as H0. rewrite Nat.add_0_r in H0.
  pose proof (Ht 1%nat) as H1. rewrite Nat.add_1_r in H1.
  destruct api;
    unfold attempt_of, gemini_attempt, kimi_attempt, deepseek_attempt;
    run_step; rewrite H0; simpl; rewrite ?calm; simpl; rewrite ?H1; simpl;
    rewrite ?calm; simpl;
    (eexists; split; [reflexivity | close_advances]).
Qed.

Lemma attempts_exhausted api max err n : forall a s,
  (forall i, (i < n)%nat ->
     transport E (remotes s + i) = Raises (err (a + i)%nat) /\
     retried_by api (err (a + i)%nat) = true) ->
  exists s', attempts_of E api max (seq a n) s = (Ok None, s') /\
             advances s s'
               (flat_map (fun i => failed_attempt api max i (err i)) (seq a n)
                ++ [EPrint MsgAllFailed]) n.
Proof.
  induction n as [|n IH]; intros a s H.
  - rewrite attempts_of_nil. run_step. eexists; split; [reflexivity|].
    close_advances.
  - destruct (H 0%nat ltac:(lia)) as [Ht Hr]. rewrite !Nat.add_0_r in *.
    destruct (attempt_retried api max a s _ Ht Hr) as (s1 & R1 & A1).
    destruct (IH (S a) s1) as (s2 & R2 & A2).
    { intros i Hi. destruct A1 as (_ & -> & _).
      replace (remotes s + 1 + i)%nat with (remotes s + S i)%nat by lia.
      replace (S a + i)%nat with (a + S i)%nat by lia.
      apply H. lia. }
    exists s2. split.
    + simpl seq. rewrite attempts_of_cons. rewrite (bind_ok _ _ _ _ _ R1). exact R2.
    + cbn [seq flat_map]. rewrite <- app_assoc.
      change (S n) with (1 + n)%nat.
      apply (advances_trans _ _ _ _ _ _ _ A1 A2).
Qed.

Lemma attempts_recover api max err v k : forall a n s,
  (k < n)%nat ->
  (forall i, (i < k)%nat ->
     transport E (remotes s + i) = Raises (err (a + i)%nat) /\
     retried_by api (err (a + i)%nat) = true) ->
  (forall j, (k <= j)%nat -> transport E (remotes s + j) = Responds (Ok v)) ->
  exists s', attempts_of E api max (seq a n) s = (Ok (Some v), s') /\
             advances s s'
               (flat_map (fun i => failed_attempt api max i (err i)) (seq a k)
                ++ successful_attempt api) (k + calls_of_success api).
Proof.
  induction k as [|k IH]; intros a n s Hn Hf Hs.
  - destruct n as [|n]; [lia|]. simpl seq. rewrite attempts_of_cons.
    destruct (attempt_succeeds api max a s v) as (s1 & R1 & A1).
    { intro j. apply Hs. lia. }
    exists s1. split; [|exact A1].
    rewrite (bind_ok _ _ _ _ _ R1). reflexivity.
  - destruct n as [|n]; [lia|].
    destruct (Hf 0%nat ltac:(lia)) as [Ht Hr]. rewrite !Nat.add_0_r in *.
    destruct (attempt_retried api max a s _ Ht Hr) as (s1 & R1 & A1).
    destruct (IH (S a) n s1) as (s2 & R2 & A2).
    { lia. }
    { intros i Hi. destruct A1 as (_ & -> & _).
      replace (remotes s + 1 + i)%nat with (remotes s + S i)%nat by lia.
      replace (S a + i)%nat with (a + S i)%nat by lia.
      apply Hf. lia. }
    { intros j Hj. destruct A1 as (_ & -> & _).
      replace (remotes s + 1 + j)%nat with (remotes s + S j)%nat by lia.
      apply Hs. lia. }
    exists s2. split.
    + simpl seq. rewrite attempts_of_cons. rewrite (bind_ok _ _ _ _ _ R1). exact R2.
    + cbn [seq flat_map]. rewrite <- app_assoc.
      change (S k + calls_of_success api)%nat with (1 + (k + calls_of_success api))%nat.
      apply (advances_trans _ _ _ _ _ _ _ A1 A2).
Qed.

Lemma prelude s :
  exists s0, (print MsgThinking ;; sleep E 15) s = (Ok tt, s0) /\
             advances s s0 [EPrint MsgThinking; ESleep 15] 0.
Proof.
  run_step. rewrite calm. eexists; split; [reflexivity|]. close_advances.
Qed.

Lemma call_api_after_prelude api text prompt max s s0 :
  (print MsgThinking ;; sleep E 15) s = (Ok tt, s0) ->
  call_api E api text prompt max s = attempts_of E api max (range max) s0.
Proof.
  intro H. rewrite call_api_unfold.
  unfold bind in *. destruct (print MsgThinking s) as [[[]|e] s1]; [|discriminate].
  rewrite H. reflexivity.
Qed.

Lemma call_api_exhausted api text prompt max err s :
  (forall i, (i < max)%nat ->
     transport E (remotes s + i) = Raises (err i) /\
     retried_by api (err i) = true) ->
  exists s', call_api E api text prompt max s = (Ok None, s') /\
             advances s s' (exhausted_run api max err) max.
Proof.
  intro H. destruct (prelude s) as (s0 & R0 & A0).
  destruct (attempts_exhausted api max err max 0%nat s0) as (s1 & R1 & A1).
  { intros i Hi. destruct A0 as (_ & -> & _). rewrite Nat.add_0_r. apply H, Hi. }
  exists s1. split.
  - rewrite (call_api_after_prelude _ _ _ _ _ _ R0). exact R1.
  - apply (advances_trans _ _ _ _ _ _ _ A0 A1).
Qed.

Lemma call_api_recovers api text prompt max err v k s :
  (k < max)%nat ->
  (forall i, (i < k)%nat ->
     transport E (remotes s + i) = Raises (err i) /\
     retried_by api (err i) = true) ->
  (forall j, (k <= j)%nat -> transport E (remotes s + j) = Responds (Ok v)) ->
  exists s', call_api E api text prompt max s = (Ok (Some v), s') /\
             advances s s'
               ([EPrint MsgThinking; ESleep 15]
                ++ flat_map (fun i => failed_attempt api max i (err i)) (range k)
                ++ successful_attempt api) (k + calls_of_success api).
Proof.
  intros Hk Hf Hs. destruct (prelude s) as (s0 & R0 & A0).
  destruct (attempts_recover api max err v k 0%nat max s0 Hk) as (s1 & R1 & A1).
  { intros i Hi. destruct A0 as (_ & -> & _). rewrite Nat.add_0_r. apply Hf, Hi. }
  { intros j Hj. destruct A0 as (_ & -> & _). rewrite Nat.add_0_r. apply Hs, Hj. }
  exists s1. split.
  - rewrite (call_api_after_prelude _ _ _ _ _ _ R0). exact R1.
  - apply (advances_trans _ _ _ _ _ _ _ A0 A1).
Qed.


End Clients.

Lemma remote_attempts_app l1 l2 :
  remote_attempts (l1 ++ l2) = (remote_attempts l1 + remote_attempts l2)%nat.
Proof. unfold remote_attempts. rewrite filter_app, length_app. reflexivity. Qed.

Lemma remote_attempts_failed api max err l :
  remote_attempts (flat_map (fun i => failed_attempt api max i (err i)) l) = List.length l.
Proof.
  induction l as [|i l IH]; [reflexivity|].
  cbn [flat_map]. rewrite remote_attempts_app, IH.
  destruct api; reflexivity.
Qed.

Lemma remote_attempts_success api : remote_attempts (successful_attempt api) = 1%nat.
Proof. destruct api; reflexivity. Qed.

Lemma remote_attempts_exhausted api max err :
  remote_attempts (exhausted_run api max err) = max.
Proof.
  unfold exhausted_run. rewrite !remote_attempts_app, remote_attempts_failed.
  unfold range. rewrite length_seq. unfold remote_attempts. simpl. lia.
Qed.

Section Jobs.

Variable E : Env.
Hypothesis calm : forall n, interrupt E n = false.

Lemma the_api_some attr s api :
  self_api s = Some api -> the_api attr s = (Ok api, s).
Proof. unfold the_api, bind, get_api. intros ->. reflexivity. Qed.

(** A turn whose [call_api] comes back empty-handed ends where [call_api]
    ended: the loop sleeps only in its exception handler. *)
Lemma single_file_turn_again api file_path prompt_file text title formatted
      retry_count s r s1 :
  self_api s = Some api ->
  get_prompt E title text prompt_file = Ok (Some formatted) ->
  truthy formatted = true ->
  call_api E api text formatted 3 s = (Ok r, s1) ->
  truthy_opt r = false ->
  single_file_turn E file_path prompt_file text title 3 retry_count s
  = (Ok Continue, s1).
Proof.
  intros Ha Hp Ht R Hr.
  unfold single_file_turn, try_except.
  rewrite (bind_ok _ _ _ _ _ (the_api_some _ _ _ Ha)).
  unfold format_article. rewrite Hp.
  rewrite (bind_ok (lift_result _) _ s (Some formatted) s eq_refl).
  rewrite Ht. cbn [negb].
  rewrite (bind_ok _ _ _ _ _ (the_api_some _ _ _ Ha)).
  rewrite (bind_ok _ _ _ _ _ R), Hr. reflexivity.
Qed.

Lemma single_file_turn_exhausted api file_path prompt_file text title formatted
      retry_count err s :
  self_api s = Some api ->
  get_prompt E title text prompt_file = Ok (Some formatted) ->
  truthy formatted = true ->
  (forall i, (i < 3)%nat ->
     transport E (remotes s + i) = Raises (err i) /\
     retried_by api (err i) = true) ->
  exists s', single_file_turn E file_path prompt_file text title 3 retry_count s
             = (Ok Continue, s') /\
             advances s s' (exhausted_run api 3 err) 3.
Proof.
  intros Ha Hp Ht Hf.
  destruct (call_api_exhausted E calm api text formatted 3 err s Hf) as (s' & R & A).
  exists s'. split; [|exact A].
  apply (single_file_turn_again api _ _ _ _ formatted _ _ None s' Ha Hp Ht R).
  reflexivity.
Qed.

Lemma process_single_file_exhausted api file_path prompt_file text formatted err s :
  self_api s = Some api ->
  read_text E file_path = Ok text ->
  get_prompt E (splitext_root E (basename E file_path)) text prompt_file
    = Ok (Some formatted) ->
  truthy formatted = true ->
  (forall i, (i < 9)%nat ->
     transport E (remotes s + i) = Raises (err i) /\
     retried_by api (err i) = true) ->
  exists s', process_single_file E file_path prompt_file s = (Ok (None, None), s') /\
             advances s s'
               (EOpenRead file_path
                :: exhausted_run api 3 err
                ++ exhausted_run api 3 (fun i => err (3 + i)%nat)
                ++ exhausted_run api 3 (fun i => err (6 + i)%nat)) 9.
Proof.
  intros Ha Hr Hp Ht Hf.
  set (title := splitext_root E (basename E file_path)) in *.
  set (s0 := log (EOpenRead file_path) s).
  assert (A0 : advances s s0 [EOpenRead file_path] 0).
  { unfold advances, s0; simpl. rewrite Nat.add_0_r. tauto. }
  destruct (single_file_turn_exhausted api file_path prompt_file text title formatted
              0%nat err s0) as (s1 & R1 & A1); auto.
  { intros i Hi. simpl. apply Hf. lia. }
  destruct (single_file_turn_exhausted api file_path prompt_file text title formatted
              1%nat (fun i => err (3 + i)%nat) s1) as (s2 & R2 & A2); auto.
  { destruct A1 as (_ & _ & -> & _). exact Ha. }
  { intros i Hi. destruct A1 as (_ & -> & _). simpl remotes.
    rewrite <- Nat.add_assoc. apply Hf. lia. }
  destruct (single_file_turn_exhausted api file_path prompt_file text title formatted
              2%nat (fun i => err (6 + i)%nat) s2) as (s3 & R3 & A3); auto.
  { destruct A2 as (_ & _ & -> & _). destruct A1 as (_ & _ & -> & _). exact Ha. }
  { intros i Hi. destruct A2 as (_ & -> & _). destruct A1 as (_ & -> & _). simpl remotes.
    replace (remotes s + 3 + 3 + i)%nat with (remotes s + (6 + i))%nat by lia.
    apply Hf. lia. }
  exists s3. split.
  - unfold process_single_file, try_except.
    rewrite (bind_ok _ _ s tt s0) by reflexivity.
    unfold lift_result at 1. unfold bind at 1. rewrite Hr.
    fold title. unfold range. cbn [seq single_file_turns].
    rewrite (bind_ok _ _ _ _ _ R1).
    rewrite (bind_ok _ _ _ _ _ R2).
    rewrite (bind_ok _ _ _ _ _ R3). reflexivity.
  - pose proof (advances_trans _ _ _ _ _ _ _ A0
                 (advances_trans _ _ _ _ _ _ _ A1
                   (advances_trans _ _ _ _ _ _ _ A2 A3))) as A.
    exact A.
Qed.

Lemma process_file_of_none file_path prompt_file s s' :
  process_single_file E file_path prompt_file s = (Ok (None, None), s') ->
  process_file E file_path prompt_file s = (Ok (false, None), s').
Proof.
  intro H. unfold process_file, try_except. rewrite (bind_ok _ _ _ _ _ H).
  reflexivity.
Qed.

End Jobs.

(** ** Which layer emits what *)

Lemma silent_ret {A} (a : A) : silent (ret a).
Proof. intro s. exists []. simpl. rewrite app_nil_r. auto. Qed.

Lemma silent_raise {A} e : silent (@raise A e).
Proof. intro s. exists []. simpl. rewrite app_nil_r. auto. Qed.

Lemma silent_lift_result {A} (r : Result A) : silent (lift_result r).
Proof. intro s. exists []. simpl. rewrite app_nil_r. auto. Qed.

Lemma emits_emit e : emits [e] (emit e).
Proof. intro s. exists []. simpl. auto. Qed.

Lemma silent_emit e : is_internal e = true -> silent (emit e).
Proof. intros H s. exists [e]. simpl. rewrite H. auto. Qed.

Lemma silent_print m : silent (print m).
Proof. apply silent_emit. reflexivity. Qed.

Lemma silent_sleep E d : silent (sleep E d).
Proof.
  intro s. unfold sleep. destruct (interrupt E (sleeps s)); simpl;
    eexists; split; reflexivity.
Qed.

Lemma silent_remote E ep : silent (remote E ep).
Proof.
  intro s. unfold remote. destruct (transport E (remotes s)); simpl;
    eexists; split; reflexivity.
Qed.

Lemma silent_time_time : silent time_time.
Proof. intro s. exists []. simpl. rewrite app_nil_r. auto. Qed.

Lemma silent_get_api : silent get_api.
Proof. intro s. exists []. simpl. rewrite app_nil_r. auto. Qed.

Lemma silent_get_rate_limiter : silent get_rate_limiter.
Proof. intro s. exists []. simpl. rewrite app_nil_r. auto. Qed.

Lemma silent_set_rate_limiter rl : silent (set_rate_limiter rl).
Proof. intro s. exists []. simpl. rewrite app_nil_r. auto. Qed.

Lemma emits_bind {A B} pre (m : M A) (k : A -> M B) :
  emits pre m -> (forall a, silent (k a)) -> emits pre (bind m k).
Proof.
  intros Hm Hk s. destruct (Hm s) as (n1 & T1 & I1).
  unfold bind. destruct (m s) as [[a|e] s1]; simpl in T1.
  - destruct (Hk a s1) as (n2 & T2 & I2). exists (n1 ++ n2). split.
    + rewrite T2, T1. simpl. rewrite <- !app_assoc. reflexivity.
    + rewrite forallb_app, I1, I2. reflexivity.
  - exists n1. auto.
Qed.

Lemma emits_try_except {A} pre (body : M A) handler :
  emits pre body ->
  (forall e h, handler e = Some h -> silent h) ->
  emits pre (try_except body handler).
Proof.
  intros Hm Hh s. destruct (Hm s) as (n1 & T1 & I1).
  unfold try_except. destruct (body s) as [[a|e] s1]; simpl in T1.
  - exists n1. auto.
  - destruct (handler e) as [h|] eqn:Hhe.
    + destruct (Hh e h Hhe s1) as (n2 & T2 & I2). exists (n1 ++ n2). split.
      * rewrite T2, T1. simpl. rewrite <- !app_assoc. reflexivity.
      * rewrite forallb_app, I1, I2. reflexivity.
    + exists n1. auto.
Qed.

Lemma silent_bind {A B} (m : M A) (k : A -> M B) :
  silent m -> (forall a, silent (k a)) -> silent (bind m k).
Proof. apply emits_bind. Qed.

Lemma silent_try_except {A} (body : M A) handler :
  silent body ->
  (forall e h, handler e = Some h -> silent h) ->
  silent (try_except body handler).
Proof. apply emits_try_except. Qed.

Create HintDb quiet.
#[export] Hint Resolve silent_ret silent_raise silent_lift_result silent_print
  silent_sleep silent_remote silent_time_time silent_get_api
  silent_get_rate_limiter silent_set_rate_limiter : quiet.

Ltac quiet :=
  repeat first
    [ solve [auto with quiet]
    | apply silent_bind; [|intro]
    | match goal with
      | |- silent (match ?x with _ => _ end) => destruct x
      | |- silent (if ?b then _ else _) => destruct b
      | |- silent (let _ := _ in _) => cbv zeta
      end ].

Ltac quiet_handler :=
  let e := fresh "e" in
  let h := fresh "h" in
  let H := fresh "H" in
  intros e h H; unfold is_Exception in H;
  destruct (exn_class e); inversion H; subst; quiet.

Section Layers.

Variable E : Env.

Lemma silent_attempt_of api max i : silent (attempt_of E api max i).
Proof.
  destruct api; unfold attempt_of, gemini_attempt, kimi_attempt, deepseek_attempt;
    (apply silent_try_except; [quiet | quiet_handler]).
Qed.

Lemma silent_attempts_of api max l : silent (attempts_of E api max l).
Proof.
  induction l as [|i l IH].
  - rewrite attempts_of_nil. quiet.
  - rewrite attempts_of_cons. apply silent_bind; [apply silent_attempt_of|].
    intros [|r]; [exact IH | quiet].
Qed.

Lemma silent_call_api api text prompt max : silent (call_api E api text prompt max).
Proof.
  rewrite call_api_unfold. quiet. apply silent_attempts_of.
Qed.

Lemma silent_the_api attr : silent (the_api attr).
Proof. unfold the_api. quiet. Qed.

Lemma silent_single_file_turn fp pf text title max rc :
  silent (single_file_turn E fp pf text title max rc).
Proof.
  unfold single_file_turn. apply silent_try_except.
  - apply silent_bind; [apply silent_the_api|intro].
    apply silent_bind; [unfold format_article; quiet|intro].
    destruct a0 as [formatted|]; [|quiet].
    destruct (negb (truthy formatted)); [quiet|].
    apply silent_bind; [apply silent_the_api|intro].
    apply silent_bind; [apply silent_call_api|intro]. quiet.
  - intros e h H. destruct (is_Exception e); inversion H; subst. quiet.
Qed.

Lemma silent_single_file_turns fp pf text title max l :
  silent (single_file_turns E fp pf text title max l).
Proof.
  induction l as [|rc l IH]; simpl; [quiet|].
  apply silent_bind; [apply silent_single_file_turn|].
  intros [|r]; [exact IH | quiet].
Qed.

Lemma emits_process_single_file fp pf :
  emits [EOpenRead fp] (process_single_file E fp pf).
Proof.
  unfold process_single_file. apply emits_try_except.
  - apply emits_bind; [apply emits_emit|intro].
    apply silent_bind; [quiet|intro]. cbv zeta. apply silent_single_file_turns.
  - intros e h H. destruct (is_Exception e); inversion H; subst. quiet.
Qed.

Lemma silent_emit_internal e : is_internal e = true -> silent (emit e).
Proof. apply silent_emit. Qed.

Lemma emits_process_file fp pf : emits [EOpenRead fp] (process_file E fp pf).
Proof.
  unfold process_file. apply emits_try_except.
  - apply emits_bind; [apply emits_process_single_file|].
    intros [[title|] [result|]]; try solve [quiet].
    destruct (negb (truthy title) || negb (truthy result)); [quiet|].
    apply silent_bind; [apply silent_the_api|intro api].
    apply silent_bind; [unfold format_to_md; quiet|intro md].
    apply silent_bind.
    { destruct api; [destruct (nth_error _ _)|..]; quiet. }
    intro names. cbv zeta.
    apply silent_bind; [quiet|intro].
    apply silent_bind; [apply silent_emit; reflexivity|intro].
    apply silent_bind; [quiet|intro].
    apply silent_bind; [apply silent_emit; reflexivity|intro]. quiet.
  - intros e h H. destruct (is_Exception e); inversion H; subst. quiet.
Qed.

Lemma silent_progress_loop fuel : forall remaining, silent (progress_loop E fuel remaining).
Proof.
  induction fuel as [|fuel IH]; intro remaining; simpl; [quiet|].
  destruct (Qlt_bool 0 remaining); [|quiet].
  apply silent_bind; [quiet|intro]. apply IH.
Qed.

Lemma emits_wait rl msg : emits [EWait msg] (wait E rl msg).
Proof.
  unfold wait. apply emits_bind; [apply emits_emit|intro].
  apply silent_bind; [quiet|intro now0]. cbv zeta.
  apply silent_bind.
  { destruct (Qlt_bool _ _); [|quiet].
    destruct (show_progress (config rl)); [apply silent_progress_loop|quiet]. }
  intro. quiet.
Qed.

Lemma silent_stamp_last_call_time : silent stamp_last_call_time.
Proof. unfold stamp_last_call_time. quiet. Qed.

End Layers.

Lemma is_prefix_nil {A} (l : list A) : is_prefix [] l.
Proof. exists l. reflexivity. Qed.

Lemma is_prefix_refl {A} (l : list A) : is_prefix l l.
Proof. exists []. symmetry. apply app_nil_r. Qed.

Lemma is_prefix_app {A} (l l1 l2 : list A) :
  is_prefix l1 l2 -> is_prefix (l ++ l1) (l ++ l2).
Proof. intros [l3 ->]. exists l3. apply app_assoc. Qed.

Lemma is_prefix_app_r {A} (l1 l2 : list A) : is_prefix l1 (l1 ++ l2).
Proof. exists l2. reflexivity. Qed.

Lemma due_cons msg i j rest :
  due msg i (j :: rest) =
  (if (0 <? i)%nat then [EWait (Some (msg j))] else [])
  ++ EOpenRead j :: due msg (S i) rest.
Proof. unfold due. destruct (0 <? i)%nat; reflexivity. Qed.

Lemma rate_limiter_wait_some E msg s rl :
  self_rate_limiter s = Some rl ->
  rate_limiter_wait E msg s =
  (rl' <- wait E rl (Some msg) ;; set_rate_limiter rl') s.
Proof.
  intro H. unfold rate_limiter_wait. unfold bind at 1. unfold get_rate_limiter.
  rewrite H. reflexivity.
Qed.

Lemma rate_limiter_wait_none E msg s :
  self_rate_limiter s = None ->
  rate_limiter_wait E msg s = (Raise (AttributeError "wait"), s).
Proof.
  intro H. unfold rate_limiter_wait. unfold bind at 1. unfold get_rate_limiter.
  rewrite H. reflexivity.
Qed.

Lemma no_prompt_internal new :
  forallb is_internal new = true -> filter is_prompt new = [].
Proof.
  induction new as [|ev new IH]; [reflexivity|].
  simpl. intro I. apply andb_true_iff in I. destruct I as [I1 I2].
  destruct ev; try discriminate I1; simpl; apply IH, I2.
Qed.

Section Projection.

(** A projection of the trace that keeps waits and file openings and
    drops the events of the lower layers. *)
Variable f : Event -> bool.
Hypothesis f_wait : forall m, f (EWait m) = true.
Hypothesis f_open : forall p, f (EOpenRead p) = true.
Hypothesis f_internal : forall ev, is_internal ev = true -> f ev = false.

Lemma filter_internal new : forallb is_internal new = true -> filter f new = [].
Proof.
  induction new as [|ev new IH]; simpl; [reflexivity|].
  intro H. apply andb_true_iff in H. destruct H as [H1 H2].
  rewrite (f_internal _ H1). apply IH, H2.
Qed.

Variable E : Env.

Lemma rate_limiter_wait_shows msg s :
  exists new,
    trace (snd (rate_limiter_wait E msg s)) = trace s ++ new /\
    filter is_prompt new = [] /\
    (filter f new = [EWait (Some msg)] \/
     (new = [] /\ exists e, fst (rate_limiter_wait E msg s) = Raise e)).
Proof.
  destruct (self_rate_limiter s) as [rl|] eqn:Hrl.
  - rewrite (rate_limiter_wait_some E msg s rl Hrl).
    destruct (emits_bind [EWait (Some msg)] (wait E rl (Some msg))
                (fun rl' => set_rate_limiter rl') (emits_wait E rl (Some msg))
                (fun rl' => silent_set_rate_limiter rl') s) as (new & T & I).
    exists ([EWait (Some msg)] ++ new). split; [exact T|]. split.
    { simpl. apply (no_prompt_internal _ I). }
    left. simpl. rewrite f_wait, (filter_internal _ I). reflexivity.
  - rewrite (rate_limiter_wait_none E msg s Hrl).
    exists []. split; [symmetry; apply app_nil_r|]. split; [reflexivity|].
    right. split; [reflexivity|]. eexists. reflexivity.
Qed.


Lemma pace_shows i cf s :
  exists new,
    trace (snd (pace E i cf s)) = trace s ++ new /\
    (filter f new = shown_wait (WaitProcess cf) i \/
     ((0 < i)%nat /\ filter f new = [] /\ fst (pace E i cf s) <> Ok true)).
Proof.
  unfold pace, shown_wait. destruct (0 <? i)%nat eqn:Hi.
  - apply Nat.ltb_lt in Hi.
    destruct (rate_limiter_wait_shows (WaitProcess cf) s) as (new & T & _ & C).
    exists new. unfold try_except, bind.
    destruct (rate_limiter_wait E (WaitProcess cf) s) as [[[]|e] s1]; simpl in *.
    + split; [exact T|]. destruct C as [C|(_ & e & C)]; [left; exact C|discriminate].
    + destruct (exn_class e); simpl; (split; [exact T|]);
        (destruct C as [C|(-> & _)];
         [left; exact C | right; split; [exact Hi|]; split; [reflexivity|discriminate]]).
  - exists []. split; [symmetry; apply app_nil_r|]. left. reflexivity.
Qed.

Lemma process_file_shows fp pf s :
  exists new,
    trace (snd (process_file E fp pf s)) = trace s ++ new /\
    filter f new = [EOpenRead fp] /\ filter is_prompt new = [].
Proof.
  destruct (emits_process_file E fp pf s) as (new & T & I).
  exists ([EOpenRead fp] ++ new). split; [exact T|]. simpl.
  rewrite f_open, (filter_internal _ I). split; [reflexivity|].
  apply (no_prompt_internal _ I).
Qed.

(** The retry pass shows its schedule and nothing else. *)
Lemma retry_loop_shows pf : forall jobs i s,
  exists new,
    trace (snd (retry_loop E pf i jobs s)) = trace s ++ new /\
    is_prefix (filter f new) (due (fun j => WaitRetry (basename E j)) i jobs) /\
    (forall u, fst (retry_loop E pf i jobs s) = Ok u ->
       filter f new = due (fun j => WaitRetry (basename E j)) i jobs) /\
    filter is_prompt new = [].
Proof.
  induction jobs as [|j rest IH]; intros i s.
  - exists []. simpl. rewrite app_nil_r. unfold due. destruct (0 <? i)%nat; simpl;
      repeat split; auto using is_prefix_nil.
  - rewrite due_cons. cbn [retry_loop].
    set (m0 := if (0 <? i)%nat
               then rate_limiter_wait E (WaitRetry (basename E j))
               else ret tt).
    assert (W : exists n0,
               trace (snd (m0 s)) = trace s ++ n0 /\
               filter is_prompt n0 = [] /\
               (filter f n0 = (if (0 <? i)%nat
                               then [EWait (Some (WaitRetry (basename E j)))] else [])
                \/ (filter f n0 = [] /\ exists e, fst (m0 s) = Raise e))).
    { unfold m0. destruct (0 <? i)%nat.
      - destruct (rate_limiter_wait_shows (WaitRetry (basename E j)) s)
          as (n0 & T0 & P0 & C0).
        exists n0. split; [exact T0|]. split; [exact P0|].
        destruct C0 as [C0|(-> & C0)]; [left; exact C0|right; auto].
      - exists []. simpl. rewrite app_nil_r. auto. }
    destruct W as (n0 & T0 & P0 & C0).
    assert (B : (retry_body E pf i j ;; retry_loop E pf (S i) rest) s =
                match m0 s with
                | (Ok _, s0) =>
                    match process_file E j pf s0 with
                    | (Ok _, s1) => retry_loop E pf (S i) rest s1
                    | (Raise e, s1) => (Raise e, s1)
                    end
                | (Raise e, s0) => (Raise e, s0)
                end).
    { unfold retry_body. fold m0. unfold bind.
      destruct (m0 s) as [[[]|e] s0]; [|reflexivity].
      destruct (process_file E j pf s0) as [[r|e] s1]; reflexivity. }
    rewrite B. clear B.
    destruct (m0 s) as [[[]|e] s0]; simpl in T0, C0.
    2: { exists n0. simpl. split; [exact T0|]. split; [|split; [intros u Hu; discriminate Hu|exact P0]].
         destruct C0 as [C0|[C0 _]]; rewrite C0;
           [apply is_prefix_app_r | apply is_prefix_nil]. }
    destruct C0 as [C0|(_ & e & C0)]; [|discriminate].
    destruct (process_file_shows j pf s0) as (n1 & T1 & F1 & P1).
    destruct (process_file E j pf s0) as [[r|e] s1]; simpl in T1.
    2: { exists (n0 ++ n1). simpl. split; [rewrite T1, T0; symmetry; apply app_assoc|].
         rewrite !filter_app, C0, F1, P0, P1.
         split; [|split; [intros u Hu; discriminate Hu|reflexivity]].
         apply is_prefix_app.
         exists (due (fun j0 => WaitRetry (basename E j0)) (S i) rest). reflexivity. }
    destruct (IH (S i) s1) as (n2 & T2 & Pre2 & Ex2 & P2).
    exists (n0 ++ n1 ++ n2). split.
    { rewrite T2, T1, T0. rewrite <- !app_assoc. reflexivity. }
    rewrite !filter_app, C0, F1, P0, P1, P2.
    split; [|split; [|reflexivity]].
    + apply is_prefix_app. apply (is_prefix_app [EOpenRead j]). exact Pre2.
    + intros u Hu. rewrite (Ex2 u Hu). reflexivity.
Qed.

End Projection.

Lemma sched_internal ev : is_internal ev = true -> is_sched ev = false.
Proof. destruct ev; simpl; congruence. Qed.


Section MainPass.

Variable E : Env.

Lemma process_files_loop_cons pf i j rest p s :
  process_files_loop E pf i (j :: rest) p s =
  match pace E i (basename E j) s with
  | (Ok true, s0) =>
      match handle_job E pf j p s0 with
      | (Ok (Next p'), s1) => process_files_loop E pf (S i) rest p' s1
      | (Ok (Break p'), s1) => (Ok p', s1)
      | (Raise e, s1) => (Raise e, s1)
      end
  | (Ok false, s0) => (Ok p, s0)
  | (Raise e, s0) => (Raise e, s0)
  end.
Proof.
  cbn [process_files_loop]. unfold process_files_body, bind.
  destruct (pace E i (basename E j) s) as [[[|]|e] s0]; try reflexivity.
  change (negb true) with false. cbv iota.
  destruct (handle_job E pf j p s0) as [[[p'|p']|e] s1]; reflexivity.
Qed.

Lemma handle_job_shows pf fp p s :
  exists new,
    trace (snd (handle_job E pf fp p s)) = trace s ++ new /\
    filter is_sched new = [EOpenRead fp].
Proof.
  destruct (process_file_shows is_sched (fun _ => eq_refl)
              sched_internal E fp pf s) as (n1 & T1 & F1 & _).
  unfold handle_job.
  destruct (process_file E fp pf s) as [[[ok o]|e] s1] eqn:R; simpl in T1.
  - rewrite (bind_ok _ _ _ _ _ R). cbn [fst]. destruct ok; cbn [negb]; cbv iota.
    + destruct (silent_bind _ (fun _ => ret (Next (MkPass (failed_tasks p) 0)))
                  silent_stamp_last_call_time (fun _ => silent_ret _) s1)
        as (n2 & T2 & I2).
      exists (n1 ++ n2). split.
      * rewrite T2, T1. simpl. symmetry. apply app_assoc.
      * rewrite filter_app, F1, (filter_internal is_sched sched_internal _ I2).
        reflexivity.
    + destruct (3 <=? consecutive_failures p + 1)%nat.
      * exists (n1 ++ [EAskYesNo]). unfold bind, messagebox_askyesno.
        destruct (negb (askyesno E (asked s1))); simpl;
          (split; [rewrite T1; symmetry; apply app_assoc
                  |rewrite filter_app, F1; reflexivity]).
      * exists n1. simpl. auto.
  - rewrite (bind_raise _ _ _ _ _ R). exists n1. auto.
Qed.

(** What the main pass shows of waits and openings is a prefix of its
    schedule. *)
Lemma process_files_loop_shows pf : forall jobs i p s,
  exists new,
    trace (snd (process_files_loop E pf i jobs p s)) = trace s ++ new /\
    is_prefix (filter is_sched new)
              (due (fun j => WaitProcess (basename E j)) i jobs).
Proof.
  induction jobs as [|j rest IH]; intros i p s.
  - exists []. simpl. rewrite app_nil_r. auto using is_prefix_nil.
  - rewrite due_cons, process_files_loop_cons.
    destruct (pace_shows is_sched (fun _ => eq_refl) sched_internal E
                i (basename E j) s) as (n0 & T0 & C0).
    unfold shown_wait in C0.
    destruct (pace E i (basename E j) s) as [[[|]|e] s0]; simpl in T0, C0.
    + destruct C0 as [C0|(_ & _ & C0)]; [|congruence].
      destruct (handle_job_shows pf j p s0) as (n1 & T1 & F1).
      destruct (handle_job E pf j p s0) as [[[p'|p']|e] s1]; simpl in T1.
      * destruct (IH (S i) p' s1) as (n2 & T2 & P2).
        exists (n0 ++ n1 ++ n2). split.
        { rewrite T2, T1, T0. rewrite <- !app_assoc. reflexivity. }
        rewrite !filter_app, C0, F1. apply is_prefix_app.
        apply (is_prefix_app [EOpenRead j]). exact P2.
      * exists (n0 ++ n1). simpl. split; [rewrite T1, T0; symmetry; apply app_assoc|].
        rewrite filter_app, C0, F1. apply is_prefix_app.
        apply (is_prefix_app_r [EOpenRead j]).
      * exists (n0 ++ n1). simpl. split; [rewrite T1, T0; symmetry; apply app_assoc|].
        rewrite filter_app, C0, F1. apply is_prefix_app.
        apply (is_prefix_app_r [EOpenRead j]).
    + exists n0. simpl. split; [exact T0|].
      destruct C0 as [C0|(_ & C0 & _)]; rewrite C0;
        [apply is_prefix_app_r | apply is_prefix_nil].
    + exists n0. simpl. split; [exact T0|].
      destruct C0 as [C0|(_ & C0 & _)]; rewrite C0;
        [apply is_prefix_app_r | apply is_prefix_nil].
Qed.

End MainPass.

Lemma sleeps_of_exhausted api max err :
  filter is_sleep (exhausted_run api max err) =
  ESleep 15 :: map (fun i => ESleep (backoff i)) (range max).
Proof.
  unfold exhausted_run. rewrite !filter_app. simpl. rewrite app_nil_r. f_equal.
  induction (range max) as [|i l IH]; [reflexivity|].
  cbn [flat_map map]. rewrite filter_app, IH. reflexivity.
Qed.

(** C3, amended.  For each of the three clients and the failures its
    [except] clauses answer with a retry -- [ServiceUnavailable] for the
    Gemini client, a [RequestException] for the Kimi client, every
    [Exception] for the DeepSeek client: when the first [k < max_retries]
    attempts fail so and every later call answers [v], [call_api] returns
    [v] after exactly [k + 1] attempts; when every attempt fails so, it
    returns [None] after exactly [max_retries] attempts, having slept
    [10 + 5 ** attempt] seconds after each of them.  An attempt is one
    turn of the loop; a successful attempt of the Kimi client makes two
    requests. *)
Theorem call_api_retries (E : Env) (api : Api) (text prompt : string)
    (max_retries : nat) (err : nat -> exn) (s : State) :
  (forall n, interrupt E n = false) ->
  (forall k v,
     (k < max_retries)%nat ->
     (forall i, (i < k)%nat ->
        transport E (remotes s + i) = Raises (err i) /\
        retried_by api (err i) = true) ->
     (forall j, (k <= j)%nat -> transport E (remotes s + j) = Responds (Ok v)) ->
     exists s',
       call_api E api text prompt max_retries s = (Ok (Some v), s') /\
       trace s' = trace s
                  ++ [EPrint MsgThinking; ESleep 15]
                  ++ flat_map (fun i => failed_attempt api max_retries i (err i))
                              (range k)
                  ++ successful_attempt api /\
       remote_attempts
         ([EPrint MsgThinking; ESleep 15]
          ++ flat_map (fun i => failed_attempt api max_retries i (err i)) (range k)
          ++ successful_attempt api) = (k + 1)%nat) /\
  ((forall i, (i < max_retries)%nat ->
      transport E (remotes s + i) = Raises (err i) /\
      retried_by api (err i) = true) ->
   exists s',
     call_api E api text prompt max_retries s = (Ok None, s') /\
     trace s' = trace s ++ exhausted_run api max_retries err /\
     remote_attempts (exhausted_run api max_retries err) = max_retries /\
     filter is_sleep (exhausted_run api max_retries err) =
       ESleep 15 :: map (fun i => ESleep (backoff i)) (range max_retries)).
Proof.
  intro calm. split.
  - intros k v Hk Hf Hs.
    destruct (call_api_recovers E calm api text prompt max_retries err v k s Hk Hf Hs)
      as (s' & R & A).
    exists s'. split; [exact R|]. split; [apply A|].
    rewrite !remote_attempts_app, remote_attempts_failed, remote_attempts_success.
    unfold range. rewrite length_seq. reflexivity.
  - intro Hf.
    destruct (call_api_exhausted E calm api text prompt max_retries err s Hf)
      as (s' & R & A).
    exists s'. split; [exact R|]. split; [apply A|].
    split; [apply remote_attempts_exhausted | apply sleeps_of_exhausted].
Qed.


(** C10.  [process_single_file] calls [call_api] in a loop of its own, up
    to three times: a turn in which [call_api] returns [None] (or an empty
    text) without raising ends in the very state [call_api] left, with no
    sleep, and the next turn calls it again.  So for a job whose file and
    prompt are fine and whose remote calls all fail with a retried
    exception, the trace is the opening of the file followed by three
    exhausted runs of [call_api] with nothing in between, nine remote
    attempts in all, and the job is reported failed. *)
Theorem job_retries_call_api_three_times (E : Env) (api : Api)
    (file_path prompt_file text formatted : string) (err : nat -> exn) (s : State) :
  (forall n, interrupt E n = false) ->
  self_api s = Some api ->
  read_text E file_path = Ok text ->
  get_prompt E (splitext_root E (basename E file_path)) text prompt_file
    = Ok (Some formatted) ->
  truthy formatted = true ->
  (forall i, (i < 9)%nat ->
     transport E (remotes s + i) = Raises (err i) /\
     retried_by api (err i) = true) ->
  let title := splitext_root E (basename E file_path) in
  let runs := exhausted_run api 3 err
              ++ exhausted_run api 3 (fun i => err (3 + i)%nat)
              ++ exhausted_run api 3 (fun i => err (6 + i)%nat) in
  (forall retry_count s0 r s1,
     self_api s0 = Some api ->
     call_api E api text formatted 3 s0 = (Ok r, s1) ->
     truthy_opt r = false ->
     single_file_turn E file_path prompt_file text title 3 retry_count s0
     = (Ok Continue, s1)) /\
  exists s',
    process_single_file E file_path prompt_file s = (Ok (None, None), s') /\
    process_file E file_path prompt_file s = (Ok (false, None), s') /\
    trace s' = trace s ++ EOpenRead file_path :: runs /\
    remote_attempts runs = 9%nat /\
    remotes s' = (remotes s + 9)%nat.
Proof.
  intros calm Ha Hr Hp Ht Hf title runs. split.
  { intros retry_count s0 r s1 Ha0 R Hn.
    apply (single_file_turn_again E api _ _ _ _ formatted _ _ r s1 Ha0 Hp Ht R Hn). }
  destruct (process_single_file_exhausted E calm api file_path prompt_file text
              formatted err s Ha Hr Hp Ht Hf) as (s' & R & A).
  exists s'. split; [exact R|]. split; [apply process_file_of_none, R|].
  split; [apply A|]. split; [|apply A].
  unfold runs. rewrite !remote_attempts_app, !remote_attempts_exhausted. reflexivity.
Qed.

(** ** Reading a schedule *)

Lemma waits_then_opens_split msg : forall jobs pre j post,
  waits_then_opens msg jobs = pre ++ EOpenRead j :: post ->
  exists pre', pre = pre' ++ [EWait (Some (msg j))].
Proof.
  induction jobs as [|x jobs IH]; intros pre j post H.
  - destruct pre; discriminate H.
  - change (waits_then_opens msg (x :: jobs))
      with (EWait (Some (msg x)) :: EOpenRead x :: waits_then_opens msg jobs) in H.
    destruct pre as [|a [|b pre]]; simpl in H.
    + discriminate H.
    + inversion H; subst. exists []. reflexivity.
    + inversion H as [[Ha Hb Hc]].
      destruct (IH _ _ _ Hc) as [pre' ->].
      exists (EWait (Some (msg x)) :: EOpenRead x :: pre'). reflexivity.
Qed.

Lemma prefix_of_schedule_paced msg jobs l :
  is_prefix l (schedule msg jobs) -> paced msg l.
Proof.
  intros [l3 H]. split.
  - intros m rest ->. destruct jobs; discriminate H.
  - intros pre j post ->. destruct pre as [|a pre]; [left; reflexivity|right].
    destruct jobs as [|j0 others]; [discriminate H|].
    simpl in H. inversion H as [[Ha Hb]].
    rewrite <- app_assoc in Hb. simpl in Hb.
    destruct (waits_then_opens_split _ _ _ _ _ Hb) as [pre' ->].
    exists (EOpenRead j0 :: pre'). reflexivity.
Qed.

(** In the main pass and in the retry pass alike, however the pass ends,
    the waits and file openings that occur form a prefix of the schedule
    "first file, then wait and file for each further job": no wait comes
    before the first job, and every other job that is processed comes
    right after the wait for it.  A retry pass that runs to its end shows
    the whole schedule. *)
Lemma passes_show_a_paced_prefix (E : Env) (prompt_file : string)
    (jobs : list string) (p : Pass) (s : State) :
  (exists new,
     trace (snd (process_files_loop E prompt_file 0 jobs p s)) = trace s ++ new /\
     is_prefix (filter is_sched new)
               (schedule (fun j => WaitProcess (basename E j)) jobs) /\
     paced (fun j => WaitProcess (basename E j)) (filter is_sched new)) /\
  (exists new,
     trace (snd (retry_failed_tasks E jobs prompt_file s)) = trace s ++ new /\
     is_prefix (filter is_sched new)
               (schedule (fun j => WaitRetry (basename E j)) jobs) /\
     paced (fun j => WaitRetry (basename E j)) (filter is_sched new) /\
     (forall l, fst (retry_failed_tasks E jobs prompt_file s) = Ok l ->
        filter is_sched new = schedule (fun j => WaitRetry (basename E j)) jobs)).
Proof.
  split.
  - destruct (process_files_loop_shows E prompt_file jobs 0 p s) as (new & T & P).
    exists new. split; [exact T|]. split; [exact P|].
    apply (prefix_of_schedule_paced _ jobs), P.
  - destruct (retry_loop_shows is_sched (fun _ => eq_refl) (fun _ => eq_refl)
                sched_internal E prompt_file jobs 0 s) as (new & T & P & X & _).
    exists new. unfold retry_failed_tasks, bind.
    destruct (retry_loop E prompt_file 0 jobs s) as [[[]|e] s1]; simpl in *;
      (split; [exact T|]); (split; [exact P|]);
      (split; [apply (prefix_of_schedule_paced _ jobs), P|]).
    + intros l _. apply (X tt eq_refl).
    + intros l Hl. discriminate Hl.
Qed.

Lemma job_events_keeps_prompts l :
  filter is_prompt (job_events l) = filter is_prompt l.
Proof.
  unfold job_events. induction l as [|ev l IH]; [reflexivity|].
  simpl. destruct ev; simpl; rewrite ?IH; reflexivity.
Qed.


(** ** The breaker *)

Lemma handle_job_failed E pf fp p s o s1 :
  process_file E fp pf s = (Ok (false, o), s1) ->
  handle_job E pf fp p s =
  (let failed := failed_tasks p ++ [fp] in
   let failures := (consecutive_failures p + 1)%nat in
   if (3 <=? failures)%nat then
     yes <- messagebox_askyesno E ;;
     if negb yes then ret (Break (MkPass failed failures))
     else ret (Next (MkPass failed 0))
   else ret (Next (MkPass failed failures))) s1.
Proof. intro R. unfold handle_job. rewrite (bind_ok _ _ _ _ _ R). reflexivity. Qed.

Lemma handle_job_succeeded E pf fp p s o s1 :
  process_file E fp pf s = (Ok (true, o), s1) ->
  handle_job E pf fp p s =
  (stamp_last_call_time ;; ret (Next (MkPass (failed_tasks p) 0))) s1.
Proof. intro R. unfold handle_job. rewrite (bind_ok _ _ _ _ _ R). reflexivity. Qed.

Lemma handle_job_counter E pf fp p s p' s' :
  (consecutive_failures p <= 2)%nat ->
  handle_job E pf fp p s = (Ok (Next p'), s') ->
  (consecutive_failures p' <= 2)%nat.
Proof.
  intros Hc. unfold handle_job, bind.
  destruct (process_file E fp pf s) as [[[[|] o]|e] s1]; cbn [fst negb]; cbv iota.
  - destruct (stamp_last_call_time s1) as [[[]|e] s2]; intro H; inversion H; subst.
    simpl. lia.
  - destruct (3 <=? consecutive_failures p + 1)%nat eqn:G.
    + unfold messagebox_askyesno. destruct (askyesno E (asked s1)); simpl;
        intro H; inversion H; subst. simpl. lia.
    + apply Nat.leb_gt in G. unfold ret. intro H; inversion H; subst. simpl. lia.
  - discriminate.
Qed.

(** C4.  A job has been waited for and processed.  If it failed and was
    the third failure in a row, the user is asked exactly once, before
    anything else happens: on "yes" the pass goes on with the counter at
    0, on "no" it ends there, the failed list holding this job and none
    of the remaining ones, which are not attempted.  If it failed with
    fewer failures before it, nobody is asked and the counter goes up by
    one.  If it succeeded, the counter is 0 again.  The counter never
    exceeds 2 at the head of the loop. *)
Theorem consecutive_failure_breaker (E : Env) (prompt_file file_path : string)
    (i : nat) (rest : list string) (p : Pass) (s s0 s1 : State)
    (success : bool) (saved : option string) :
  pace E i (basename E file_path) s = (Ok true, s0) ->
  process_file E file_path prompt_file s0 = (Ok (success, saved), s1) ->
  let failed := failed_tasks p ++ [file_path] in
  let s2 := snd (messagebox_askyesno E s1) in
  let s3 := snd (stamp_last_call_time s1) in
  (success = false -> consecutive_failures p = 2%nat ->
     trace s2 = trace s1 ++ [EAskYesNo] /\
     (askyesno E (asked s1) = true ->
        process_files_loop E prompt_file i (file_path :: rest) p s
        = process_files_loop E prompt_file (S i) rest (MkPass failed 0) s2) /\
     (askyesno E (asked s1) = false ->
        process_files_loop E prompt_file i (file_path :: rest) p s
        = (Ok (MkPass failed 3), s2))) /\
  (success = false -> (consecutive_failures p < 2)%nat ->
     process_files_loop E prompt_file i (file_path :: rest) p s
     = process_files_loop E prompt_file (S i) rest
         (MkPass failed (consecutive_failures p + 1)) s1) /\
  (success = true -> self_rate_limiter s1 <> None ->
     trace s3 = trace s1 /\
     process_files_loop E prompt_file i (file_path :: rest) p s
     = process_files_loop E prompt_file (S i) rest (MkPass (failed_tasks p) 0) s3) /\
  ((consecutive_failures p <= 2)%nat ->
   forall p' s', process_files_body E prompt_file i file_path p s = (Ok (Next p'), s') ->
                 (consecutive_failures p' <= 2)%nat).
Proof.
  intros Hp Hf failed s2 s3.
  rewrite process_files_loop_cons, Hp.
  split; [|split; [|split]].
  - intros -> Hc. rewrite (handle_job_failed _ _ _ _ _ _ _ Hf). cbv zeta.
    rewrite Hc. split; [reflexivity|].
    split; intro Hy; unfold bind, messagebox_askyesno;
      change (3 <=? 2 + 1)%nat with true; cbv beta iota;
      rewrite Hy; reflexivity.
  - intros -> Hc. rewrite (handle_job_failed _ _ _ _ _ _ _ Hf). cbv zeta.
    replace (3 <=? consecutive_failures p + 1)%nat with false
      by (symmetry; apply Nat.leb_gt; lia).
    reflexivity.
  - intros -> Hrl. rewrite (handle_job_succeeded _ _ _ _ _ _ _ Hf).
    unfold s3, bind, stamp_last_call_time, bind, time_time, get_rate_limiter.
    destruct (self_rate_limiter s1) as [rl|]; [|congruence].
    split; reflexivity.
  - intros Hc p' s'. unfold process_files_body, bind. rewrite Hp.
    cbn [negb]. cbv iota. apply handle_job_counter, Hc.
Qed.

(** ** Ctrl-C while waiting *)

Lemma interrupt_ends_main_pass E pf i fp rest p s e s1 :
  (0 < i)%nat ->
  rate_limiter_wait E (WaitProcess (basename E fp)) s = (Raise e, s1) ->
  exn_class e = KeyboardInterrupt ->
  process_files_loop E pf i (fp :: rest) p s = (Ok p, s1).
Proof.
  intros Hi R He. rewrite process_files_loop_cons. unfold pace.
  apply Nat.ltb_lt in Hi. rewrite Hi. unfold try_except.
  rewrite (bind_raise _ _ _ _ _ R), He. reflexivity.
Qed.

Lemma interrupt_escapes_retry_pass E pf i fp rest s e s1 :
  (0 < i)%nat ->
  rate_limiter_wait E (WaitRetry (basename E fp)) s = (Raise e, s1) ->
  retry_loop E pf i (fp :: rest) s = (Raise e, s1).
Proof.
  intros Hi R. cbn [retry_loop]. unfold retry_body.
  apply Nat.ltb_lt in Hi. rewrite Hi.
  rewrite (bind_raise _ _ _ _ _ (bind_raise _ _ _ _ _ R)). reflexivity.
Qed.

(** ** Retrying after a longer wait *)

(** C9, amended.  When the user chooses "retry after a longer wait", the
    orchestrator opens the settings dialog with twice the current
    [wait_minutes] as the offered value and installs the configuration
    the dialog returns -- twice the old interval if the user confirms the
    offer -- before the retry pass runs. *)
Theorem longer_wait_offers_the_double (E : Env) (failed : list string)
    (prompt_file : string) (s : State) (rl : RateLimiter) (c : RateLimitConfig) :
  failed <> [] ->
  askyesnocancel E (asked3 s) = Some false ->
  self_rate_limiter s = Some rl ->
  let m := wait_minutes (config rl) in
  let offered := or_default (Some (m * 2)) m in
  config_dialog E (dialogs s) offered = Ok c ->
  offered == m * 2 /\
  (wait_minutes c = offered -> wait_minutes c == m * 2) /\
  exists s1,
    trace s1 = trace s ++ [EAskYesNoCancel; EDialog TitleUpdate offered] /\
    self_rate_limiter s1 = Some (MkRateLimiter c (last_call_time rl)) /\
    offer_retry E failed prompt_file s
    = (_ <- retry_failed_tasks E failed prompt_file ;; ret tt) s1.
Proof.
  intros Hne Hch Hrl m offered Hd.
  assert (Ho : offered == m * 2).
  { unfold offered, or_default. destruct (Qeq_bool (m * 2) 0) eqn:Z; [|reflexivity].
    apply Qeq_bool_eq in Z. lra. }
  split; [exact Ho|]. split; [intros ->; exact Ho|].
  destruct failed as [|j failed]; [congruence|].
  eexists. split; [|split].
  3: { unfold offer_retry, bind at 1, messagebox_askyesnocancel. rewrite Hch.
       cbn [negb]. unfold bind at 1, lengthen_wait, bind at 1, get_rate_limiter.
       cbn [self_rate_limiter]. rewrite Hrl.
       unfold bind at 1, update_config, bind at 1, _show_config_dialog.
       cbn [dialogs]. fold m. fold offered. rewrite Hd.
       unfold ret at 1, set_rate_limiter. cbv beta iota. reflexivity. }
  - simpl. rewrite <- app_assoc. reflexivity.
  - reflexivity.
Qed.

(** ** Concrete runs *)

Lemma wait_enforces_interval_witness :
  (forall n, 0 <= sleep_lag (quiet_env (always (Raises unavailable))) n) /\
  exists rl1 s1,
    wait (quiet_env (always (Raises unavailable))) (limiter 1 true) None
         (start 30 None None) = (Ok rl1, s1) /\
    0 + 1 * 60 <= clock s1.
Proof.
  assert (L : forall n, 0 <= sleep_lag (quiet_env (always (Raises unavailable))) n).
  { intro n. apply Qle_refl. }
  split; [exact L|].
  destruct (wait_enforces_interval (quiet_env (always (Raises unavailable))) L
              (limiter 1 true) None (start 30 None None)) as (H1 & _ & H3).
  destruct (H1 (fun _ => eq_refl)) as (rl1 & s1 & R).
  exists rl1, s1. split; [exact R|]. apply (H3 rl1 s1 R).
Defined.

Lemma reset_then_wait_immediate_witness :
  1 * 60 <= 1000 /\
  wait (quiet_env (always (Raises unavailable)))
       (reset_timer (MkRateLimiter (MkConfig 1 true) 940)) None
       (start 1000 None None)
  = (Ok (MkRateLimiter (MkConfig 1 true) 1000),
     log (EWait None) (start 1000 None None)).
Proof.
  assert (H : wait_minutes (config (MkRateLimiter (MkConfig 1 true) 940)) * 60
              <= clock (start 1000 None None)).
  { vm_compute. discriminate. }
  split; [exact H|].
  apply (reset_then_wait_immediate (quiet_env (always (Raises unavailable)))
           (MkRateLimiter (MkConfig 1 true) 940) None (start 1000 None None) H).
Defined.

(** C8 as stated fails where the interval exceeds the time since the
    epoch: a machine whose clock reads 30 seconds, or an interval of
    30000000 minutes today. *)
Lemma reset_then_wait_may_sleep :
  (let s := start 30 None None in
   let r := wait (quiet_env (always (Raises unavailable)))
                 (reset_timer (MkRateLimiter (MkConfig 1 false) 500)) None s in
   trace (snd r) = [EWait None; ESleep 30] /\ clock (snd r) - clock s == 30) /\
  (let s := start 1762214400 None None in
   let r := wait (quiet_env (always (Raises unavailable)))
                 (reset_timer (MkRateLimiter (MkConfig 30000000 false) 500)) None s in
   trace (snd r) = [EWait None; ESleep 37785600] /\
   clock (snd r) - clock s == 37785600).
Proof. split; split; vm_compute; reflexivity. Qed.

Lemma call_api_retries_witness :
  (exists s',
     call_api (quiet_env recovering) gemini "text" "prompt" 3 (start 0 None None)
     = (Ok (Some "analysis"%string), s') /\
     remote_attempts (trace s') = 3%nat) /\
  (exists s',
     call_api (quiet_env (always (Raises unavailable))) gemini "text" "prompt" 3
              (start 0 None None) = (Ok None, s') /\
     remote_attempts (trace s') = 3%nat).
Proof.
  split.
  - destruct (call_api_retries (quiet_env recovering) gemini "text" "prompt" 3
                (fun _ => unavailable) (start 0 None None) (fun _ => eq_refl))
      as [A _].
    destruct (A 2%nat "analysis"%string) as (s' & R & T & N).
    + lia.
    + intros i Hi. destruct i as [|[|i]]; [split; reflexivity .. | lia].
    + intros j Hj. destruct j as [|[|j]]; [lia | lia | reflexivity].
    + exists s'. split; [exact R|]. rewrite T. exact N.
  - destruct (call_api_retries (quiet_env (always (Raises unavailable))) gemini
                "text" "prompt" 3 (fun _ => unavailable) (start 0 None None)
                (fun _ => eq_refl)) as [_ B].
    destruct B as (s' & R & T & N & _).
    + intros i _. split; reflexivity.
    + exists s'. split; [exact R|]. rewrite T. exact N.
Defined.

(** C3 as stated fails for the Gemini client, which retries nothing but
    [ServiceUnavailable]: after one rate-limit signal, or one timeout,
    from a service that answers from then on it returns [None], having
    made one attempt and slept no backoff; and with a rate-limit signal
    at every call it returns [None] after one attempt, not after
    [max_retries]. *)
Lemma transient_failure_not_retried :
  (let r := call_api (quiet_env (failing_once rate_limited)) gemini
                     "text" "prompt" 3 (start 0 None None) in
   fst r = Ok None /\
   trace (snd r) = [EPrint MsgThinking; ESleep 15; ERemote GenerateContent;
                    EPrint (MsgOtherError rate_limited)]) /\
  (let r := call_api (quiet_env (failing_once deadline_exceeded)) gemini
                     "text" "prompt" 3 (start 0 None None) in
   fst r = Ok None /\ remote_attempts (trace (snd r)) = 1%nat) /\
  (let r := call_api (quiet_env (always (Raises rate_limited))) gemini
                     "text" "prompt" 3 (start 0 None None) in
   fst r = Ok None /\ remote_attempts (trace (snd r)) = 1%nat) /\
  fst (call_api (quiet_env (failing_once rate_limited)) DeepSeekAPI
                "text" "prompt" 3 (start 0 None None))
  = Ok (Some "analysis"%string).
Proof. repeat split; vm_compute; reflexivity. Qed.



Lemma job_retries_call_api_three_times_witness :
  exists s',
    process_file (quiet_env (always (Raises unavailable))) "chapter" "prompt.txt"
                 (start 0 (Some gemini) None) = (Ok (false, None), s') /\
    remotes s' = 9%nat.
Proof.
  destruct (job_retries_call_api_three_times
              (quiet_env (always (Raises unavailable))) gemini
              "chapter" "prompt.txt" "text of chapter" "prompt.txtchapter"
              (fun _ => unavailable) (start 0 (Some gemini) None)
              (fun _ => eq_refl) eq_refl eq_refl eq_refl eq_refl)
    as (_ & s' & _ & R & _ & _ & N).
  - intros i _. split; reflexivity.
  - exists s'. split; [exact R | exact N].
Defined.

Lemma consecutive_failure_breaker_witness :
  let s0 := snd (pace halting_env 2 "c" third_failure) in
  let s1 := snd (process_file halting_env "c" "prompt.txt" s0) in
  process_files_loop halting_env "prompt.txt" 2 ["c"; "d"]%string
                     (MkPass ["a"; "b"]%string 2) third_failure
  = (Ok (MkPass ["a"; "b"; "c"]%string 3), snd (messagebox_askyesno halting_env s1)).
Proof.
  intros s0 s1.
  assert (Hp : pace halting_env 2 (basename halting_env "c") third_failure
               = (Ok true, s0)) by (vm_compute; reflexivity).
  assert (Hf : process_file halting_env "c" "prompt.txt" s0
               = (Ok (false, None), s1)) by (vm_compute; reflexivity).
  destruct (consecutive_failure_breaker halting_env "prompt.txt" "c" 2 ["d"]%string
              (MkPass ["a"; "b"]%string 2) third_failure s0 s1 false None Hp Hf)
    as (H & _).
  destruct (H eq_refl eq_refl) as (_ & _ & Hno).
  exact (Hno eq_refl).
Defined.

Lemma longer_wait_offers_the_double_witness :
  exists s1,
    self_rate_limiter s1 = Some (MkRateLimiter (MkConfig (1.5 * 2) true) 0) /\
    offer_retry longer_wait_env ["a"]%string "prompt.txt"
                (start 1000 (Some gemini) (Some (limiter 1.5 false)))
    = (_ <- retry_failed_tasks longer_wait_env ["a"]%string "prompt.txt" ;; ret tt) s1.
Proof.
  destruct (longer_wait_offers_the_double longer_wait_env ["a"]%string "prompt.txt"
              (start 1000 (Some gemini) (Some (limiter 1.5 false)))
              (limiter 1.5 false) (MkConfig (1.5 * 2) true))
    as (_ & _ & s1 & _ & Hrl & Hrun).
  - discriminate.
  - reflexivity.
  - reflexivity.
  - reflexivity.
  - exists s1. split; [exact Hrl | exact Hrun].
Defined.

(** C9 as stated fails when the user types another value into the
    dialog: the interval goes from 1 minute to half a minute. *)
Lemma longer_wait_need_not_double :
  let s := start 1000 (Some gemini) (Some (limiter 1 false)) in
  let after := snd (offer_retry half_minute_env ["a"]%string "prompt.txt" s) in
  self_rate_limiter after = Some (MkRateLimiter (MkConfig 0.5 true) 0) /\
  ~ 0.5 == 1 * 2 /\
  filter (fun ev => negb (is_internal ev)) (trace after)
  = [EAskYesNoCancel; EDialog TitleUpdate (1 * 2); EOpenRead "a"].
Proof.
  split; [vm_compute; reflexivity|]. split; [intro H; discriminate H|].
  vm_compute. reflexivity.
Qed.

(** C7, at the failing input.  Ctrl-C during a wait of the main pass ends
    that pass and [process_files] carries on; the jobs done stay done and
    job "c" is neither processed nor listed as failed.  Ctrl-C during a
    wait of the retry pass is caught nowhere: [process_files] ends with
    the [KeyboardInterrupt]. *)
Theorem interrupt_in_retry_pass_escapes :
  let s := start 1000 (Some gemini) (Some (limiter 5 false)) in
  let main := process_files (interrupted_env 6) ["a"; "b"; "c"]%string "prompt.txt" s in
  let retry := process_files (interrupted_env 9) ["a"; "b"]%string "prompt.txt" s in
  (fst main = Ok tt /\
   job_events (trace (snd main))
   = [EOpenRead "a"; EWait (Some (WaitProcess "b")); EOpenRead "b";
      EWait (Some (WaitProcess "c")); EAskYesNoCancel; EOpenRead "a";
      EWait (Some (WaitRetry "b")); EOpenRead "b"]) /\
  (fst retry = Raise (MkExn KeyboardInterrupt EmptyString) /\
   job_events (trace (snd retry))
   = [EOpenRead "a"; EWait (Some (WaitProcess "b")); EOpenRead "b";
      EAskYesNoCancel; EOpenRead "a"; EWait (Some (WaitRetry "b"))]).
Proof. repeat split; vm_compute; reflexivity. Qed.

(** Three failures in a row, a "no" at the prompt: one prompt, and job "d"
    is neither opened nor listed. *)
Example three_failures_one_prompt :
  let r := process_files_loop halting_env "prompt.txt" 0
             ["a"; "b"; "c"; "d"]%string (MkPass [] 0) third_failure in
  fst r = Ok (MkPass ["a"; "b"; "c"]%string 3) /\
  job_events (trace (snd r))
  = [EOpenRead "a"; EWait (Some (WaitProcess "b")); EOpenRead "b";
     EWait (Some (WaitProcess "c")); EOpenRead "c"; EAskYesNo].
Proof. split; vm_compute; reflexivity. Qed.

(** The batch of five jobs of the specification. *)
Example five_job_batch :
  let s := start 1000 (Some gemini) (Some (limiter 1 false)) in
  let jobs := ["j1"; "j2"; "j3"; "j4"; "j5"]%string in
  let E := mock_env five_jobs never (fun _ => true) (fun _ => Some true) accept_default in
  fst (process_files_loop E "prompt.txt" 0 jobs (MkPass [] 0) s)
  = Ok (MkPass ["j3"]%string 0) /\
  fst (retry_failed_tasks E ["j3"]%string "prompt.txt"
         (snd (process_files_loop E "prompt.txt" 0 jobs (MkPass [] 0) s)))
  = Ok ["j3"]%string /\
  filter (fun ev => match ev with EWrite _ _ => true | _ => false end)
         (trace (snd (process_files E jobs "prompt.txt" s)))
  = [EWrite "book_2/Gemini/j1_gemini1.5.md" "one";
     EWrite "book_2/Gemini/j2_gemini1.5.md" "two";
     EWrite "book_2/Gemini/j4_gemini1.5.md" "four";
     EWrite "book_2/Gemini/j5_gemini1.5.md" "five"].
Proof. repeat split; vm_compute; reflexivity. Qed.

(** * Further properties *)

(** ** Relations the lower layers respect *)

Section Lower.

Variable R : State -> list Event -> State -> Prop.
Hypothesis R_refl : forall s, R s [] s.
Hypothesis R_trans : forall s n1 s1 n2 s2,
  R s n1 s1 -> R s1 n2 s2 -> R s (n1 ++ n2) s2.

Lemma steps_still {A} (m : M A) :
  (forall s, snd (m s) = s) -> steps R m.
Proof.
  intros H s. exists []. rewrite H, app_nil_r. split; [reflexivity|apply R_refl].
Qed.

Lemma steps_ret {A} (a : A) : steps R (ret a).
Proof. apply steps_still. reflexivity. Qed.

Lemma steps_raise {A} e : steps R (@raise A e).
Proof. apply steps_still. reflexivity. Qed.

Lemma steps_lift_result {A} (r : Result A) : steps R (lift_result r).
Proof. apply steps_still. reflexivity. Qed.

Lemma steps_time_time : steps R time_time.
Proof. apply steps_still. reflexivity. Qed.

Lemma steps_get_api : steps R get_api.
Proof. apply steps_still. reflexivity. Qed.

Lemma steps_get_rate_limiter : steps R get_rate_limiter.
Proof. apply steps_still. reflexivity. Qed.

Lemma steps_bind {A B} (m : M A) (k : A -> M B) :
  steps R m -> (forall a, steps R (k a)) -> steps R (bind m k).
Proof.
  intros Hm Hk s. destruct (Hm s) as (n1 & T1 & R1).
  unfold bind. destruct (m s) as [[a|e] s1]; simpl in T1, R1.
  - destruct (Hk a s1) as (n2 & T2 & R2). exists (n1 ++ n2). split.
    + rewrite T2, T1. symmetry. apply app_assoc.
    + apply (R_trans _ _ _ _ _ R1 R2).
  - exists n1. auto.
Qed.

Lemma steps_try_except {A} (body : M A) handler :
  steps R body ->
  (forall e h, handler e = Some h -> steps R h) ->
  steps R (try_except body handler).
Proof.
  intros Hm Hh s. destruct (Hm s) as (n1 & T1 & R1).
  unfold try_except. destruct (body s) as [[a|e] s1]; simpl in T1, R1.
  - exists n1. auto.
  - destruct (handler e) as [h|] eqn:Hhe.
    + destruct (Hh e h Hhe s1) as (n2 & T2 & R2). exists (n1 ++ n2). split.
      * rewrite T2, T1. symmetry. apply app_assoc.
      * apply (R_trans _ _ _ _ _ R1 R2).
    + exists n1. auto.
Qed.

Lemma steps_the_api attr : steps R (the_api attr).
Proof.
  unfold the_api. apply steps_bind; [apply steps_get_api|].
  intros [api|]; [apply steps_ret | apply steps_raise].
Qed.

Variable E : Env.
Hypothesis R_sleep : forall d, steps R (sleep E d).
Hypothesis R_remote : forall ep, steps R (remote E ep).
Hypothesis R_print : forall m, steps R (print m).

Ltac stepping :=
  repeat first
    [ apply steps_ret | apply steps_raise | apply steps_lift_result
    | apply steps_time_time | apply steps_get_api | apply steps_get_rate_limiter
    | apply steps_the_api | apply R_sleep | apply R_remote | apply R_print
    | apply steps_bind; [|intro]
    | match goal with
      | |- steps _ (match ?x with _ => _ end) => destruct x
      | |- steps _ (if ?b then _ else _) => destruct b
      | |- steps _ (let _ := _ in _) => cbv zeta
      end ].

Ltac stepping_handler :=
  let e := fresh "e" in
  let h := fresh "h" in
  let H := fresh "H" in
  intros e h H; unfold is_Exception in H;
  destruct (exn_class e); inversion H; subst; stepping.

Lemma steps_attempt_of api max i : steps R (attempt_of E api max i).
Proof.
  destruct api; unfold attempt_of, gemini_attempt, kimi_attempt, deepseek_attempt;
    (apply steps_try_except; [stepping | stepping_handler]).
Qed.

Lemma steps_attempts_of api max l : steps R (attempts_of E api max l).
Proof.
  induction l as [|i l IH].
  - rewrite attempts_of_nil. stepping.
  - rewrite attempts_of_cons. apply steps_bind; [apply steps_attempt_of|].
    intros [|r]; [exact IH | stepping].
Qed.

Lemma steps_call_api api text prompt max : steps R (call_api E api text prompt max).
Proof. rewrite call_api_unfold. stepping. apply steps_attempts_of. Qed.

Lemma steps_single_file_turn fp pf text title max rc :
  steps R (single_file_turn E fp pf text title max rc).
Proof.
  unfold single_file_turn. apply steps_try_except.
  - apply steps_bind; [apply steps_the_api|intro].
    apply steps_bind; [unfold format_article; stepping|intro].
    destruct a0 as [formatted|]; [|stepping].
    destruct (negb (truthy formatted)); [stepping|].
    apply steps_bind; [apply steps_the_api|intro].
    apply steps_bind; [apply steps_call_api|intro]. stepping.
  - intros e h H. destruct (is_Exception e); inversion H; subst. stepping.
Qed.

Lemma steps_single_file_turns fp pf text title max l :
  steps R (single_file_turns E fp pf text title max l).
Proof.
  induction l as [|rc l IH]; simpl; [stepping|].
  apply steps_bind; [apply steps_single_file_turn|].
  intros [|r]; [exact IH | stepping].
Qed.

Lemma steps_process_single_file fp pf :
  steps R (emit (EOpenRead fp)) ->
  steps R (process_single_file E fp pf).
Proof.
  intro Ho. unfold process_single_file. apply steps_try_except.
  - apply steps_bind; [exact Ho|intro].
    apply steps_bind; [stepping|intro]. cbv zeta. apply steps_single_file_turns.
  - intros e h H. destruct (is_Exception e); inversion H; subst. stepping.
Qed.

Lemma steps_process_file fp pf :
  steps R (emit (EOpenRead fp)) ->
  (forall d, steps R (emit (EMakedirs d))) ->
  (forall p c, steps R (emit (EWrite p c))) ->
  steps R (process_file E fp pf).
Proof.
  intros Ho Hm Hw. unfold process_file. apply steps_try_except.
  - apply steps_bind; [apply steps_process_single_file, Ho|].
    intros [[title|] [result|]]; try solve [stepping].
    destruct (negb (truthy title) || negb (truthy result)); [stepping|].
    apply steps_bind; [apply steps_the_api|intro api].
    apply steps_bind; [unfold format_to_md; stepping|intro md].
    apply steps_bind.
    { destruct api; [destruct (nth_error _ _)|..]; stepping. }
    intro names. cbv zeta.
    apply steps_bind; [stepping|intro].
    apply steps_bind; [apply Hm|intro].
    apply steps_bind; [stepping|intro].
    apply steps_bind; [apply Hw|intro]. stepping.
  - intros e h H. destruct (is_Exception e); inversion H; subst. stepping.
Qed.

Lemma steps_progress_loop fuel : forall remaining,
  steps R (progress_loop E fuel remaining).
Proof.
  induction fuel as [|fuel IH]; intro remaining; simpl; [stepping|].
  destruct (Qlt_bool 0 remaining); [|stepping].
  apply steps_bind; [stepping|intro]. apply IH.
Qed.

Lemma steps_wait rl msg :
  steps R (emit (EWait msg)) -> steps R (wait E rl msg).
Proof.
  intro Hw. unfold wait. apply steps_bind; [exact Hw|intro].
  apply steps_bind; [stepping|intro now0]. cbv zeta.
  apply steps_bind.
  { destruct (Qlt_bool _ _); [|stepping].
    destruct (show_progress (config rl)); [apply steps_progress_loop|stepping]. }
  intro. stepping.
Qed.

End Lower.

(** *** The analyser object is out of reach of the lower layers *)

Lemma untouched_refl s : untouched s [] s.
Proof. unfold untouched. tauto. Qed.

Lemma untouched_trans s n1 s1 n2 s2 :
  untouched s n1 s1 -> untouched s1 n2 s2 -> untouched s (n1 ++ n2) s2.
Proof.
  unfold untouched. intros (A1 & A2 & A3 & A4 & A5) (B1 & B2 & B3 & B4 & B5).
  rewrite B1, B2, B3, B4, B5. tauto.
Qed.

Lemma untouched_emit ev : steps untouched (emit ev).
Proof. intro s. exists [ev]. split; [reflexivity|]. unfold untouched. simpl. tauto. Qed.

Lemma untouched_sleep E d : steps untouched (sleep E d).
Proof.
  intro s. unfold sleep. destruct (interrupt E (sleeps s)); simpl;
    eexists; (split; [reflexivity|]); unfold untouched; simpl; tauto.
Qed.

Lemma untouched_remote E ep : steps untouched (remote E ep).
Proof.
  intro s. unfold remote. destruct (transport E (remotes s)); simpl;
    eexists; (split; [reflexivity|]); unfold untouched; simpl; tauto.
Qed.

Lemma untouched_process_single_file E fp pf :
  steps untouched (process_single_file E fp pf).
Proof.
  apply (steps_process_single_file untouched untouched_refl untouched_trans E
           (untouched_sleep E) (untouched_remote E) (fun m => untouched_emit _)).
  apply untouched_emit.
Qed.

Lemma untouched_process_file E fp pf : steps untouched (process_file E fp pf).
Proof.
  apply (steps_process_file untouched untouched_refl untouched_trans E
           (untouched_sleep E) (untouched_remote E) (fun m => untouched_emit _));
    intros; apply untouched_emit.
Qed.

Lemma untouched_wait E rl msg : steps untouched (wait E rl msg).
Proof.
  apply (steps_wait untouched untouched_refl untouched_trans E
           (untouched_sleep E)).
  apply untouched_emit.
Qed.

Lemma untouched_call_api E api text prompt max :
  steps untouched (call_api E api text prompt max).
Proof.
  apply (steps_call_api untouched untouched_refl untouched_trans E
           (untouched_sleep E) (untouched_remote E) (fun m => untouched_emit _)).
Qed.

(** *** The clock moves by what was slept, at least *)

Lemma slept_app l1 l2 : slept (l1 ++ l2) == slept l1 + slept l2.
Proof.
  induction l1 as [|ev l1 IH]; simpl; [lra|].
  destruct ev; try exact IH. rewrite IH. lra.
Qed.

Lemma no_sooner_refl s : no_sooner s [] s.
Proof. unfold no_sooner. simpl. lra. Qed.

Lemma no_sooner_trans s n1 s1 n2 s2 :
  no_sooner s n1 s1 -> no_sooner s1 n2 s2 -> no_sooner s (n1 ++ n2) s2.
Proof. unfold no_sooner. intros A B. rewrite slept_app. lra. Qed.

Lemma no_sooner_emit ev : is_sleep ev = false -> steps no_sooner (emit ev).
Proof.
  intros H s. exists [ev]. split; [reflexivity|]. unfold no_sooner. simpl.
  destruct ev; try discriminate H; simpl; lra.
Qed.

Section Lagging.

Variable E : Env.
Hypothesis lag_nonneg : forall n, 0 <= sleep_lag E n.

Lemma no_sooner_sleep d : steps no_sooner (sleep E d).
Proof.
  intro s. unfold sleep. destruct (interrupt E (sleeps s)); simpl;
    eexists; (split; [reflexivity|]); unfold no_sooner; simpl.
  - lra.
  - specialize (lag_nonneg (sleeps s)). lra.
Qed.

Lemma no_sooner_remote ep : steps no_sooner (remote E ep).
Proof.
  intro s. unfold remote. destruct (transport E (remotes s)); simpl;
    eexists; (split; [reflexivity|]); unfold no_sooner; simpl; lra.
Qed.

Lemma no_sooner_print m : steps no_sooner (print m).
Proof. apply no_sooner_emit. reflexivity. Qed.

Lemma no_sooner_call_api api text prompt max :
  steps no_sooner (call_api E api text prompt max).
Proof.
  apply (steps_call_api no_sooner no_sooner_refl no_sooner_trans E
           no_sooner_sleep no_sooner_remote no_sooner_print).
Qed.

End Lagging.

(** *** Nothing reaches the disk before [process_file] saves *)

Lemma off_disk_refl s : off_disk s [] s.
Proof. reflexivity. Qed.

Lemma off_disk_trans s n1 s1 n2 s2 :
  off_disk s n1 s1 -> off_disk s1 n2 s2 -> off_disk s (n1 ++ n2) s2.
Proof. unfold off_disk. intros A B. rewrite filter_app, A, B. reflexivity. Qed.

Lemma off_disk_emit ev : is_disk ev = false -> steps off_disk (emit ev).
Proof.
  intros H s. exists [ev]. split; [reflexivity|]. unfold off_disk. simpl.
  rewrite H. reflexivity.
Qed.

Lemma off_disk_sleep E d : steps off_disk (sleep E d).
Proof.
  intro s. unfold sleep. destruct (interrupt E (sleeps s)); simpl;
    eexists; (split; [reflexivity|]); reflexivity.
Qed.

Lemma off_disk_remote E ep : steps off_disk (remote E ep).
Proof.
  intro s. unfold remote. destruct (transport E (remotes s)); simpl;
    eexists; (split; [reflexivity|]); reflexivity.
Qed.

Lemma off_disk_process_single_file E fp pf :
  steps off_disk (process_single_file E fp pf).
Proof.
  apply (steps_process_single_file off_disk off_disk_refl off_disk_trans E
           (off_disk_sleep E) (off_disk_remote E)
           (fun m => off_disk_emit (EPrint m) eq_refl)).
  apply off_disk_emit. reflexivity.
Qed.

(** ** The rate limiter, further *)

Lemma wait_result E rl msg s rl1 s1 :
  wait E rl msg s = (Ok rl1, s1) -> rl1 = MkRateLimiter (config rl) (clock s1).
Proof.
  rewrite wait_unfold. cbv zeta.
  match goal with
  | |- match ?x with _ => _ end = _ -> _ => destruct x as [[[]|e] s2]
  end; intro H; inversion H; reflexivity.
Qed.

(** X2. The timestamp moves when the wait returns, and only then. *)
Theorem wait_stamps_only_on_return (E : Env) (msg : WaitMsg) (s : State) :
  match rate_limiter_wait E msg s with
  | (Ok _, s') =>
      exists rl, self_rate_limiter s = Some rl /\
                 self_rate_limiter s' = Some (MkRateLimiter (config rl) (clock s'))
  | (Raise _, s') => self_rate_limiter s' = self_rate_limiter s
  end.
Proof.
  destruct (self_rate_limiter s) as [rl|] eqn:Hrl.
  - rewrite (rate_limiter_wait_some E msg s rl Hrl). unfold bind.
    destruct (untouched_wait E rl (Some msg) s) as (new & _ & U & _).
    destruct (wait E rl (Some msg) s) as [[rl1|e] s1] eqn:W; simpl in U.
    + exists rl. split; [reflexivity|]. simpl.
      rewrite (wait_result _ _ _ _ _ _ W). reflexivity.
    + rewrite U. exact Hrl.
  - rewrite (rate_limiter_wait_none E msg s Hrl). exact Hrl.
Qed.

(** ** The clients, further *)

(** *** A bound on the attempts, whatever the service does *)

Section Costs.

Variable f : Event -> bool.

Lemma costs_still {A} (m : M A) : (forall s, snd (m s) = s) -> costs f 0 m.
Proof. intros H s. exists []. rewrite H, app_nil_r. auto. Qed.

Lemma costs_le {A} n n' (m : M A) : (n <= n')%nat -> costs f n m -> costs f n' m.
Proof.
  intros Hn Hm s. destruct (Hm s) as (new & T & C). exists new. split; [exact T|lia].
Qed.

Lemma costs_bind {A B} n k (m : M A) (c : A -> M B) :
  costs f n m -> (forall a, costs f k (c a)) -> costs f (n + k) (bind m c).
Proof.
  intros Hm Hk s. destruct (Hm s) as (n1 & T1 & C1).
  unfold bind. destruct (m s) as [[a|e] s1]; simpl in T1.
  - destruct (Hk a s1) as (n2 & T2 & C2). exists (n1 ++ n2). split.
    + rewrite T2, T1. symmetry. apply app_assoc.
    + rewrite filter_app, length_app. lia.
  - exists n1. split; [exact T1|lia].
Qed.

Lemma costs_try_except {A} n k (body : M A) handler :
  costs f n body ->
  (forall e h, handler e = Some h -> costs f k h) ->
  costs f (n + k) (try_except body handler).
Proof.
  intros Hm Hh s. destruct (Hm s) as (n1 & T1 & C1).
  unfold try_except. destruct (body s) as [[a|e] s1]; simpl in T1.
  - exists n1. split; [exact T1|lia].
  - destruct (handler e) as [h|] eqn:Hhe.
    + destruct (Hh e h Hhe s1) as (n2 & T2 & C2). exists (n1 ++ n2). split.
      * rewrite T2, T1. symmetry. apply app_assoc.
      * rewrite filter_app, length_app. lia.
    + exists n1. split; [exact T1|lia].
Qed.

Lemma costs_emit ev : costs f (weight f ev) (emit ev).
Proof.
  intro s. exists [ev]. split; [reflexivity|]. unfold weight. simpl.
  destruct (f ev); simpl; lia.
Qed.

Hypothesis f_sleep : forall d, f (ESleep d) = false.
Hypothesis f_interrupt : f EInterrupt = false.
Hypothesis f_print : forall m, f (EPrint m) = false.

Lemma free_bind {A B} (m : M A) (c : A -> M B) :
  costs f 0 m -> (forall a, costs f 0 (c a)) -> costs f 0 (bind m c).
Proof. intros Hm Hc. apply (costs_bind 0 0 m c Hm Hc). Qed.

Lemma free_print m : costs f 0 (print m).
Proof.
  intro s. exists [EPrint m]. split; [reflexivity|]. simpl. rewrite f_print. simpl. lia.
Qed.

Variable E : Env.

Lemma free_sleep d : costs f 0 (sleep E d).
Proof.
  intro s. unfold sleep. destruct (interrupt E (sleeps s)); simpl;
    eexists; (split; [reflexivity|]); simpl; rewrite ?f_sleep, ?f_interrupt; simpl; lia.
Qed.

Lemma costs_remote ep : costs f (weight f (ERemote ep)) (remote E ep).
Proof.
  intro s. unfold remote, weight. destruct (transport E (remotes s)); simpl;
    eexists; (split; [reflexivity|]); simpl; destruct (f (ERemote ep)); simpl; lia.
Qed.

Ltac free :=
  repeat first
    [ apply free_print | apply free_sleep
    | apply costs_still; reflexivity
    | apply free_bind; [|intro]
    | match goal with
      | |- costs _ _ (match ?x with _ => _ end) => destruct x
      | |- costs _ _ (if ?b then _ else _) => destruct b
      end ].

Ltac free_handler :=
  let e := fresh "e" in
  let h := fresh "h" in
  let H := fresh "H" in
  intros e h H; unfold is_Exception in H;
  destruct (exn_class e); inversion H; subst; free.

Lemma costs_attempt_of api max i :
  costs f (attempt_cost f api) (attempt_of E api max i).
Proof.
  destruct api; unfold attempt_of, attempt_cost, gemini_attempt, kimi_attempt,
    deepseek_attempt.
  - apply (costs_le (weight f (ERemote GenerateContent) + 0 + 0)); [lia|].
    apply costs_try_except; [|free_handler].
    apply costs_bind; [apply costs_remote|intro]. free.
  - apply (costs_le (weight f (ERemote PostSystem)
                     + (0 + (0 + (weight f (ERemote PostUser) + 0))) + 0)); [lia|].
    apply costs_try_except; [|free_handler].
    apply costs_bind; [apply costs_remote|intro].
    apply costs_bind; [free|intro].
    apply costs_bind; [free|intro].
    apply costs_bind; [apply costs_remote|intro]. free.
  - apply (costs_le (weight f (ERemote ChatCreate) + 0 + 0)); [lia|].
    apply costs_try_except; [|free_handler].
    apply costs_bind; [apply costs_remote|intro]. free.
Qed.

Lemma costs_attempts_of api max l :
  costs f (List.length l * attempt_cost f api) (attempts_of E api max l).
Proof.
  induction l as [|i l IH].
  - rewrite attempts_of_nil. simpl. free.
  - rewrite attempts_of_cons. simpl List.length.
    apply (costs_le (attempt_cost f api + List.length l * attempt_cost f api)); [lia|].
    apply costs_bind; [apply costs_attempt_of|].
    intros [|r]; [exact IH|].
    apply (costs_le 0); [lia|]. free.
Qed.

Lemma costs_call_api api text prompt max :
  costs f (max * attempt_cost f api) (call_api E api text prompt max).
Proof.
  rewrite call_api_unfold.
  apply (costs_le (0 + (0 + max * attempt_cost f api))); [lia|].
  apply costs_bind; [free|intro].
  apply costs_bind; [free|intro].
  apply (costs_le (List.length (range max) * attempt_cost f api)).
  { unfold range. rewrite length_seq. lia. }
  apply costs_attempts_of.
Qed.

End Costs.

(** X3. Whatever the service answers, [call_api] makes at most [max_retries]
    attempts, and at most that many remote calls -- twice as many for the
    Kimi client. *)
Theorem call_api_stays_within_max_retries (E : Env) (api : Api)
    (text prompt : string) (max_retries : nat) (s : State) :
  exists new,
    trace (snd (call_api E api text prompt max_retries s)) = trace s ++ new /\
    (remote_attempts new <= max_retries)%nat /\
    (List.length (filter is_remote new)
     <= max_retries * calls_of_success api)%nat.
Proof.
  destruct (costs_call_api is_attempt (fun _ => eq_refl) eq_refl (fun _ => eq_refl)
              E api text prompt max_retries s) as (n1 & T1 & C1).
  destruct (costs_call_api is_remote (fun _ => eq_refl) eq_refl (fun _ => eq_refl)
              E api text prompt max_retries s) as (n2 & T2 & C2).
  rewrite T1 in T2. apply app_inv_head in T2. subst n2.
  exists n1. split; [exact T1|]. split.
  - unfold remote_attempts.
    destruct api; unfold attempt_cost, weight in C1; simpl in C1; lia.
  - destruct api; unfold attempt_cost, weight in C2; simpl in C2 |- *; lia.
Qed.

(** *** No [Exception] leaves [call_api] *)

Lemma contained_ret {A} (a : A) : contains_errors (ret a).
Proof. intros s e H. discriminate H. Qed.

Lemma contained_emit ev : contains_errors (emit ev).
Proof. intros s e H. discriminate H. Qed.

Lemma contained_sleep E d : contains_errors (sleep E d).
Proof.
  intros s e. unfold sleep. destruct (interrupt E (sleeps s)); simpl; intro H;
    inversion H. reflexivity.
Qed.

Lemma contained_bind {A B} (m : M A) (k : A -> M B) :
  contains_errors m -> (forall a, contains_errors (k a)) ->
  contains_errors (bind m k).
Proof.
  intros Hm Hk s e. unfold bind.
  destruct (m s) as [[a|e'] s1] eqn:R.
  - apply Hk.
  - intro H. inversion H; subst. apply (Hm s). rewrite R. reflexivity.
Qed.

Lemma contained_try_except {A} (body : M A) handler :
  (forall e, handler e = None -> is_Exception e = false) ->
  (forall e h, handler e = Some h -> contains_errors h) ->
  contains_errors (try_except body handler).
Proof.
  intros Hn Hh s e. unfold try_except.
  destruct (body s) as [[a|e'] s1]; [discriminate|].
  destruct (handler e') as [h|] eqn:He.
  - apply (Hh e' h He).
  - intro H. inversion H; subst. apply Hn, He.
Qed.

Ltac contained :=
  repeat first
    [ apply contained_ret | apply contained_emit | apply contained_sleep
    | apply contained_bind; [|intro] ].

Lemma contained_attempt_of E api max i : contains_errors (attempt_of E api max i).
Proof.
  destruct api; unfold attempt_of, gemini_attempt, kimi_attempt, deepseek_attempt;
    (apply contained_try_except;
     [ intros e; unfold is_Exception; destruct (exn_class e); congruence
     | intros e h; unfold is_Exception, print; destruct (exn_class e);
       intro H; inversion H; subst; contained ]).
Qed.

Lemma contained_attempts_of E api max l : contains_errors (attempts_of E api max l).
Proof.
  induction l as [|i l IH].
  - rewrite attempts_of_nil. unfold print. contained.
  - rewrite attempts_of_cons. apply contained_bind; [apply contained_attempt_of|].
    intros [|r]; [exact IH | contained].
Qed.

Lemma contained_call_api E api text prompt max :
  contains_errors (call_api E api text prompt max).
Proof.
  rewrite call_api_unfold. unfold print. contained. apply contained_attempts_of.
Qed.

(** X4. Whatever the service does, [call_api] returns a text or [None], or
    is cut short by something that is no [Exception]. *)
Theorem call_api_lets_no_exception_out (E : Env) (api : Api)
    (text prompt : string) (max_retries : nat) (s : State) :
  match fst (call_api E api text prompt max_retries s) with
  | Ok _ => True
  | Raise e => is_Exception e = false
  end.
Proof.
  destruct (fst (call_api E api text prompt max_retries s)) as [r|e] eqn:H;
    [exact I|].
  apply (contained_call_api E api text prompt max_retries s e H).
Qed.

(** *** The second request of the Kimi client *)

Section Kimi.

Variable E : Env.
Hypothesis calm : forall n, interrupt E n = false.

Lemma kimi_attempt_second_fails max attempt s c e :
  transport E (remotes s) = Responds c ->
  transport E (S (remotes s)) = Raises e ->
  exn_class e = RequestException ->
  exists s', kimi_attempt E max attempt s = (Ok Continue, s') /\
             advances s s' (kimi_second_fails max attempt e) 2.
Proof.
  intros H1 H2 Hc. unfold kimi_attempt. run_step.
  rewrite H1. simpl. rewrite calm. simpl. rewrite H2. simpl. rewrite Hc.
  simpl. rewrite calm.
  eexists; split; [reflexivity | close_advances].
Qed.

Lemma kimi_attempts_second_fails max (answer : nat -> Result string) err n : forall a s,
  (forall i, (i < n)%nat ->
     transport E (remotes s + 2 * i) = Responds (answer (a + i)%nat) /\
     transport E (remotes s + 2 * i + 1) = Raises (err (a + i)%nat) /\
     exn_class (err (a + i)%nat) = RequestException) ->
  exists s', kimi_attempts E max (seq a n) s = (Ok None, s') /\
             advances s s'
               (flat_map (fun i => kimi_second_fails max i (err i)) (seq a n)
                ++ [EPrint MsgAllFailed]) (2 * n).
Proof.
  induction n as [|n IH]; intros a s H.
  - simpl. run_step. eexists; split; [reflexivity|]. close_advances.
  - destruct (H 0%nat ltac:(lia)) as (H1 & H2 & Hc).
    replace (remotes s + 2 * 0)%nat with (remotes s) in H1, H2 by lia.
    replace (remotes s + 1)%nat with (S (remotes s)) in H2 by lia.
    replace (a + 0)%nat with a in H1, H2, Hc by lia.
    destruct (kimi_attempt_second_fails max a s _ _ H1 H2 Hc) as (s1 & R1 & A1).
    destruct (IH (S a) s1) as (s2 & R2 & A2).
    { intros i Hi. destruct A1 as (_ & -> & _).
      replace (remotes s + 2 + 2 * i)%nat with (remotes s + 2 * S i)%nat by lia.
      replace (S a + i)%nat with (a + S i)%nat by lia.
      apply H. lia. }
    exists s2. split.
    + cbn [seq kimi_attempts]. rewrite (bind_ok _ _ _ _ _ R1). exact R2.
    + cbn [seq flat_map]. rewrite <- app_assoc.
      replace (2 * S n)%nat with (2 + 2 * n)%nat by lia.
      apply (advances_trans _ _ _ _ _ _ _ A1 A2).
Qed.

(** X5. When the first request of every attempt is answered and the second
    fails with a [RequestException], the Kimi client starts over with the
    first request each time: two remote calls per attempt, [None] in the
    end. *)
Theorem kimi_resends_the_system_message (text prompt : string) (max_retries : nat)
    (answer : nat -> Result string) (err : nat -> exn) (s : State) :
  (forall i, (i < max_retries)%nat ->
     transport E (remotes s + 2 * i) = Responds (answer i) /\
     transport E (remotes s + 2 * i + 1) = Raises (err i) /\
     exn_class (err i) = RequestException) ->
  exists s',
    call_api E KimiAPI text prompt max_retries s = (Ok None, s') /\
    trace s' = trace s
               ++ [EPrint MsgThinking; ESleep 15]
               ++ flat_map (fun i => kimi_second_fails max_retries i (err i))
                           (range max_retries)
               ++ [EPrint MsgAllFailed] /\
    remotes s' = (remotes s + 2 * max_retries)%nat.
Proof.
  intro H. destruct (prelude E calm s) as (s0 & R0 & A0).
  destruct (kimi_attempts_second_fails max_retries answer err max_retries 0%nat s0)
    as (s1 & R1 & A1).
  { intros i Hi. destruct A0 as (_ & -> & _). rewrite Nat.add_0_r.
    simpl Nat.add. apply H, Hi. }
  exists s1. split.
  - rewrite (call_api_after_prelude E KimiAPI _ _ _ _ _ R0). exact R1.
  - pose proof (advances_trans _ _ _ _ _ _ _ A0 A1) as A.
    split; apply A.
Qed.

End Kimi.

(** *** An answer whose text cannot be read *)

Section Clients2.

Variable E : Env.
Hypothesis calm : forall n, interrupt E n = false.

Lemma attempt_unreadable api max attempt s e :
  (forall j, transport E (remotes s + j) = Responds (Raise e)) ->
  aborted_by api e = true ->
  exists s', attempt_of E api max attempt s = (Ok (Return None), s') /\
             advances s s'
               (successful_attempt api ++ [EPrint (MsgOtherError e)])
               (calls_of_success api).
Proof.
  intros Ht Ha. pose proof (Ht 0%nat) as H0. rewrite Nat.add_0_r in H0.
  pose proof (Ht 1%nat) as H1. rewrite Nat.add_1_r in H1.
  destruct e as [c t].
  destruct api; destruct c; try discriminate Ha;
    unfold attempt_of, gemini_attempt, kimi_attempt, deepseek_attempt;
    run_step; rewrite H0; simpl; rewrite ?calm; simpl; rewrite ?H1; simpl;
    rewrite ?calm; simpl;
    (eexists; split; [reflexivity | close_advances]).
Qed.

(** X6. A response that arrives but whose text raises on access -- a blocked
    answer -- ends the call of the Gemini and Kimi clients like a rejected
    request does, only after the post-call pause: one attempt, [None]. *)
Theorem unreadable_answer_ends_the_call (api : Api) (text prompt : string)
    (max_retries : nat) (e : exn) (s : State) :
  (0 < max_retries)%nat ->
  (forall j, transport E (remotes s + j) = Responds (Raise e)) ->
  aborted_by api e = true ->
  exists s',
    call_api E api text prompt max_retries s = (Ok None, s') /\
    trace s' = trace s ++ [EPrint MsgThinking; ESleep 15]
                       ++ successful_attempt api
                       ++ [EPrint (MsgOtherError e)] /\
    remote_attempts (trace s') = (remote_attempts (trace s) + 1)%nat.
Proof.
  intros Hm Ht Ha. destruct (prelude E calm s) as (s0 & R0 & A0).
  destruct (attempt_unreadable api max_retries 0%nat s0 e) as (s1 & R1 & A1); auto.
  { intro j. destruct A0 as (_ & -> & _). rewrite Nat.add_0_r. apply Ht. }
  pose proof (advances_trans _ _ _ _ _ _ _ A0 A1) as (T & _).
  exists s1. split; [|split].
  - rewrite (call_api_after_prelude E api _ _ _ _ _ R0).
    destruct max_retries as [|m]; [lia|]. unfold range. cbn [seq].
    rewrite attempts_of_cons. rewrite (bind_ok _ _ _ _ _ R1). reflexivity.
  - exact T.
  - rewrite T, !remote_attempts_app, remote_attempts_success.
    unfold remote_attempts. simpl. lia.
Qed.

(** *** How long giving up takes *)

Hypothesis lag_nonneg : forall n, 0 <= sleep_lag E n.

Lemma slept_failed api max err l :
  slept (flat_map (fun i => failed_attempt api max i (err i)) l)
  == fold_right Qplus 0 (map backoff l).
Proof.
  induction l as [|i l IH]; [reflexivity|].
  cbn [flat_map map fold_right]. rewrite slept_app, IH.
  unfold failed_attempt. simpl. lra.
Qed.

Lemma slept_exhausted api max err :
  slept (exhausted_run api max err) == 15 + total_backoff max.
Proof.
  unfold exhausted_run, total_backoff. rewrite !slept_app, slept_failed.
  simpl. lra.
Qed.

(** X7.  A [call_api] that runs out of attempts has asked [time.sleep]
    for the 15 seconds before the first attempt and for
    [10 + 5 ** attempt] seconds after each attempt, 76 seconds for the
    default of three attempts; as no sleep ends early, it returns that
    long after it was called at the earliest -- later by what the
    requests themselves take. *)
Theorem giving_up_takes (api : Api) (text prompt : string) (max_retries : nat)
    (err : nat -> exn) (s : State) :
  (forall i, (i < max_retries)%nat ->
     transport E (remotes s + i) = Raises (err i) /\
     retried_by api (err i) = true) ->
  exists s' new,
    call_api E api text prompt max_retries s = (Ok None, s') /\
    trace s' = trace s ++ new /\
    slept new == 15 + total_backoff max_retries /\
    clock s + (15 + total_backoff max_retries) <= clock s' /\
    (max_retries = 3%nat -> slept new == 76 /\ clock s + 76 <= clock s').
Proof.
  intro H.
  destruct (call_api_exhausted E calm api text prompt max_retries err s H)
    as (s' & R & (T & _)).
  destruct (no_sooner_call_api E lag_nonneg api text prompt max_retries s)
    as (new & T' & C).
  rewrite R in T', C. simpl in T', C. rewrite T in T'.
  apply app_inv_head in T'. subst new. unfold no_sooner in C.
  pose proof (slept_exhausted api max_retries err) as Sl.
  exists s', (exhausted_run api max_retries err).
  split; [exact R|]. split; [exact T|]. split; [exact Sl|].
  split; [rewrite <- Sl; exact C|].
  intros ->. assert (V : 15 + total_backoff 3 == 76) by (vm_compute; reflexivity).
  split; [rewrite Sl; exact V|rewrite <- V, <- Sl; exact C].
Qed.

End Clients2.

(** ** One job, further *)

Lemma the_api_none attr s :
  self_api s = None -> the_api attr s = (Raise (AttributeError attr), s).
Proof. unfold the_api, bind, get_api. intros ->. reflexivity. Qed.

(** [process_file] in terms of what [process_single_file] returns. *)
Lemma process_file_unfold E fp pf s :
  process_file E fp pf s =
  match process_single_file E fp pf s with
  | (Ok (Some title, Some result), s1) =>
      if negb (truthy title) || negb (truthy result) then (Ok (false, None), s1)
      else save_result E fp result s1
  | (Ok _, s1) => (Ok (false, None), s1)
  | (Raise e, s1) => on_exception e s1
  end.
Proof.
  unfold process_file, try_except, bind at 1.
  destruct (process_single_file E fp pf s) as [[[[title|] [result|]]|e] s1];
    try reflexivity.
  - destruct (negb (truthy title) || negb (truthy result)); [reflexivity|].
    unfold save_result.
    destruct (self_api s1) as [api|] eqn:Ha.
    + rewrite (bind_ok _ _ _ _ _ (the_api_some _ _ _ Ha)).
      unfold format_to_md, lift_result, bind at 1, on_exception.
      destruct (format_to_markdown E result) as [md|e];
        [|destruct (is_Exception e); reflexivity].
      unfold save_place.
      destruct api as [m| |];
        [destruct (nth_error (split_on "-" m) 1) as [v|]; [|reflexivity]|..];
        unfold bind, ret, emit; cbn [fst snd];
        (destruct (makedirs E _) as [[]|e];
         [|destruct (is_Exception e); reflexivity]);
        (destruct (write_text E _ md) as [[]|e];
         [|destruct (is_Exception e)]; reflexivity).
    + rewrite (bind_raise _ _ _ _ _ (the_api_none _ _ Ha)). reflexivity.
  - unfold on_exception. destruct (is_Exception e); reflexivity.
Qed.

Lemma save_result_shape E fp result s :
  match fst (save_result E fp result s) with
  | Ok r => well_formed r
  | Raise e => is_Exception e = false
  end.
Proof.
  unfold save_result, well_formed, on_exception.
  destruct (self_api s) as [api|]; [|simpl; auto].
  destruct (format_to_markdown E result) as [md|e];
    [|destruct (is_Exception e) eqn:H; simpl; auto].
  destruct (save_place E api fp) as [[dir name]|]; [|simpl; auto].
  destruct (makedirs E dir) as [[]|e];
    [|destruct (is_Exception e) eqn:H; simpl; auto].
  destruct (write_text E _ md) as [[]|e];
    [|destruct (is_Exception e) eqn:H; simpl; auto].
  simpl. right. eauto.
Qed.

(** X8. Nothing but a [BaseException] passes the boundary of a job: every
    [Exception] raised while reading, formatting, calling or saving becomes
    [(False, None)], and a path is returned exactly with [True]. *)
Theorem errors_stop_at_the_job (E : Env) (file_path prompt_file : string)
    (s : State) :
  match fst (process_file E file_path prompt_file s) with
  | Ok r => well_formed r
  | Raise e => is_Exception e = false
  end.
Proof.
  rewrite process_file_unfold.
  destruct (process_single_file E file_path prompt_file s)
    as [[[[title|] [result|]]|e] s1]; try (simpl; left; reflexivity).
  - destruct (negb (truthy title) || negb (truthy result));
      [simpl; left; reflexivity|apply save_result_shape].
  - unfold on_exception. destruct (is_Exception e) eqn:H; simpl; [left|]; auto.
Qed.

(** X9.  A job reports success only when its result has just been
    written: the trace of a job that returns [(True, path)] ends with
    the making of the directory and the write to that very path, and
    these are the only disk events of the job. *)
Theorem success_means_saved (E : Env) (file_path prompt_file path : string)
    (s s' : State) :
  process_file E file_path prompt_file s = (Ok (true, Some path), s') ->
  exists pre dir md,
    trace s' = trace s ++ pre ++ [EMakedirs dir; EWrite path md] /\
    filter is_disk pre = [].
Proof.
  rewrite process_file_unfold.
  destruct (off_disk_process_single_file E file_path prompt_file s) as (n1 & T1 & D1).
  unfold off_disk in D1.
  destruct (process_single_file E file_path prompt_file s)
    as [[[[title|] [result|]]|e] s1]; simpl in T1; try discriminate.
  - destruct (negb (truthy title) || negb (truthy result)); [discriminate|].
    unfold save_result, on_exception.
    destruct (self_api s1) as [api|]; [|discriminate].
    destruct (format_to_markdown E result) as [md|e];
      [|destruct (is_Exception e); discriminate].
    destruct (save_place E api file_path) as [[dir name]|]; [|discriminate].
    destruct (makedirs E dir) as [[]|e];
      [|destruct (is_Exception e); discriminate].
    destruct (write_text E _ md) as [[]|e];
      [|destruct (is_Exception e); discriminate].
    intro H. inversion H; subst. exists n1, dir, md. simpl. split; [|exact D1].
    rewrite T1, <- !app_assoc. reflexivity.
  - unfold on_exception. destruct (is_Exception e); discriminate.
Qed.

Lemma process_file_saved_path E fp pf s api path s' :
  self_api s = Some api ->
  process_file E fp pf s = (Ok (true, Some path), s') ->
  save_path E api fp = Some path.
Proof.
  intros Ha. rewrite process_file_unfold.
  destruct (untouched_process_single_file E fp pf s) as (n1 & _ & _ & U & _).
  destruct (process_single_file E fp pf s)
    as [[[[title|] [result|]]|e] s1]; simpl in U; try discriminate.
  - destruct (negb (truthy title) || negb (truthy result)); [discriminate|].
    unfold save_result, save_path, on_exception. rewrite U, Ha.
    destruct (format_to_markdown E result) as [md|e];
      [|destruct (is_Exception e); discriminate].
    destruct (save_place E api fp) as [[dir name]|]; [|discriminate].
    destruct (makedirs E dir) as [[]|e]; [|destruct (is_Exception e); discriminate].
    destruct (write_text E _ md) as [[]|e]; [|destruct (is_Exception e); discriminate].
    intro H. inversion H. reflexivity.
  - unfold on_exception. destruct (is_Exception e); discriminate.
Qed.

(** X10. A saved result lies where the active client puts it:
    [book_2/<Client>/<base>_<tag>.md], the tag of the Gemini client being
    "gemini" and the second dash-separated part of the model name. *)
Theorem saved_in_the_folder_of_the_client (E : Env) (api : Api)
    (file_path prompt_file path : string) (s s' : State) :
  self_api s = Some api ->
  process_file E file_path prompt_file s = (Ok (true, Some path), s') ->
  save_path E api file_path = Some path /\
  exists dir name,
    path = path_join E dir name /\
    dir = path_join E "book_2"
            (match api with
             | GeminiAPI _ => "Gemini" | KimiAPI => "Kimi" | DeepSeekAPI => "DeepSeek"
             end) /\
    prefix (splitext_root E (basename E file_path)) name = true.
Proof.
  intros Ha R. pose proof (process_file_saved_path E _ _ _ _ _ _ Ha R) as P.
  split; [exact P|].
  unfold save_path in P. destruct (save_place E api file_path) as [[dir name]|] eqn:Q;
    [|discriminate].
  inversion P. exists dir, name. split; [reflexivity|].
  assert (Hpre : forall a b, prefix a (String.append a b) = true).
  { induction a as [|c a IH]; intro b; simpl; [destruct b; reflexivity|].
    destruct (ascii_dec c c); [apply IH|congruence]. }
  unfold save_place in Q. destruct api as [m| |].
  - destruct (nth_error (split_on "-" m) 1); [|discriminate].
    inversion Q. split; [reflexivity|apply Hpre].
  - inversion Q. split; [reflexivity|apply Hpre].
  - inversion Q. split; [reflexivity|apply Hpre].
Qed.

(** X11. Two Gemini models whose names agree in their second dash-separated
    part save the result for a file under one and the same path. *)
Theorem gemini_models_share_a_path (E : Env) (file_path prompt_file : string)
    (m1 m2 p1 p2 : string) (s1 s1' s2 s2' : State) :
  self_api s1 = Some (GeminiAPI m1) ->
  self_api s2 = Some (GeminiAPI m2) ->
  nth_error (split_on "-" m1) 1 = nth_error (split_on "-" m2) 1 ->
  process_file E file_path prompt_file s1 = (Ok (true, Some p1), s1') ->
  process_file E file_path prompt_file s2 = (Ok (true, Some p2), s2') ->
  p1 = p2.
Proof.
  intros A1 A2 V R1 R2.
  pose proof (process_file_saved_path E _ _ _ _ _ _ A1 R1) as P1.
  pose proof (process_file_saved_path E _ _ _ _ _ _ A2 R2) as P2.
  unfold save_path, save_place in P1, P2. rewrite V in P1.
  rewrite P1 in P2. inversion P2. reflexivity.
Qed.

(** X12. With a Gemini model name that has no dash the job never succeeds,
    answer or no answer, and nothing reaches the disk. *)
Theorem gemini_model_without_dash_saves_nothing (E : Env)
    (file_path prompt_file model_name : string) (s : State) :
  self_api s = Some (GeminiAPI model_name) ->
  nth_error (split_on "-" model_name) 1 = None ->
  exists new,
    trace (snd (process_file E file_path prompt_file s)) = trace s ++ new /\
    filter is_disk new = [] /\
    forall saved, fst (process_file E file_path prompt_file s) <> Ok (true, saved).
Proof.
  intros Ha Hv. rewrite process_file_unfold.
  destruct (off_disk_process_single_file E file_path prompt_file s) as (n1 & T1 & D1).
  destruct (untouched_process_single_file E file_path prompt_file s)
    as (n1' & _ & _ & U & _).
  unfold off_disk in D1. exists n1.
  destruct (process_single_file E file_path prompt_file s)
    as [[[[title|] [result|]]|e] s1]; simpl in T1, U;
    try (split; [exact T1|split; [exact D1|intro; discriminate]]).
  - destruct (negb (truthy title) || negb (truthy result));
      [split; [exact T1|split; [exact D1|intro; discriminate]]|].
    unfold save_result, save_place, on_exception. rewrite U, Ha, Hv.
    destruct (format_to_markdown E result) as [md|e];
      [|destruct (is_Exception e)];
      (split; [exact T1|split; [exact D1|intro; discriminate]]).
  - unfold on_exception. destruct (is_Exception e);
      (split; [exact T1|split; [exact D1|intro; discriminate]]).
Qed.

(** *** A job that never reaches the service *)

(** X13. A file that cannot be read fails the job at once: no prompt is
    built, no remote call made, no sleep. *)
Theorem unreadable_file_fails_at_once (E : Env) (file_path prompt_file : string)
    (e : exn) (s : State) :
  read_text E file_path = Raise e ->
  is_Exception e = true ->
  process_file E file_path prompt_file s
  = (Ok (false, None), log (EOpenRead file_path) s).
Proof.
  intros Hr He. rewrite process_file_unfold.
  unfold process_single_file, try_except, bind, emit, lift_result.
  rewrite Hr, He. reflexivity.
Qed.

Lemma process_single_file_reads E fp pf text s :
  read_text E fp = Ok text ->
  process_single_file E fp pf s =
  match single_file_turns E fp pf text (splitext_root E (basename E fp)) 3
          (range 3) (log (EOpenRead fp) s) with
  | (Ok r, s1) => (Ok r, s1)
  | (Raise e, s1) =>
      if is_Exception e then (Ok (None, None), s1) else (Raise e, s1)
  end.
Proof.
  intro Hr. unfold process_single_file, try_except, bind, emit, lift_result.
  rewrite Hr.
  destruct (single_file_turns _ _ _ _ _ _ _ _) as [[r|e] s1]; [reflexivity|].
  destruct (is_Exception e); reflexivity.
Qed.

(** X14. When the prompt comes out empty, or building it raises an error
    that says "blocked prompt" in any case of letters, the job fails at
    once: no remote call, no sleep, no second try. *)
Theorem unusable_prompt_fails_at_once (E : Env) (api : Api)
    (file_path prompt_file text : string) (s : State) :
  self_api s = Some api ->
  read_text E file_path = Ok text ->
  (exists o, get_prompt E (splitext_root E (basename E file_path)) text prompt_file
             = Ok o /\ truthy_opt o = false)
  \/ (exists e, get_prompt E (splitext_root E (basename E file_path)) text prompt_file
                = Raise e /\ is_Exception e = true /\
                contains "blocked prompt" (lower (exn_text e)) = true) ->
  process_file E file_path prompt_file s
  = (Ok (false, None), log (EOpenRead file_path) s).
Proof.
  intros Ha Hr Hp. rewrite process_file_unfold, (process_single_file_reads _ _ _ _ _ Hr).
  unfold range. cbn [seq single_file_turns]. unfold bind at 1.
  unfold single_file_turn, try_except.
  assert (Ha' : self_api (log (EOpenRead file_path) s) = Some api) by exact Ha.
  rewrite (bind_ok _ _ _ _ _ (the_api_some _ _ _ Ha')).
  unfold format_article, lift_result, bind at 1.
  destruct Hp as [(o & -> & Ho)|(e & -> & He & Hb)].
  - destruct o as [formatted|]; [|reflexivity].
    simpl in Ho. rewrite Ho. reflexivity.
  - rewrite He, Hb. reflexivity.
Qed.

Lemma single_file_turn_prompt_raises E api fp pf text title rc e s :
  (forall n, interrupt E n = false) ->
  self_api s = Some api ->
  get_prompt E title text pf = Raise e ->
  is_Exception e = true ->
  contains "blocked prompt" (lower (exn_text e)) = false ->
  exists s',
    single_file_turn E fp pf text title 3 rc s = (Ok Continue, s') /\
    self_api s' = self_api s /\
    trace s' = trace s ++ (if (rc <? 2)%nat
                           then [ESleep (inject_Z (Z.of_nat ((rc + 1) * 60)))]
                           else []).
Proof.
  intros calm Ha Hp He Hb. unfold single_file_turn, try_except.
  rewrite (bind_ok _ _ _ _ _ (the_api_some _ _ _ Ha)).
  unfold format_article. rewrite Hp.
  rewrite (bind_raise (lift_result _) _ s e s eq_refl).
  rewrite He, Hb. change (3 - 1)%nat with 2%nat.
  destruct (rc <? 2)%nat.
  - unfold bind, sleep. rewrite calm. eexists. split; [reflexivity|]. split; reflexivity.
  - eexists. split; [reflexivity|]. split; [reflexivity|]. symmetry. apply app_nil_r.
Qed.

(** X15. When building the prompt raises any other error, it is tried three
    times, with a minute of sleep after the first failure and two after the
    second, none after the third; the job then fails without a remote call. *)
Theorem failing_prompt_is_retried_with_longer_pauses (E : Env) (api : Api)
    (file_path prompt_file text : string) (e : exn) (s : State) :
  (forall n, interrupt E n = false) ->
  self_api s = Some api ->
  read_text E file_path = Ok text ->
  get_prompt E (splitext_root E (basename E file_path)) text prompt_file = Raise e ->
  is_Exception e = true ->
  contains "blocked prompt" (lower (exn_text e)) = false ->
  exists s',
    process_file E file_path prompt_file s = (Ok (false, None), s') /\
    trace s' = trace s ++ [EOpenRead file_path; ESleep 60; ESleep 120].
Proof.
  intros calm Ha Hr Hp He Hb.
  rewrite process_file_unfold, (process_single_file_reads _ _ _ _ _ Hr).
  set (title := splitext_root E (basename E file_path)) in *.
  destruct (single_file_turn_prompt_raises E api file_path prompt_file text title
              0%nat e (log (EOpenRead file_path) s) calm Ha Hp He Hb)
    as (s1 & R1 & A1 & T1).
  destruct (single_file_turn_prompt_raises E api file_path prompt_file text title
              1%nat e s1 calm (eq_trans A1 Ha) Hp He Hb) as (s2 & R2 & A2 & T2).
  destruct (single_file_turn_prompt_raises E api file_path prompt_file text title
              2%nat e s2 calm (eq_trans A2 (eq_trans A1 Ha)) Hp He Hb)
    as (s3 & R3 & A3 & T3).
  unfold range. cbn [seq single_file_turns].
  rewrite (bind_ok _ _ _ _ _ R1), (bind_ok _ _ _ _ _ R2), (bind_ok _ _ _ _ _ R3).
  exists s3. split; [reflexivity|].
  rewrite T3, T2, T1. simpl. rewrite <- !app_assoc. reflexivity.
Qed.

(** *** A job that goes well *)

(** X16. When the file can be read, the prompt is built, the service answers
    at once and the result can be formatted and written, the job succeeds
    after a single attempt, and what it writes to the client's path is the
    formatted answer. *)
Theorem answered_job_is_saved (E : Env) (api : Api)
    (file_path prompt_file text formatted answer md dir name : string) (s : State) :
  (forall n, interrupt E n = false) ->
  self_api s = Some api ->
  read_text E file_path = Ok text ->
  get_prompt E (splitext_root E (basename E file_path)) text prompt_file
    = Ok (Some formatted) ->
  truthy formatted = true ->
  truthy (splitext_root E (basename E file_path)) = true ->
  (forall j, transport E (remotes s + j) = Responds (Ok answer)) ->
  truthy answer = true ->
  format_to_markdown E answer = Ok md ->
  save_place E api file_path = Some (dir, name) ->
  makedirs E dir = Ok tt ->
  write_text E (path_join E dir name) md = Ok tt ->
  exists s',
    process_file E file_path prompt_file s
    = (Ok (true, Some (path_join E dir name)), s') /\
    trace s' = trace s
               ++ EOpenRead file_path
               :: [EPrint MsgThinking; ESleep 15]
               ++ successful_attempt api
               ++ [EMakedirs dir; EWrite (path_join E dir name) md] /\
    self_rate_limiter s' = self_rate_limiter s.
Proof.
  intros calm Ha Hr Hp Hf Ht Hs Hv Hm Hpl Hd Hw.
  set (title := splitext_root E (basename E file_path)) in *.
  set (s0 := log (EOpenRead file_path) s).
  destruct (call_api_recovers E calm api text formatted 3%nat (fun _ => unavailable)
              answer 0%nat s0) as (s1 & R1 & A1).
  { lia. } { intros i Hi. lia. } { intros j _. apply Hs. }
  destruct A1 as (T1 & _ & A1 & L1 & _).
  rewrite process_file_unfold, (process_single_file_reads _ _ _ _ _ Hr).
  fold title. fold s0. unfold range. cbn [seq single_file_turns].
  assert (R : single_file_turn E file_path prompt_file text title 3 0 s0
              = (Ok (Return (Some title, Some answer)), s1)).
  { unfold single_file_turn, try_except.
    rewrite (bind_ok _ _ _ _ _ (the_api_some "format_article" s0 api Ha)).
    unfold format_article. rewrite Hp.
    rewrite (bind_ok (lift_result _) _ s0 (Some formatted) s0 eq_refl).
    rewrite Hf. cbn [negb].
    rewrite (bind_ok _ _ _ _ _ (the_api_some "call_api" s0 api Ha)).
    rewrite (bind_ok _ _ _ _ _ R1). unfold truthy_opt. rewrite Hv. reflexivity. }
  rewrite (bind_ok _ _ _ _ _ R). cbv beta iota. unfold ret at 1.
  rewrite Ht, Hv. cbn [negb orb].
  unfold save_result. rewrite A1. change (self_api s0) with (self_api s).
  rewrite Ha, Hm, Hpl, Hd, Hw.
  eexists. split; [reflexivity|]. split.
  - simpl. rewrite T1. simpl. rewrite <- !app_assoc. reflexivity.
  - simpl. rewrite L1. reflexivity.
Qed.

(** *** What a job can cost *)

Section JobCosts.

Variable f : Event -> bool.
Hypothesis f_remote : forall ev, f ev = true -> exists ep, ev = ERemote ep.

Variable n : nat.
Hypothesis n_bound : forall api, (attempt_cost f api <= n)%nat.

Variable E : Env.

Lemma f_local ev : (forall ep, ev <> ERemote ep) -> f ev = false.
Proof.
  intro H. destruct (f ev) eqn:F; [|reflexivity].
  destruct (f_remote ev F) as (ep & ->). exfalso. apply (H ep). reflexivity.
Qed.

Lemma free_emit ev : (forall ep, ev <> ERemote ep) -> costs f 0 (emit ev).
Proof.
  intro H. apply (costs_le f (weight f ev) 0); [|apply costs_emit].
  unfold weight. rewrite (f_local ev H). lia.
Qed.

Lemma free_the_api attr : costs f 0 (the_api attr).
Proof.
  apply costs_still. intro s. unfold the_api, bind, get_api.
  destruct (self_api s); reflexivity.
Qed.

Lemma costs_call_api_any api text prompt :
  costs f (3 * n) (call_api E api text prompt 3).
Proof.
  apply (costs_le f (3 * attempt_cost f api)); [specialize (n_bound api); lia|].
  apply costs_call_api; intros; apply f_local; intros ep H; discriminate H.
Qed.

Lemma costs_single_file_turn fp pf text title rc :
  costs f (3 * n) (single_file_turn E fp pf text title 3 rc).
Proof.
  unfold single_file_turn.
  apply (costs_le f (3 * n + 0)); [lia|].
  apply costs_try_except.
  - apply (costs_bind f 0 (3 * n)); [apply free_the_api|intro api].
    apply (costs_bind f 0 (3 * n)); [apply costs_still; reflexivity|intros [formatted|]].
    + destruct (negb (truthy formatted)).
      * apply (costs_le f 0); [lia|]. apply costs_still. reflexivity.
      * apply (costs_bind f 0 (3 * n)); [apply free_the_api|intro api'].
        apply (costs_le f (3 * n + 0)); [lia|].
        apply costs_bind; [apply costs_call_api_any|intro result].
        destruct (truthy_opt result); apply costs_still; reflexivity.
    + apply (costs_le f 0); [lia|]. apply costs_still. reflexivity.
  - intros e h H. destruct (is_Exception e); inversion H; subst; clear H.
    destruct (contains _ _); [apply costs_still; reflexivity|].
    apply (costs_bind f 0 0); [|intro; apply costs_still; reflexivity].
    change (3 - 1)%nat with 2%nat.
    destruct (rc <? 2)%nat; [|apply costs_still; reflexivity].
    apply free_sleep; intros; apply f_local; intros ep H'; discriminate H'.
Qed.

Lemma costs_single_file_turns fp pf text title l :
  costs f (List.length l * (3 * n))
        (single_file_turns E fp pf text title 3 l).
Proof.
  induction l as [|rc l IH].
  - apply costs_still. reflexivity.
  - cbn [single_file_turns List.length].
    apply (costs_le f (3 * n + List.length l * (3 * n))); [lia|].
    apply costs_bind; [apply costs_single_file_turn|].
    intros [|r]; [exact IH|].
    apply (costs_le f 0); [lia|]. apply costs_still. reflexivity.
Qed.

Lemma costs_process_single_file fp pf :
  costs f (9 * n) (process_single_file E fp pf).
Proof.
  unfold process_single_file.
  apply (costs_le f (0 + (0 + 3 * (3 * n)) + 0)); [lia|].
  apply costs_try_except.
  - apply costs_bind; [apply free_emit; intros ep H; discriminate H|intro].
    apply costs_bind; [apply costs_still; reflexivity|intro text].
    apply (costs_single_file_turns fp pf text _ (range 3)).
  - intros e h H. destruct (is_Exception e); inversion H; subst.
    apply costs_still. reflexivity.
Qed.

Lemma costs_process_file fp pf : costs f (9 * n) (process_file E fp pf).
Proof.
  intro s. rewrite process_file_unfold.
  destruct (costs_process_single_file fp pf s) as (new & T & C).
  destruct (process_single_file E fp pf s) as [[[[title|] [result|]]|e] s1];
    simpl in T; try (exists new; split; [exact T|exact C]).
  - destruct (negb (truthy title) || negb (truthy result));
      [exists new; split; [exact T|exact C]|].
    unfold save_result, on_exception.
    destruct (self_api s1) as [api|]; [|exists new; split; [exact T|exact C]].
    destruct (format_to_markdown E result) as [md|e];
      [|destruct (is_Exception e); exists new; split; auto].
    destruct (save_place E api fp) as [[dir name]|];
      [|exists new; split; [exact T|exact C]].
    destruct (makedirs E dir) as [[]|e];
      [|destruct (is_Exception e); exists new; split; auto].
    assert (Hm : f (EMakedirs dir) = false).
    { apply f_local. intros ep H. discriminate H. }
    destruct (write_text E _ md) as [[]|e].
    + exists (new ++ [EMakedirs dir; EWrite (path_join E dir name) md]). simpl. split.
      * rewrite T, <- !app_assoc. reflexivity.
      * rewrite filter_app. simpl. rewrite Hm.
        rewrite (f_local (EWrite (path_join E dir name) md));
          [|intros ep H; discriminate H].
        rewrite app_nil_r. exact C.
    + exists (new ++ [EMakedirs dir]).
      destruct (is_Exception e); simpl;
        (split; [rewrite T, <- app_assoc; reflexivity|]);
        rewrite filter_app; simpl; rewrite Hm, app_nil_r; exact C.
  - exists new. unfold on_exception. destruct (is_Exception e); split; auto.
Qed.

End JobCosts.

(** X17. Whatever happens, one job makes at most nine attempts at the
    service -- three calls of [call_api], three attempts each -- and at most
    eighteen remote calls. *)
Theorem job_makes_at_most_nine_attempts (E : Env) (file_path prompt_file : string)
    (s : State) :
  exists new,
    trace (snd (process_file E file_path prompt_file s)) = trace s ++ new /\
    (remote_attempts new <= 9)%nat /\
    (List.length (filter is_remote new) <= 18)%nat.
Proof.
  destruct (costs_process_file is_attempt
              (fun ev => match ev with
                         | ERemote ep => fun _ => ex_intro _ ep eq_refl
                         | _ => fun H => False_ind _ (Bool.diff_false_true H)
                         end)
              1 (fun api => match api with
                            | GeminiAPI _ | KimiAPI | DeepSeekAPI => le_n 1
                            end)
              E file_path prompt_file s) as (n1 & T1 & C1).
  destruct (costs_process_file is_remote
              (fun ev => match ev with
                         | ERemote ep => fun _ => ex_intro _ ep eq_refl
                         | _ => fun H => False_ind _ (Bool.diff_false_true H)
                         end)
              2 (fun api => match api with
                            | GeminiAPI _ | DeepSeekAPI => le_S 1 1 (le_n 1)
                            | KimiAPI => le_n 2
                            end)
              E file_path prompt_file s) as (n2 & T2 & C2).
  rewrite T1 in T2. apply app_inv_head in T2. subst n2.
  exists n1. split; [exact T1|]. split; [exact C1|exact C2].
Qed.

(** ** The passes, further *)

Lemma asks_app l1 l2 : asks (l1 ++ l2) = (asks l1 + asks l2)%nat.
Proof. unfold asks. rewrite filter_app, length_app. reflexivity. Qed.

Lemma retry_offers_app l1 l2 :
  retry_offers (l1 ++ l2) = (retry_offers l1 + retry_offers l2)%nat.
Proof. unfold retry_offers. rewrite filter_app, length_app. reflexivity. Qed.

Lemma opened_app l1 l2 : opened (l1 ++ l2) = opened l1 ++ opened l2.
Proof.
  induction l1 as [|ev l1 IH]; [reflexivity|].
  destruct ev; simpl; rewrite ?IH; reflexivity.
Qed.

Lemma internal_counts l :
  forallb is_internal l = true ->
  asks l = 0%nat /\ retry_offers l = 0%nat /\ opened l = [].
Proof.
  induction l as [|ev l IH]; [auto|].
  simpl. intro H. apply andb_true_iff in H. destruct H as [H1 H2].
  destruct (IH H2) as (A & B & C).
  destruct ev; try discriminate H1; auto.
Qed.

Lemma subseq_nil_l {A} (l : list A) : subseq [] l.
Proof. induction l; constructor; assumption. Qed.

Lemma subseq_count {A} (dec : forall x y : A, {x = y} + {x <> y}) (l1 l2 : list A) x :
  subseq l1 l2 -> (count_occ dec l1 x <= count_occ dec l2 x)%nat.
Proof.
  induction 1; simpl; [lia| |]; destruct (dec x0 x); lia.
Qed.

Lemma prefix_count {A} (dec : forall x y : A, {x = y} + {x <> y}) (l1 l2 : list A) x :
  is_prefix l1 l2 -> (count_occ dec l1 x <= count_occ dec l2 x)%nat.
Proof. intros [l3 ->]. rewrite count_occ_app. lia. Qed.

Lemma opened_sched l : opened (filter is_sched l) = opened l.
Proof.
  induction l as [|ev l IH]; [reflexivity|].
  destruct ev; simpl; rewrite ?IH; reflexivity.
Qed.

Lemma opened_waits_then_opens msg jobs : opened (waits_then_opens msg jobs) = jobs.
Proof.
  induction jobs as [|j jobs IH]; [reflexivity|].
  unfold waits_then_opens in *. simpl. rewrite IH. reflexivity.
Qed.

Lemma opened_due msg i jobs : opened (due msg i jobs) = jobs.
Proof.
  unfold due. destruct (0 <? i)%nat; [apply opened_waits_then_opens|].
  destruct jobs as [|j jobs]; [reflexivity|].
  simpl. rewrite opened_waits_then_opens. reflexivity.
Qed.

Lemma opened_prefix l1 l2 : is_prefix l1 l2 -> is_prefix (opened l1) (opened l2).
Proof. intros [l3 ->]. exists (opened l3). apply opened_app. Qed.

Lemma no_prompt_no_offer l : filter is_prompt l = [] -> retry_offers l = 0%nat.
Proof.
  unfold retry_offers. induction l as [|ev l IH]; [reflexivity|].
  simpl. destruct ev; simpl; try exact IH; discriminate.
Qed.

Section Passes.

Variable E : Env.

(** What the main pass opens. *)
Lemma main_pass_opens pf jobs i p s new :
  trace (snd (process_files_loop E pf i jobs p s)) = trace s ++ new ->
  is_prefix (opened new) jobs.
Proof.
  intro T. destruct (process_files_loop_shows E pf jobs i p s) as (n & T' & P).
  rewrite T in T'. apply app_inv_head in T'. subst n.
  apply opened_prefix in P. rewrite opened_sched, opened_due in P. exact P.
Qed.

(** What the retry pass opens and asks. *)
Lemma retry_pass_opens failed pf s new :
  trace (snd (retry_failed_tasks E failed pf s)) = trace s ++ new ->
  is_prefix (opened new) failed /\ retry_offers new = 0%nat /\ asks new = 0%nat.
Proof.
  intro T.
  destruct (retry_loop_shows is_sched (fun _ => eq_refl) (fun _ => eq_refl)
              sched_internal E pf failed 0 s) as (n & T' & P & _ & N).
  assert (Hs : snd (retry_failed_tasks E failed pf s) = snd (retry_loop E pf 0 failed s)).
  { unfold retry_failed_tasks, bind.
    destruct (retry_loop E pf 0 failed s) as [[[]|e] s1]; reflexivity. }
  rewrite Hs, T' in T. apply app_inv_head in T. subst n.
  apply opened_prefix in P. rewrite opened_sched, opened_due in P.
  split; [exact P|]. split; [apply no_prompt_no_offer, N|].
  clear - N. unfold asks. induction new as [|ev l IH]; [reflexivity|].
  simpl in N |- *. destruct ev; simpl in *; try (apply IH, N); discriminate.
Qed.

Lemma pace_events i cf s :
  exists new,
    trace (snd (pace E i cf s)) = trace s ++ new /\
    asks new = 0%nat /\ retry_offers new = 0%nat /\ opened new = [].
Proof.
  unfold pace. destruct (0 <? i)%nat.
  - assert (W : exists new,
               trace (snd (rate_limiter_wait E (WaitProcess cf) s)) = trace s ++ new /\
               asks new = 0%nat /\ retry_offers new = 0%nat /\ opened new = []).
    { destruct (self_rate_limiter s) as [rl|] eqn:Hrl.
      - rewrite (rate_limiter_wait_some E _ s rl Hrl).
        destruct (emits_bind [EWait (Some (WaitProcess cf))]
                    (wait E rl (Some (WaitProcess cf)))
                    (fun rl' => set_rate_limiter rl')
                    (emits_wait E rl _) (fun rl' => silent_set_rate_limiter rl') s)
          as (n & T & I).
        destruct (internal_counts _ I) as (A & B & C).
        exists ([EWait (Some (WaitProcess cf))] ++ n). split; [exact T|].
        rewrite asks_app, retry_offers_app, opened_app, A, B, C. auto.
      - rewrite (rate_limiter_wait_none E _ s Hrl). exists [].
        simpl. rewrite app_nil_r. auto. }
    destruct W as (new & T & C). exists new. unfold try_except, bind.
    destruct (rate_limiter_wait E (WaitProcess cf) s) as [[[]|e] s1]; simpl in *;
      [auto|]. destruct (exn_class e); simpl; auto.
  - exists []. simpl. rewrite app_nil_r. auto.
Qed.

Lemma process_file_events fp pf s :
  exists new,
    trace (snd (process_file E fp pf s)) = trace s ++ new /\
    asks new = 0%nat /\ retry_offers new = 0%nat /\ opened new = [fp].
Proof.
  destruct (emits_process_file E fp pf s) as (n & T & I).
  destruct (internal_counts _ I) as (A & B & C).
  exists ([EOpenRead fp] ++ n). split; [exact T|].
  rewrite asks_app, retry_offers_app, opened_app, A, B, C. auto.
Qed.

Lemma stamp_events s :
  trace (snd (stamp_last_call_time s)) = trace s.
Proof.
  unfold stamp_last_call_time, bind, time_time, get_rate_limiter.
  destruct (self_rate_limiter s); reflexivity.
Qed.

(** One job of the main pass, in numbers. *)
Lemma handle_job_summary pf fp p s :
  (consecutive_failures p <= 2)%nat ->
  exists new,
    trace (snd (handle_job E pf fp p s)) = trace s ++ new /\
    retry_offers new = 0%nat /\ opened new = [fp] /\
    match fst (handle_job E pf fp p s) with
    | Ok (Next p') =>
        (consecutive_failures p' <= 2)%nat /\
        (3 * asks new + consecutive_failures p' <= consecutive_failures p + 1)%nat /\
        (failed_tasks p' = failed_tasks p \/ failed_tasks p' = failed_tasks p ++ [fp])
    | Ok (Break p') =>
        (3 * asks new <= consecutive_failures p + 1)%nat /\
        failed_tasks p' = failed_tasks p ++ [fp]
    | Raise _ => asks new = 0%nat
    end.
Proof.
  intro Hc. destruct (process_file_events fp pf s) as (n1 & T1 & A1 & B1 & C1).
  destruct (process_file E fp pf s) as [[[[|] o]|e] s1] eqn:R; simpl in T1.
  - rewrite (handle_job_succeeded _ _ _ _ _ _ _ R). unfold bind.
    pose proof (stamp_events s1) as St.
    destruct (stamp_last_call_time s1) as [[[]|e] s2]; simpl in St |- *;
      exists n1; rewrite St; (split; [exact T1|]); (split; [exact B1|]);
      (split; [exact C1|]); [|exact A1].
    rewrite A1. split; [lia|]. split; [lia|]. left. reflexivity.
  - rewrite (handle_job_failed _ _ _ _ _ _ _ R). cbv zeta.
    destruct (3 <=? consecutive_failures p + 1)%nat eqn:G.
    + apply Nat.leb_le in G. exists (n1 ++ [EAskYesNo]).
      unfold bind, messagebox_askyesno.
      destruct (askyesno E (asked s1)); simpl;
        (split; [rewrite T1; symmetry; apply app_assoc|]);
        rewrite retry_offers_app, opened_app, asks_app, A1, B1, C1;
        (split; [reflexivity|]); (split; [reflexivity|]);
        unfold asks; simpl; repeat split; auto; lia.
    + apply Nat.leb_gt in G. exists n1. simpl.
      split; [exact T1|]. split; [exact B1|]. split; [exact C1|].
      rewrite A1. split; [lia|]. split; [lia|]. right. reflexivity.
  - unfold handle_job. rewrite (bind_raise _ _ _ _ _ R). exists n1. simpl. auto.
Qed.

(** The main pass, in numbers: it never offers a retry, asks at most
    once per three jobs, and its failed list grows by a subsequence of
    the jobs. *)
Lemma main_pass_summary pf : forall jobs i p s,
  (consecutive_failures p <= 2)%nat ->
  exists new,
    trace (snd (process_files_loop E pf i jobs p s)) = trace s ++ new /\
    retry_offers new = 0%nat /\
    (3 * asks new <= consecutive_failures p + List.length jobs)%nat /\
    (forall p', fst (process_files_loop E pf i jobs p s) = Ok p' ->
       exists l, failed_tasks p' = failed_tasks p ++ l /\ subseq l jobs).
Proof.
  induction jobs as [|j rest IH]; intros i p s Hc.
  - exists []. simpl. rewrite app_nil_r. split; [reflexivity|].
    split; [reflexivity|]. split; [unfold asks; simpl; lia|].
    intros p' H. inversion H; subst. exists []. rewrite app_nil_r.
    split; [reflexivity|constructor].
  - rewrite process_files_loop_cons.
    destruct (pace_events i (basename E j) s) as (n0 & T0 & A0 & B0 & C0).
    destruct (pace E i (basename E j) s) as [[[|]|e] s0]; simpl in T0.
    + destruct (handle_job_summary pf j p s0 Hc) as (n1 & T1 & B1 & C1 & H1).
      destruct (handle_job E pf j p s0) as [[[p1|p1]|e] s1]; simpl in T1, H1.
      * destruct H1 as (Hc1 & Hpot & Hf).
        destruct (IH (S i) p1 s1 Hc1) as (n2 & T2 & B2 & A2 & S2).
        exists (n0 ++ n1 ++ n2). split.
        { rewrite T2, T1, T0, <- !app_assoc. reflexivity. }
        rewrite !retry_offers_app, !asks_app, A0, B0, B1, B2.
        split; [reflexivity|]. split; [simpl List.length; lia|].
        intros p' Hp'. destruct (S2 p' Hp') as (l & Fl & Sl).
        destruct Hf as [Hf|Hf]; rewrite Hf in Fl.
        -- exists l. split; [exact Fl|]. apply subseq_skip, Sl.
        -- exists (j :: l). split; [rewrite Fl, <- app_assoc; reflexivity|].
           apply subseq_take, Sl.
      * destruct H1 as (Hpot & Hf).
        exists (n0 ++ n1). simpl. split; [rewrite T1, T0; symmetry; apply app_assoc|].
        rewrite !retry_offers_app, !asks_app, A0, B0, B1.
        split; [reflexivity|]. split; [lia|].
        intros p' Hp'. inversion Hp'; subst. exists [j]. split; [exact Hf|].
        apply subseq_take, subseq_nil_l.
      * exists (n0 ++ n1). simpl. split; [rewrite T1, T0; symmetry; apply app_assoc|].
        rewrite !retry_offers_app, !asks_app, A0, B0, B1, H1.
        split; [reflexivity|]. split; [lia|]. intros p' Hp'. discriminate Hp'.
    + exists n0. simpl. split; [exact T0|]. split; [exact B0|].
      split; [rewrite A0; lia|].
      intros p' Hp'. inversion Hp'; subst. exists []. rewrite app_nil_r.
      split; [reflexivity|apply subseq_nil_l].
    + exists n0. simpl. split; [exact T0|]. split; [exact B0|].
      split; [rewrite A0; lia|]. intros p' Hp'. discriminate Hp'.
Qed.

(** X18. In a pass that starts with a clean counter the user is asked to
    continue at most once per three jobs, whatever happens. *)
Theorem breaker_asks_at_most_every_third_job (prompt_file : string)
    (jobs failed : list string) (i : nat) (s : State) :
  exists new,
    trace (snd (process_files_loop E prompt_file i jobs (MkPass failed 0) s))
    = trace s ++ new /\
    (3 * asks new <= List.length jobs)%nat.
Proof.
  destruct (main_pass_summary prompt_file jobs i (MkPass failed 0) s)
    as (new & T & _ & A & _); [simpl; lia|].
  exists new. split; [exact T|]. simpl in A. exact A.
Qed.

(** X19. The failed list a pass returns is the one it started with, extended
    by some of the jobs in the order of the job list; every job is listed at
    most as often as it occurs there. *)
Theorem failed_jobs_are_jobs_in_order (prompt_file : string)
    (jobs failed : list string) (i : nat) (p' : Pass) (s : State) :
  fst (process_files_loop E prompt_file i jobs (MkPass failed 0) s) = Ok p' ->
  exists l,
    failed_tasks p' = failed ++ l /\
    subseq l jobs /\
    (List.length l <= List.length jobs)%nat /\
    forall j, (count_occ string_dec l j <= count_occ string_dec jobs j)%nat.
Proof.
  intro H.
  destruct (main_pass_summary prompt_file jobs i (MkPass failed 0) s)
    as (new & _ & _ & _ & S); [simpl; lia|].
  destruct (S p' H) as (l & Fl & Sl). exists l.
  split; [exact Fl|]. split; [exact Sl|]. split.
  - clear - Sl. induction Sl; simpl; lia.
  - intro j. apply subseq_count, Sl.
Qed.

End Passes.

Section Batch.

Variable E : Env.

(** *** The timestamp after a job *)

(** X20. A job that succeeds stamps the limiter with the time it ended; a
    job that fails leaves the limiter as it was, so that the wait before the
    next job is measured from the stamp before -- and does not sleep at all
    when the interval has passed since then, as after [reset_timer] and a
    failed first job. *)
Theorem only_success_stamps_the_timer (prompt_file file_path : string) (p : Pass)
    (s s1 : State) (success : bool) (saved : option string) (rl : RateLimiter) :
  process_file E file_path prompt_file s = (Ok (success, saved), s1) ->
  self_rate_limiter s = Some rl ->
  let s' := snd (handle_job E prompt_file file_path p s) in
  (success = true ->
     self_rate_limiter s' = Some (MkRateLimiter (config rl) (clock s1))) /\
  (success = false ->
     self_rate_limiter s' = Some rl /\
     clock s' = clock s1 /\
     forall i current_file,
       (0 < i)%nat ->
       wait_minutes (config rl) * 60 <= clock s1 - last_call_time rl ->
       fst (pace E i current_file s') = Ok true /\
       trace (snd (pace E i current_file s'))
       = trace s' ++ [EWait (Some (WaitProcess current_file))] /\
       clock (snd (pace E i current_file s')) = clock s').
Proof.
  intros R Hrl s'.
  destruct (untouched_process_file E file_path prompt_file s) as (n & _ & U & _).
  rewrite R in U. simpl in U. rewrite Hrl in U.
  split; intros ->.
  - unfold s'. rewrite (handle_job_succeeded _ _ _ _ _ _ _ R).
    unfold bind, stamp_last_call_time, bind, time_time, get_rate_limiter.
    rewrite U. reflexivity.
  - assert (Hs : self_rate_limiter s' = Some rl /\ clock s' = clock s1).
    { unfold s'. rewrite (handle_job_failed _ _ _ _ _ _ _ R). cbv zeta.
      destruct (3 <=? consecutive_failures p + 1)%nat; [|auto].
      unfold bind, messagebox_askyesno.
      destruct (askyesno E (asked s1)); simpl; auto. }
    destruct Hs as [Hl Hk]. split; [exact Hl|]. split; [exact Hk|].
    intros i cf Hi Hw. unfold pace. apply Nat.ltb_lt in Hi. rewrite Hi.
    unfold try_except.
    assert (W : rate_limiter_wait E (WaitProcess cf) s'
                = (Ok tt, snd (rate_limiter_wait E (WaitProcess cf) s')) /\
                trace (snd (rate_limiter_wait E (WaitProcess cf) s'))
                = trace s' ++ [EWait (Some (WaitProcess cf))] /\
                clock (snd (rate_limiter_wait E (WaitProcess cf) s')) = clock s').
    { rewrite (rate_limiter_wait_some E _ s' rl Hl).
      rewrite (bind_ok _ _ _ _ _ (wait_immediate E rl _ s' ltac:(rewrite Hk; exact Hw))).
      repeat split. }
    destruct W as (W1 & W2 & W3).
    rewrite (bind_ok _ _ _ _ _ W1). simpl. auto.
Qed.

(** *** Dialogs that fail *)

Lemma process_files_unfold jobs pf s api :
  self_api s = Some api ->
  process_files E jobs pf s =
  match prepare_limiter E s with
  | (Ok _, s1) =>
      (p <- process_files_loop E pf 0 jobs (MkPass [] 0) ;;
       offer_retry E (failed_tasks p) pf) s1
  | (Raise e, s1) => (Raise e, s1)
  end.
Proof.
  intro Ha. unfold process_files, prepare_limiter.
  unfold bind at 1, get_api. rewrite Ha. unfold bind.
  destruct (get_rate_limiter s) as [[r|e] s0]; [|reflexivity].
  destruct ((match r with
             | Some _ => ret tt
             | None => fun s2 =>
                 match RateLimiter_init E None s2 with
                 | (Ok a, s') => set_rate_limiter a s'
                 | (Raise e, s') => (Raise e, s')
                 end
             end) s0) as [[[]|e] s2]; [|reflexivity].
  destruct (get_rate_limiter s2) as [[r2|e] s3]; [|reflexivity].
  destruct ((match r2 with
             | Some rl => set_rate_limiter (reset_timer rl)
             | None => raise (AttributeError "reset_timer")
             end) s3) as [[[]|e] s4]; reflexivity.
Qed.

Lemma prepare_limiter_fresh s :
  self_rate_limiter s = None ->
  prepare_limiter E s =
  match config_dialog E (dialogs s) 1.0 with
  | Ok c =>
      (Ok tt,
       MkState (clock s) (sleeps s) (remotes s) (asked s) (asked3 s) (S (dialogs s))
               (trace s ++ [EDialog TitleSettings 1.0]) (self_api s)
               (Some (MkRateLimiter c 0)))
  | Raise e =>
      (Raise e,
       MkState (clock s) (sleeps s) (remotes s) (asked s) (asked3 s) (S (dialogs s))
               (trace s ++ [EDialog TitleSettings 1.0]) (self_api s) None)
  end.
Proof.
  intro Hl.
  unfold prepare_limiter, bind, get_rate_limiter, RateLimiter_init, bind,
    _show_config_dialog.
  cbv beta iota. rewrite Hl. cbv beta iota.
  destruct (config_dialog E (dialogs s) 1.0); rewrite ?Hl; reflexivity.
Qed.

(** X21. When there is no limiter yet, the batch starts with the settings
    dialog, offering one minute; if what is typed there is no number the
    error ends [process_files] before any file is read. *)
Theorem settings_come_before_the_first_job (jobs : list string)
    (prompt_file : string) (api : Api) (s : State) :
  self_api s = Some api ->
  self_rate_limiter s = None ->
  exists s1,
    trace s1 = trace s ++ [EDialog TitleSettings 1.0] /\
    match config_dialog E (dialogs s) 1.0 with
    | Raise e =>
        process_files E jobs prompt_file s = (Raise e, s1) /\
        self_rate_limiter s1 = None
    | Ok c =>
        self_rate_limiter s1 = Some (MkRateLimiter c 0) /\
        process_files E jobs prompt_file s
        = (p <- process_files_loop E prompt_file 0 jobs (MkPass [] 0) ;;
           offer_retry E (failed_tasks p) prompt_file) s1
    end.
Proof.
  intros Ha Hl.
  destruct (config_dialog E (dialogs s) 1.0) as [c|e] eqn:D;
    rewrite (process_files_unfold jobs prompt_file s api Ha),
            (prepare_limiter_fresh s Hl), D.
  - eexists. split; [|split]; [| |reflexivity]; reflexivity.
  - eexists. split; [|split]; [|reflexivity|]; reflexivity.
Qed.

(** X22. When the user asks for a longer wait and what is typed into the
    dialog is no number, the error ends [process_files]: the interval stays
    as it was and no job is tried again. *)
Theorem bad_interval_cancels_the_retry (failed : list string) (prompt_file : string)
    (s : State) (rl : RateLimiter) (e : exn) :
  failed <> [] ->
  askyesnocancel E (asked3 s) = Some false ->
  self_rate_limiter s = Some rl ->
  let offered := or_default (Some (wait_minutes (config rl) * 2))
                            (wait_minutes (config rl)) in
  config_dialog E (dialogs s) offered = Raise e ->
  exists s1,
    offer_retry E failed prompt_file s = (Raise e, s1) /\
    self_rate_limiter s1 = Some rl /\
    trace s1 = trace s ++ [EAskYesNoCancel; EDialog TitleUpdate offered].
Proof.
  intros Hne Hch Hrl offered Hd.
  destruct failed as [|j failed]; [congruence|].
  unfold offer_retry, bind at 1, messagebox_askyesnocancel. rewrite Hch.
  cbn [negb]. unfold bind at 1, lengthen_wait, bind at 1, get_rate_limiter.
  cbn [self_rate_limiter]. rewrite Hrl.
  unfold bind at 1, update_config, bind at 1, _show_config_dialog.
  cbn [dialogs]. fold offered. rewrite Hd.
  eexists. split; [reflexivity|]. split; [reflexivity|].
  simpl. rewrite <- app_assoc. reflexivity.
Qed.

End Batch.

(** *** The batch as a whole *)

Section Whole.

Variable E : Env.

Lemma retry_pass_events failed pf s :
  exists new,
    trace (snd (retry_failed_tasks E failed pf s)) = trace s ++ new /\
    is_prefix (opened new) failed /\ retry_offers new = 0%nat /\ asks new = 0%nat.
Proof.
  destruct (retry_loop_shows is_sched (fun _ => eq_refl) (fun _ => eq_refl)
              sched_internal E pf failed 0 s) as (n & T & _).
  assert (Hs : snd (retry_failed_tasks E failed pf s) = snd (retry_loop E pf 0 failed s)).
  { unfold retry_failed_tasks, bind.
    destruct (retry_loop E pf 0 failed s) as [[[]|e] s1]; reflexivity. }
  rewrite <- Hs in T. exists n. split; [exact T|].
  apply (retry_pass_opens E failed pf s n T).
Qed.

Lemma prepare_limiter_events s :
  exists new,
    trace (snd (prepare_limiter E s)) = trace s ++ new /\
    asks new = 0%nat /\ retry_offers new = 0%nat /\ opened new = [].
Proof.
  destruct (self_rate_limiter s) as [rl|] eqn:Hl.
  - exists []. unfold prepare_limiter, bind, get_rate_limiter. rewrite Hl.
    cbn. rewrite Hl. cbn. rewrite app_nil_r. auto.
  - rewrite (prepare_limiter_fresh E s Hl). exists [EDialog TitleSettings 1.0].
    destruct (config_dialog E (dialogs s) 1.0); simpl; auto.
Qed.

Lemma lengthen_wait_events s :
  exists new,
    trace (snd (lengthen_wait E s)) = trace s ++ new /\
    asks new = 0%nat /\ retry_offers new = 0%nat /\ opened new = [].
Proof.
  unfold lengthen_wait, bind, get_rate_limiter.
  destruct (self_rate_limiter s) as [rl|].
  - unfold update_config, bind, _show_config_dialog.
    destruct (config_dialog E (dialogs s) _); eexists [_]; simpl; auto.
  - exists []. simpl. rewrite app_nil_r. auto.
Qed.

Lemma offer_retry_events failed pf s :
  exists new,
    trace (snd (offer_retry E failed pf s)) = trace s ++ new /\
    asks new = 0%nat /\ (retry_offers new <= 1)%nat /\
    is_prefix (opened new) failed.
Proof.
  destruct failed as [|j failed].
  - exists []. simpl. rewrite app_nil_r. repeat split; auto. exists []. reflexivity.
  - unfold offer_retry. unfold bind at 1, messagebox_askyesnocancel.
    destruct (askyesnocancel E (asked3 s)) as [yes|].
    + match goal with
      | |- context [bind _ _ ?st] => set (s1 := st)
      end.
      assert (T1 : trace s1 = trace s ++ [EAskYesNoCancel]) by reflexivity.
      clearbody s1.
      assert (F : exists n1,
                 trace (snd ((if negb yes then lengthen_wait E else ret tt) s1))
                 = trace s1 ++ n1 /\
                 asks n1 = 0%nat /\ retry_offers n1 = 0%nat /\ opened n1 = []).
      { destruct yes; simpl negb; cbv iota.
        - exists []. simpl. rewrite app_nil_r. auto.
        - apply lengthen_wait_events. }
      destruct F as (n1 & T2 & A1 & B1 & C1).
      unfold bind at 1.
      destruct ((if negb yes then lengthen_wait E else ret tt) s1) as [[[]|e] s2];
        simpl in T2.
      * destruct (retry_pass_events (j :: failed) pf s2) as (n2 & T3 & P & B2 & A2).
        exists ([EAskYesNoCancel] ++ n1 ++ n2). split.
        { unfold bind.
          destruct (retry_failed_tasks E (j :: failed) pf s2) as [[r|e] s3];
            simpl in T3 |- *; rewrite T3, T2, T1, <- !app_assoc; reflexivity. }
        rewrite !asks_app, !retry_offers_app, !opened_app, A1, A2, B1, B2, C1.
        split; [reflexivity|]. split; [unfold retry_offers; simpl; lia|].
        exact P.
      * exists ([EAskYesNoCancel] ++ n1). simpl snd. split.
        { rewrite T2, T1, <- !app_assoc. reflexivity. }
        rewrite !asks_app, !retry_offers_app, !opened_app, A1, B1, C1.
        split; [reflexivity|]. split; [unfold retry_offers; simpl; lia|].
        exists (j :: failed). reflexivity.
    + exists [EAskYesNoCancel]. simpl. repeat split; auto.
      exists (j :: failed). reflexivity.
Qed.

(** X23. Whatever the service, the disk and the user do, a batch offers the
    retry at most once, asks whether to go on at most once per three jobs,
    and opens no file more than twice as often as it occurs in the job list:
    once in the main pass, once more in the retry pass. *)
Theorem batch_tries_each_job_at_most_twice (jobs : list string)
    (prompt_file : string) (s : State) :
  exists new,
    trace (snd (process_files E jobs prompt_file s)) = trace s ++ new /\
    (retry_offers new <= 1)%nat /\
    (3 * asks new <= List.length jobs)%nat /\
    forall j, (count_occ string_dec (opened new) j
               <= 2 * count_occ string_dec jobs j)%nat.
Proof.
  destruct (self_api s) as [api|] eqn:Ha.
  - rewrite (process_files_unfold E jobs prompt_file s api Ha).
    destruct (prepare_limiter_events s) as (n0 & T0 & A0 & B0 & C0).
    destruct (prepare_limiter E s) as [[[]|e] s0]; simpl in T0.
    + destruct (main_pass_summary E prompt_file jobs 0 (MkPass [] 0) s0)
        as (n1 & T1 & B1 & A1 & S1); [simpl; lia|].
      pose proof (main_pass_opens E prompt_file jobs 0 (MkPass [] 0) s0 n1 T1) as P1.
      unfold bind.
      destruct (process_files_loop E prompt_file 0 jobs (MkPass [] 0) s0)
        as [[p|e] s1]; simpl in T1.
      * destruct (S1 p eq_refl) as (l & Fl & Sl). simpl in Fl.
        destruct (offer_retry_events (failed_tasks p) prompt_file s1)
          as (n2 & T2 & A2 & B2 & P2).
        exists (n0 ++ n1 ++ n2). split.
        { rewrite T2, T1, T0, <- !app_assoc. reflexivity. }
        rewrite !retry_offers_app, !asks_app, !opened_app, A0, B0, B1, A2, C0.
        split; [lia|]. split; [simpl in A1; lia|].
        intro j. simpl app. rewrite count_occ_app.
        pose proof (prefix_count string_dec _ _ j P1).
        pose proof (prefix_count string_dec _ _ j P2).
        rewrite Fl in *.
        pose proof (subseq_count string_dec _ _ j Sl). lia.
      * exists (n0 ++ n1). simpl snd. split.
        { rewrite T1, T0, <- !app_assoc. reflexivity. }
        rewrite !retry_offers_app, !asks_app, !opened_app, A0, B0, B1, C0.
        split; [lia|]. split; [simpl in A1; lia|].
        intro j. simpl app.
        pose proof (prefix_count string_dec _ _ j P1). lia.
    + exists n0. simpl snd. split; [exact T0|].
      rewrite A0, B0, C0. split; [lia|]. split; [lia|]. intro j. simpl. lia.
  - exists []. unfold process_files, bind, get_api. rewrite Ha. simpl.
    rewrite app_nil_r. split; [reflexivity|]. unfold retry_offers, asks. simpl.
    split; [lia|]. split; [lia|]. intro j. lia.
Qed.

End Whole.

(** *** A model type out of the list *)

(** X24. A model type that [create_api] does not know -- the capitalised
    name the selector shows, say -- leaves the analyser without a client,
    and [process_files] then returns at once: no dialog, no file opened, the
    state as it was. *)
Theorem unknown_model_type_processes_nothing (E : Env) (model_type : string)
    (model_name : option string) (jobs : list string) (prompt_file : string)
    (s : State) :
  model_type <> "gemini"%string ->
  model_type <> "kimi"%string ->
  model_type <> "deepseek"%string ->
  self_api s = None ->
  create_api model_type model_name s = (Ok None, s) /\
  process_files E jobs prompt_file s = (Ok tt, s).
Proof.
  intros H1 H2 H3 Ha.
  apply String.eqb_neq in H1, H2, H3.
  split.
  - unfold create_api. rewrite H1, H2, H3. unfold bind, ret, get_api.
    rewrite Ha. reflexivity.
  - unfold process_files, bind, get_api. rewrite Ha. reflexivity.
Qed.

(** ** The models on offer *)

(** X25. Every model type that [list_available_models] lists is one
    [create_api] knows: it installs a client of that kind, returns it, and
    leaves the rate limiter and everything else alone. *)
Theorem listed_models_get_a_client (model_type : string)
    (model_name : option string) (s : State) :
  In model_type list_available_models ->
  exists api,
    create_api model_type model_name s
    = (Ok (Some api),
       MkState (clock s) (sleeps s) (remotes s) (asked s) (asked3 s) (dialogs s)
               (trace s) (Some api) (self_rate_limiter s)) /\
    match api with
    | GeminiAPI m =>
        model_type = "gemini"%string /\
        m = match model_name with
            | Some n => if truthy n then n else DEFAULT_MODEL
            | None => DEFAULT_MODEL
            end
    | KimiAPI => model_type = "kimi"%string
    | DeepSeekAPI => model_type = "deepseek"%string
    end.
Proof.
  intros [<-|[<-|[<-|[]]]]; eexists; (split; [reflexivity|]); cbv beta iota; auto.
Qed.

(** X26. Whichever of the Gemini models on offer is chosen, a job that
    succeeds saves under one of three names only: the models that agree in
    the second part of their name write to the same file. *)
Theorem offered_gemini_models_share_three_names (E : Env)
    (model_name file_path prompt_file path : string) (s s' : State) :
  In model_name GEMINI_MODELS ->
  self_api s = Some (GeminiAPI model_name) ->
  process_file E file_path prompt_file s = (Ok (true, Some path), s') ->
  exists version,
    In version ["2.0"; "exp"; "1.5"]%string /\
    nth_error (split_on "-" model_name) 1 = Some version /\
    path = path_join E (path_join E "book_2" "Gemini")
             (String.append (splitext_root E (basename E file_path))
                (String.append "_gemini" (String.append version ".md"))).
Proof.
  intros Hm Ha R.
  pose proof (process_file_saved_path E _ _ _ _ _ _ Ha R) as P.
  unfold save_path, save_place in P.
  destruct Hm as [<-|[<-|[<-|[<-|[<-|[<-|[]]]]]]];
    cbn in P; inversion P; eexists; (split; [|split; reflexivity]);
    cbn; auto.
Qed.

(** * Passes that nobody cuts short *)

(** ** Nothing but [Exception]s *)

Lemma polite_ret {A} (P : A -> Prop) a : P a -> polite P (ret a).
Proof. intros H s. exact H. Qed.

Lemma polite_raise {A} (P : A -> Prop) e :
  is_Exception e = true -> polite P (raise e).
Proof. intros H s. exact H. Qed.

Lemma polite_emit ev : polite any (emit ev).
Proof. intro s. exact I. Qed.

Lemma polite_lift_result {A} (r : Result A) :
  well_behaved r -> polite any (lift_result r).
Proof.
  intros H s. unfold lift_result. simpl. destruct r as [a|e]; [exact I|].
  apply H. reflexivity.
Qed.

Lemma polite_any {A} (P : A -> Prop) m : polite P m -> polite any m.
Proof.
  intros H s. specialize (H s). destruct (fst (m s)); [exact I|exact H].
Qed.

Lemma polite_bind {A B} (P : A -> Prop) (Q : B -> Prop) (m : M A) (k : A -> M B) :
  polite P m -> (forall a, P a -> polite Q (k a)) -> polite Q (bind m k).
Proof.
  intros Hm Hk s. unfold bind. specialize (Hm s).
  destruct (m s) as [[a|e] s1]; simpl in Hm |- *; [apply (Hk a Hm)|exact Hm].
Qed.

Lemma polite_then {A B} (Q : B -> Prop) (m : M A) (k : A -> M B) :
  polite any m -> (forall a, polite Q (k a)) -> polite Q (bind m k).
Proof. intros Hm Hk. apply (polite_bind any Q m k Hm). intros a _. apply Hk. Qed.

Lemma polite_try_except {A} (P : A -> Prop) (body : M A) handler :
  polite P body ->
  (forall e h, handler e = Some h -> polite P h) ->
  polite P (try_except body handler).
Proof.
  intros Hb Hh s. unfold try_except. specialize (Hb s).
  destruct (body s) as [[a|e] s1]; simpl in Hb |- *; [exact Hb|].
  destruct (handler e) as [h|] eqn:He; [apply (Hh e h He)|exact Hb].
Qed.

(** A [try] whose [except Exception] clause returns a value returns,
    when the body raises nothing but [Exception]s. *)
Lemma caught_returns {A} (P : A -> Prop) (body : M A) (a0 : A) s :
  polite P body ->
  exists a s',
    try_except body (fun e => if is_Exception e then Some (ret a0) else None) s
    = (Ok a, s').
Proof.
  intro Hb. unfold try_except. specialize (Hb s).
  destruct (body s) as [[a|e] s1]; simpl in Hb; [eexists; eexists; reflexivity|].
  rewrite Hb. eexists; eexists; reflexivity.
Qed.

Section Undisturbed.

Variable E : Env.
Hypothesis quiet : undisturbed E.

Lemma nobody_interrupts : forall n, interrupt E n = false.
Proof. apply quiet. Qed.

Lemma polite_sleep d : polite any (sleep E d).
Proof. intro s. unfold sleep. rewrite nobody_interrupts. exact I. Qed.

Lemma polite_remote ep : polite well_behaved (remote E ep).
Proof.
  intro s. unfold remote. destruct quiet as (_ & Q1 & Q2 & _).
  destruct (transport E (remotes s)) as [e|c] eqn:T; simpl.
  - apply (Q1 _ _ T).
  - intros e ->. apply (Q2 _ _ T).
Qed.

Lemma polite_the_api attr : polite any (the_api attr).
Proof.
  intro s. unfold the_api, bind, get_api. destruct (self_api s); simpl; [exact I|].
  reflexivity.
Qed.

Ltac courteous :=
  repeat first
    [ apply polite_ret; exact I
    | apply polite_emit | apply polite_sleep | apply polite_the_api
    | apply polite_then; [|intro]
    | match goal with
      | |- polite _ (if ?b then _ else _) => destruct b
      | |- polite _ (match ?x with _ => _ end) => destruct x
      end ].

Lemma polite_attempt_of api max i : polite any (attempt_of E api max i).
Proof.
  destruct api; unfold attempt_of, gemini_attempt, kimi_attempt, deepseek_attempt;
    (apply polite_try_except;
     [| intros e h; unfold is_Exception, print; destruct (exn_class e);
        intro H; inversion H; subst; courteous ]).
  - apply (polite_bind well_behaved); [apply polite_remote|intros r Hr].
    unfold print. courteous. apply polite_lift_result, Hr.
  - apply (polite_bind well_behaved); [apply polite_remote|intros r0 _].
    unfold print. apply polite_then; [apply polite_emit|intro].
    apply polite_then; [apply polite_sleep|intro].
    apply (polite_bind well_behaved); [apply polite_remote|intros r Hr].
    courteous. apply polite_lift_result, Hr.
  - apply (polite_bind well_behaved); [apply polite_remote|intros r Hr].
    unfold print. courteous. apply polite_lift_result, Hr.
Qed.

Lemma polite_attempts_of api max l : polite any (attempts_of E api max l).
Proof.
  induction l as [|i l IH].
  - rewrite attempts_of_nil. unfold print. courteous.
  - rewrite attempts_of_cons. apply polite_then; [apply polite_attempt_of|].
    intros [|r]; [exact IH|courteous].
Qed.

Lemma polite_call_api api text prompt max :
  polite any (call_api E api text prompt max).
Proof.
  rewrite call_api_unfold. unfold print. courteous. apply polite_attempts_of.
Qed.

Lemma polite_single_file_turn fp pf text title rc :
  polite any (single_file_turn E fp pf text title 3 rc).
Proof.
  unfold single_file_turn. apply polite_try_except.
  - apply polite_then; [apply polite_the_api|intro api].
    apply polite_then.
    + unfold format_article. apply polite_lift_result.
      intros e H. destruct quiet as (_ & _ & _ & _ & _ & _ & Q & _).
      apply (Q _ _ _ _ H).
    + intros [formatted|]; [|courteous].
      destruct (negb (truthy formatted)); [courteous|].
      apply polite_then; [apply polite_the_api|intro api'].
      apply polite_then; [apply polite_call_api|intro result]. courteous.
  - intros e h H. destruct (is_Exception e); inversion H; subst. courteous.
Qed.

Lemma polite_single_file_turns fp pf text title l :
  polite any (single_file_turns E fp pf text title 3 l).
Proof.
  induction l as [|rc l IH]; cbn [single_file_turns]; [courteous|].
  apply polite_then; [apply polite_single_file_turn|].
  intros [|r]; [exact IH|courteous].
Qed.

Lemma polite_process_single_file fp pf :
  polite any (process_single_file E fp pf).
Proof.
  unfold process_single_file. apply polite_try_except.
  - apply polite_then; [apply polite_emit|intro].
    apply polite_then.
    + apply polite_lift_result. intros e H.
      destruct quiet as (_ & _ & _ & Q & _). apply (Q _ _ H).
    + intro text. apply polite_single_file_turns.
  - intros e h H. destruct (is_Exception e); inversion H; subst. courteous.
Qed.

(** The job returns: every [Exception] is caught at its boundary. *)
Lemma process_file_returns fp pf s :
  exists r s', process_file E fp pf s = (Ok r, s').
Proof.
  unfold process_file. apply (caught_returns any).
  apply polite_then; [apply polite_process_single_file|].
  intros [[title|] [result|]]; try (apply polite_ret; exact I).
  destruct (negb (truthy title) || negb (truthy result)); [courteous|].
  apply polite_then; [apply polite_the_api|intro api].
  apply polite_then.
  { unfold format_to_md. apply polite_lift_result. intros e H.
    destruct quiet as (_ & _ & _ & _ & _ & _ & _ & Q). apply (Q _ _ H). }
  intro md. apply polite_then.
  { destruct api as [m| |]; [|courteous..].
    destruct (nth_error (split_on "-" m) 1); [courteous|].
    apply polite_raise. reflexivity. }
  intro names. apply polite_then.
  { apply polite_lift_result. intros e H.
    destruct quiet as (_ & _ & _ & _ & Q & _). apply (Q _ _ H). }
  intro. apply polite_then; [apply polite_emit|intro].
  apply polite_then.
  { apply polite_lift_result. intros e H.
    destruct quiet as (_ & _ & _ & _ & _ & Q & _). apply (Q _ _ _ H). }
  intro. courteous.
Qed.

Lemma process_file_keeps_limiter fp pf s :
  has_limiter s -> has_limiter (snd (process_file E fp pf s)).
Proof.
  unfold has_limiter.
  destruct (untouched_process_file E fp pf s) as (n & _ & U & _).
  rewrite U. auto.
Qed.

(** ** The wait returns *)

Lemma rate_limiter_wait_returns msg s :
  has_limiter s ->
  exists s', rate_limiter_wait E msg s = (Ok tt, s') /\ has_limiter s'.
Proof.
  unfold has_limiter. intro H.
  destruct (self_rate_limiter s) as [rl|] eqn:Hrl; [|congruence].
  rewrite (rate_limiter_wait_some E msg s rl Hrl).
  destruct (wait_returns E rl (Some msg) s nobody_interrupts) as (rl1 & s1 & W).
  rewrite (bind_ok _ _ _ _ _ W). eexists. split; [reflexivity|].
  simpl. discriminate.
Qed.

Lemma pace_returns i cf s :
  has_limiter s ->
  exists s', pace E i cf s = (Ok true, s') /\ has_limiter s'.
Proof.
  intro H. unfold pace. destruct (0 <? i)%nat.
  - destruct (rate_limiter_wait_returns (WaitProcess cf) s H) as (s' & R & L).
    exists s'. unfold try_except. rewrite (bind_ok _ _ _ _ _ R). auto.
  - exists s. auto.
Qed.

(** ** One job of the main pass *)

Lemma handle_job_returns pf fp p s :
  has_limiter s ->
  exists st s' new,
    handle_job E pf fp p s = (Ok st, s') /\ has_limiter s' /\
    trace s' = trace s ++ new /\
    filter is_sched new = [EOpenRead fp] /\
    match st with
    | Next _ => True
    | Break _ => exists (pre : list Event) n,
        new = pre ++ [EAskYesNo] /\ askyesno E n = false
    end.
Proof.
  intro H.
  pose proof (process_file_keeps_limiter fp pf s H) as L.
  destruct (process_file_shows is_sched (fun _ => eq_refl)
              sched_internal E fp pf s) as (n1 & T1 & F1 & _).
  destruct (process_file_returns fp pf s) as ([[|] o] & s1 & R);
    rewrite R in L, T1; simpl in L, T1.
  - rewrite (handle_job_succeeded _ _ _ _ _ _ _ R).
    unfold bind, stamp_last_call_time, bind, time_time, get_rate_limiter.
    unfold has_limiter in L.
    destruct (self_rate_limiter s1) as [rl|] eqn:Hrl; [|congruence].
    eexists; eexists; exists n1. split; [reflexivity|].
    split; [unfold has_limiter; simpl; discriminate|].
    split; [exact T1|]. split; [exact F1|exact I].
  - rewrite (handle_job_failed _ _ _ _ _ _ _ R). cbv zeta.
    destruct (3 <=? consecutive_failures p + 1)%nat.
    + unfold bind, messagebox_askyesno.
      destruct (askyesno E (asked s1)) eqn:Y; simpl;
        (eexists; eexists; exists (n1 ++ [EAskYesNo]); split; [reflexivity|]);
        (split; [exact L|]);
        (split; [simpl; rewrite T1; symmetry; apply app_assoc|]);
        (split; [rewrite filter_app, F1; reflexivity|]);
        [exact I|].
      exists n1, (asked s1). auto.
    + eexists; eexists; exists n1. split; [reflexivity|]. split; [exact L|].
      split; [exact T1|]. split; [exact F1|exact I].
Qed.

(** ** The passes run to their end *)

Lemma due_nil msg i : due msg i [] = [].
Proof. unfold due. destruct (0 <? i)%nat; reflexivity. Qed.

(** The main pass returns, having shown the schedule of the jobs up to
    the one at which it stopped; it stops short of the last job only
    after a "no" at the question whether to go on. *)
Lemma main_pass_runs pf : forall jobs i p s,
  has_limiter s ->
  exists p' s' new done,
    process_files_loop E pf i jobs p s = (Ok p', s') /\
    trace s' = trace s ++ new /\
    is_prefix done jobs /\
    filter is_sched new = due (fun j => WaitProcess (basename E j)) i done /\
    (done = jobs \/
     exists (pre : list Event) n,
       new = pre ++ [EAskYesNo] /\ askyesno E n = false).
Proof.
  induction jobs as [|j rest IH]; intros i p s H.
  - exists p, s, [], []. simpl. rewrite app_nil_r, due_nil.
    repeat split; auto using is_prefix_nil.
  - rewrite process_files_loop_cons.
    destruct (pace_returns i (basename E j) s H) as (s0 & R0 & H0).
    destruct (pace_shows is_sched (fun _ => eq_refl) sched_internal E
                i (basename E j) s) as (n0 & T0 & C0).
    rewrite R0 in T0, C0 |- *. simpl in T0, C0.
    destruct C0 as [C0|(_ & _ & C0)]; [|congruence].
    destruct (handle_job_returns pf j p s0 H0)
      as (st & s1 & n1 & R1 & H1 & T1 & F1 & B).
    rewrite R1. destruct st as [p1|p1].
    + destruct (IH (S i) p1 s1 H1) as (p' & s' & n2 & done & R2 & T2 & P2 & F2 & D2).
      exists p', s', (n0 ++ n1 ++ n2), (j :: done).
      split; [exact R2|]. split.
      { rewrite T2, T1, T0, <- !app_assoc. reflexivity. }
      split.
      { destruct P2 as [l ->]. exists l. reflexivity. }
      split.
      { rewrite due_cons, !filter_app, C0, F1, F2. reflexivity. }
      destruct D2 as [->|(pre & n & -> & Y)]; [left; reflexivity|right].
      exists (n0 ++ n1 ++ pre), n. split; [|exact Y].
      rewrite <- !app_assoc. reflexivity.
    + exists p1, s1, (n0 ++ n1), [j].
      split; [reflexivity|]. split.
      { rewrite T1, T0, <- app_assoc. reflexivity. }
      split; [exists rest; reflexivity|]. split.
      { rewrite due_cons, due_nil, filter_app, C0, F1. reflexivity. }
      right. destruct B as (pre & n & -> & Y).
      exists (n0 ++ pre), n. split; [|exact Y]. rewrite <- app_assoc. reflexivity.
Qed.

(** The retry pass returns. *)
Lemma retry_loop_returns pf : forall jobs i s,
  has_limiter s -> exists s', retry_loop E pf i jobs s = (Ok tt, s').
Proof.
  induction jobs as [|j rest IH]; intros i s H.
  - exists s. reflexivity.
  - cbn [retry_loop]. unfold retry_body.
    assert (W : exists s0,
               (if (0 <? i)%nat
                then rate_limiter_wait E (WaitRetry (basename E j))
                else ret tt) s = (Ok tt, s0) /\ has_limiter s0).
    { destruct (0 <? i)%nat; [apply rate_limiter_wait_returns, H|].
      exists s. auto. }
    destruct W as (s0 & R0 & H0).
    pose proof (process_file_keeps_limiter j pf s0 H0) as L.
    destruct (process_file_returns j pf s0) as (r & s1 & R1).
    rewrite R1 in L. simpl in L.
    destruct (IH (S i) s1 L) as (s' & R2).
    exists s'. unfold bind at 1. unfold bind at 1. rewrite R0.
    unfold bind at 1. rewrite R1. exact R2.
Qed.

End Undisturbed.

(** ** The two passes *)


(** C6.  In the main pass and in the retry pass alike, the waits and file
    openings that occur form a prefix of the schedule "first file, then
    wait and file for each further job", however the pass ends: no wait
    comes before the first job, and every other job that is processed
    comes right after the wait for it.  When the analyser has its rate
    limiter and nobody presses Ctrl-C, either pass returns: the retry
    pass has then shown the whole schedule, the main pass the schedule
    of the jobs up to the one it stopped at, which is the last job
    unless the user has just answered "no" to the question whether to
    go on. *)
Theorem wait_before_every_job_but_the_first (E : Env) (prompt_file : string)
    (jobs : list string) (p : Pass) (s : State) :
  (exists new,
     trace (snd (process_files_loop E prompt_file 0 jobs p s)) = trace s ++ new /\
     is_prefix (filter is_sched new)
               (schedule (fun j => WaitProcess (basename E j)) jobs) /\
     paced (fun j => WaitProcess (basename E j)) (filter is_sched new) /\
     (undisturbed E -> has_limiter s ->
        (exists p', fst (process_files_loop E prompt_file 0 jobs p s) = Ok p') /\
        exists done,
          is_prefix done jobs /\
          filter is_sched new
          = schedule (fun j => WaitProcess (basename E j)) done /\
          (done = jobs \/
           exists (pre : list Event) n,
             new = pre ++ [EAskYesNo] /\ askyesno E n = false))) /\
  (exists new,
     trace (snd (retry_failed_tasks E jobs prompt_file s)) = trace s ++ new /\
     is_prefix (filter is_sched new)
               (schedule (fun j => WaitRetry (basename E j)) jobs) /\
     paced (fun j => WaitRetry (basename E j)) (filter is_sched new) /\
     (forall l, fst (retry_failed_tasks E jobs prompt_file s) = Ok l ->
        filter is_sched new = schedule (fun j => WaitRetry (basename E j)) jobs) /\
     (undisturbed E -> has_limiter s ->
        fst (retry_failed_tasks E jobs prompt_file s) = Ok jobs /\
        filter is_sched new = schedule (fun j => WaitRetry (basename E j)) jobs)).
Proof.
  destruct (passes_show_a_paced_prefix E prompt_file jobs p s)
    as [(n1 & T1 & P1 & C1) (n2 & T2 & P2 & C2 & X2)].
  split.
  - exists n1. split; [exact T1|]. split; [exact P1|]. split; [exact C1|].
    intros Q H.
    destruct (main_pass_runs E Q prompt_file jobs 0 p s H)
      as (p' & s' & new & done & R & T & D & F & B).
    rewrite R in T1. simpl in T1. rewrite T in T1.
    apply app_inv_head in T1. subst new.
    split; [exists p'; rewrite R; reflexivity|].
    exists done. split; [exact D|]. split; [exact F|exact B].
  - exists n2. split; [exact T2|]. split; [exact P2|]. split; [exact C2|].
    split; [exact X2|]. intros Q H.
    destruct (retry_loop_returns E Q prompt_file jobs 0 s H) as (s' & R).
    assert (F : fst (retry_failed_tasks E jobs prompt_file s) = Ok jobs).
    { unfold retry_failed_tasks. rewrite (bind_ok _ _ _ _ _ R). reflexivity. }
    split; [exact F|]. apply (X2 jobs F).
Qed.

Open Scope string_scope.

(** ** More concrete runs *)

Lemma kimi_resends_the_system_message_witness :
  exists s',
    call_api (quiet_env second_times_out) KimiAPI "text" "prompt" 3
             (start 0 (Some KimiAPI) None) = (Ok None, s') /\
    remotes s' = 6%nat.
Proof.
  destruct (kimi_resends_the_system_message (quiet_env second_times_out)
              (fun _ => eq_refl) "text" "prompt" 3
              (fun _ => Ok "accepted") (fun _ => timed_out)
              (start 0 (Some KimiAPI) None)) as (s' & R & _ & N).
  { intros i Hi. destruct i as [|[|[|i]]]; [| | |lia]; repeat split; reflexivity. }
  exists s'. split; [exact R|exact N].
Defined.

Lemma unreadable_answer_ends_the_call_witness :
  exists s',
    call_api (quiet_env (always (Responds (Raise blocked_answer)))) gemini
             "text" "prompt" 3 (start 0 (Some gemini) None) = (Ok None, s') /\
    remote_attempts (trace s') = 1%nat.
Proof.
  destruct (unreadable_answer_ends_the_call
              (quiet_env (always (Responds (Raise blocked_answer))))
              (fun _ => eq_refl) gemini "text" "prompt" 3 blocked_answer
              (start 0 (Some gemini) None)) as (s' & R & _ & N).
  { lia. } { intro j. reflexivity. } { reflexivity. }
  exists s'. split; [exact R|exact N].
Defined.

Lemma giving_up_takes_witness :
  exists s' new,
    call_api (quiet_env (always (Raises unavailable))) gemini "text" "prompt" 3
             (start 1000 (Some gemini) None) = (Ok None, s') /\
    trace s' = new /\ slept new == 76 /\ 1000 + 76 <= clock s'.
Proof.
  destruct (giving_up_takes (quiet_env (always (Raises unavailable)))
              (fun _ => eq_refl) (fun _ => Qle_refl 0) gemini "text" "prompt" 3
              (fun _ => unavailable) (start 1000 (Some gemini) None))
    as (s' & new & R & T & _ & _ & C).
  { intros i Hi. split; reflexivity. }
  exists s', new. split; [exact R|]. split; [exact T|]. exact (C eq_refl).
Defined.

Lemma success_means_saved_witness :
  exists pre dir md,
    trace (snd (process_file answering "chapter1" "prompt"
                  (start 0 (Some KimiAPI) None)))
    = (pre ++ [EMakedirs dir; EWrite "book_2/Kimi/chapter1_kimi.md" md])%list /\
    filter is_disk pre = [].
Proof.
  assert (R : process_file answering "chapter1" "prompt" (start 0 (Some KimiAPI) None)
              = (Ok (true, Some "book_2/Kimi/chapter1_kimi.md"),
                 snd (process_file answering "chapter1" "prompt"
                        (start 0 (Some KimiAPI) None)))).
  { vm_compute. reflexivity. }
  exact (success_means_saved answering "chapter1" "prompt" _
           (start 0 (Some KimiAPI) None) _ R).
Defined.

Lemma saved_in_the_folder_of_the_client_witness :
  save_path answering KimiAPI "chapter1" = Some "book_2/Kimi/chapter1_kimi.md".
Proof.
  assert (R : process_file answering "chapter1" "prompt" (start 0 (Some KimiAPI) None)
              = (Ok (true, Some "book_2/Kimi/chapter1_kimi.md"),
                 snd (process_file answering "chapter1" "prompt"
                        (start 0 (Some KimiAPI) None)))).
  { vm_compute. reflexivity. }
  exact (proj1 (saved_in_the_folder_of_the_client answering KimiAPI
                  "chapter1" "prompt" _ (start 0 (Some KimiAPI) None) _
                  eq_refl R)).
Defined.

Lemma gemini_models_share_a_path_witness :
  "book_2/Gemini/chapter1_gemini1.5.md" = "book_2/Gemini/chapter1_gemini1.5.md" /\
  fst (process_file answering "chapter1" "prompt"
         (start 0 (Some (GeminiAPI "gemini-1.5-pro")) None))
  = fst (process_file answering "chapter1" "prompt"
           (start 0 (Some (GeminiAPI "gemini-1.5-flash")) None)).
Proof.
  assert (R1 : process_file answering "chapter1" "prompt"
                 (start 0 (Some (GeminiAPI "gemini-1.5-pro")) None)
               = (Ok (true, Some "book_2/Gemini/chapter1_gemini1.5.md"),
                  snd (process_file answering "chapter1" "prompt"
                         (start 0 (Some (GeminiAPI "gemini-1.5-pro")) None)))).
  { vm_compute. reflexivity. }
  assert (R2 : process_file answering "chapter1" "prompt"
                 (start 0 (Some (GeminiAPI "gemini-1.5-flash")) None)
               = (Ok (true, Some "book_2/Gemini/chapter1_gemini1.5.md"),
                  snd (process_file answering "chapter1" "prompt"
                         (start 0 (Some (GeminiAPI "gemini-1.5-flash")) None)))).
  { vm_compute. reflexivity. }
  split.
  - exact (gemini_models_share_a_path answering "chapter1" "prompt"
             "gemini-1.5-pro" "gemini-1.5-flash" _ _
             (start 0 (Some (GeminiAPI "gemini-1.5-pro")) None) _
             (start 0 (Some (GeminiAPI "gemini-1.5-flash")) None) _
             eq_refl eq_refl eq_refl R1 R2).
  - rewrite R1, R2. reflexivity.
Defined.

Lemma gemini_model_without_dash_saves_nothing_witness :
  exists new,
    trace (snd (process_file answering "chapter1" "prompt"
                  (start 0 (Some (GeminiAPI "gemini")) None))) = new /\
    filter is_disk new = [].
Proof.
  destruct (gemini_model_without_dash_saves_nothing answering "chapter1" "prompt"
              "gemini" (start 0 (Some (GeminiAPI "gemini")) None) eq_refl eq_refl)
    as (new & T & D & _).
  exists new. split; [exact T|exact D].
Defined.

Lemma unreadable_file_fails_at_once_witness :
  process_file (scripted_env (always (Responds (Ok "analysis")))
                  (fun _ => Raise missing_file) plain_prompt)
    "chapter1" "prompt" (start 0 (Some gemini) None)
  = (Ok (false, None), log (EOpenRead "chapter1") (start 0 (Some gemini) None)).
Proof.
  apply (unreadable_file_fails_at_once
           (scripted_env (always (Responds (Ok "analysis")))
              (fun _ => Raise missing_file) plain_prompt)
           "chapter1" "prompt" missing_file (start 0 (Some gemini) None));
    reflexivity.
Defined.

Lemma unusable_prompt_fails_at_once_witness :
  process_file (scripted_env (always (Responds (Ok "analysis"))) readable
                  (fun _ _ _ => Raise prompt_refused))
    "chapter1" "prompt" (start 0 (Some gemini) None)
  = (Ok (false, None), log (EOpenRead "chapter1") (start 0 (Some gemini) None)).
Proof.
  apply (unusable_prompt_fails_at_once
           (scripted_env (always (Responds (Ok "analysis"))) readable
              (fun _ _ _ => Raise prompt_refused))
           gemini "chapter1" "prompt" "text of chapter1"
           (start 0 (Some gemini) None)); [reflexivity|reflexivity|].
  right. exists prompt_refused. repeat split; reflexivity.
Defined.

Lemma failing_prompt_is_retried_with_longer_pauses_witness :
  exists s',
    process_file (scripted_env (always (Responds (Ok "analysis"))) readable
                    (fun _ _ _ => Raise template_missing))
      "chapter1" "prompt" (start 0 (Some gemini) None)
    = (Ok (false, None), s') /\
    trace s' = [EOpenRead "chapter1"; ESleep 60; ESleep 120].
Proof.
  apply (failing_prompt_is_retried_with_longer_pauses
           (scripted_env (always (Responds (Ok "analysis"))) readable
              (fun _ _ _ => Raise template_missing))
           gemini "chapter1" "prompt" "text of chapter1" template_missing
           (start 0 (Some gemini) None)); try reflexivity.
Defined.

Lemma answered_job_is_saved_witness :
  exists s',
    process_file answering "chapter1" "prompt" (start 0 (Some DeepSeekAPI) None)
    = (Ok (true, Some "book_2/DeepSeek/chapter1_deepseek.md"), s') /\
    trace s' = [EOpenRead "chapter1"; EPrint MsgThinking; ESleep 15;
                ERemote ChatCreate; EPrint MsgCollecting; ESleep 10;
                EMakedirs "book_2/DeepSeek";
                EWrite "book_2/DeepSeek/chapter1_deepseek.md" "analysis"].
Proof.
  destruct (answered_job_is_saved answering DeepSeekAPI "chapter1" "prompt"
              "text of chapter1" "promptchapter1" "analysis" "analysis"
              "book_2/DeepSeek" "chapter1_deepseek.md"
              (start 0 (Some DeepSeekAPI) None)) as (s' & R & T & _);
    try reflexivity.
  exists s'. split; [exact R|exact T].
Defined.

Lemma failed_jobs_are_jobs_in_order_witness :
  exists l,
    [ "a"; "b" ] = ([] ++ l)%list /\ subseq l [ "a"; "b" ].
Proof.
  destruct (failed_jobs_are_jobs_in_order refusing "prompt" [ "a"; "b" ] [] 0
              (MkPass [ "a"; "b" ] 2)
              (start 0 (Some gemini) (Some (limiter 0 false))))
    as (l & F & S & _).
  { vm_compute. reflexivity. }
  exists l. split; [exact F|exact S].
Defined.

Lemma only_success_stamps_the_timer_witness :
  let s := start 1000 (Some gemini) (Some (limiter 1 false)) in
  let s' := snd (handle_job refusing "prompt" "a" (MkPass [] 0) s) in
  self_rate_limiter s' = Some (limiter 1 false) /\
  trace (snd (pace refusing 1 "b" s')) = (trace s' ++ [EWait (Some (WaitProcess "b"))])%list.
Proof.
  intros s s'.
  assert (R : process_file refusing "a" "prompt" s
              = (Ok (false, None), snd (process_file refusing "a" "prompt" s))).
  { vm_compute. reflexivity. }
  destruct (only_success_stamps_the_timer refusing "prompt" "a" (MkPass [] 0)
              s _ false None (limiter 1 false) R eq_refl) as [_ H].
  destruct (H eq_refl) as (Hl & _ & Hp).
  split; [exact Hl|].
  destruct (Hp 1%nat "b") as (_ & T & _); [lia| |exact T].
  vm_compute. discriminate.
Defined.

Lemma settings_come_before_the_first_job_witness :
  exists s1,
    trace s1 = [EDialog TitleSettings 1.0] /\
    self_rate_limiter s1 = Some (limiter 1.0 true).
Proof.
  destruct (settings_come_before_the_first_job refusing [ "a" ] "prompt" gemini
              (start 0 (Some gemini) None) eq_refl eq_refl) as (s1 & T & H).
  exists s1. split; [exact T|]. exact (proj1 H).
Defined.

Lemma bad_interval_cancels_the_retry_witness :
  exists s1,
    offer_retry mistyped_env [ "a" ] "prompt"
      (start 0 (Some gemini) (Some (limiter 1 true))) = (Raise not_a_number, s1) /\
    self_rate_limiter s1 = Some (limiter 1 true).
Proof.
  destruct (bad_interval_cancels_the_retry mistyped_env [ "a" ] "prompt"
              (start 0 (Some gemini) (Some (limiter 1 true))) (limiter 1 true)
              not_a_number) as (s1 & R & L & _); try reflexivity.
  { discriminate. }
  exists s1. split; [exact R|exact L].
Defined.

Lemma unknown_model_type_processes_nothing_witness :
  process_files answering [ "a" ] "prompt" (start 0 None None)
  = (Ok tt, start 0 None None).
Proof.
  apply (unknown_model_type_processes_nothing answering "Gemini" None [ "a" ]
           "prompt" (start 0 None None)); try discriminate. reflexivity.
Defined.

Lemma listed_models_get_a_client_witness :
  exists api,
    fst (create_api "kimi" None (start 0 None None)) = Ok (Some api) /\
    api = KimiAPI.
Proof.
  destruct (listed_models_get_a_client "kimi" None (start 0 None None)
              (or_intror (or_introl eq_refl))) as (api & R & H).
  exists api. split; [rewrite R; reflexivity|].
  destruct api as [m| |]; [destruct H as [H _]; discriminate H|reflexivity|discriminate H].
Defined.

Lemma offered_gemini_models_share_three_names_witness :
  exists version,
    In version [ "2.0"; "exp"; "1.5" ] /\
    nth_error (split_on "-" "gemini-exp-1206") 1 = Some version.
Proof.
  assert (R : process_file answering "chapter1" "prompt"
                (start 0 (Some (GeminiAPI "gemini-exp-1206")) None)
              = (Ok (true, Some "book_2/Gemini/chapter1_geminiexp.md"),
                 snd (process_file answering "chapter1" "prompt"
                        (start 0 (Some (GeminiAPI "gemini-exp-1206")) None)))).
  { vm_compute. reflexivity. }
  destruct (offered_gemini_models_share_three_names answering "gemini-exp-1206"
              "chapter1" "prompt" _
              (start 0 (Some (GeminiAPI "gemini-exp-1206")) None) _
              (or_intror (or_introl eq_refl)) eq_refl R) as (v & Hv & Hn & _).
  exists v. split; [exact Hv|exact Hn].
Defined.


Lemma wait_before_every_job_but_the_first_witness :
  undisturbed refusing /\
  filter is_sched
    (trace (snd (process_files_loop refusing "prompt" 0 [ "a"; "b" ] (MkPass [] 0)
                   (start 1000 (Some gemini) (Some (limiter 1 false))))))
  = [EOpenRead "a"; EWait (Some (WaitProcess "b")); EOpenRead "b"].
Proof.
  assert (Q : undisturbed refusing).
  { repeat split; intros; try discriminate.
    match goal with H : _ = Raises _ |- _ => inversion H; reflexivity end. }
  split; [exact Q|].
  destruct (wait_before_every_job_but_the_first refusing "prompt" [ "a"; "b" ]
              (MkPass [] 0) (start 1000 (Some gemini) (Some (limiter 1 false))))
    as [(new & T & _ & _ & H) _].
  assert (L : has_limiter (start 1000 (Some gemini) (Some (limiter 1 false))))
    by discriminate.
  destruct (H Q L) as [_ (done & _ & F & [->|(pre & n & _ & Y)])].
  - rewrite T. exact F.
  - discriminate Y.
Defined.
